(** * Tab Stash: the bookmark-tree mirror and the top-level model

    This development covers two layers of the extension.

    - [Bookmarks]: the indexed tree store that mirrors the browser's bookmark
      tree (by-id, by-parent and by-url indexes, [load] and [apply]), its
      query surface ([positionOf], [pathTo], [childrenOf]) and the stash-root
      resolver.  This layer follows the design document and the expectations
      of [model/bookmarks.test.ts]; every definition that does so says so.
    - [Model]: the functions [attempt], [isURLStashable], [copying] and
      [putItemsInFolder] of [model/index.ts], embedded from the source, with
      the commands they send to the browser as parameters. *)

From stdpp Require Import base option list strings gmap fin_maps fin_sets pretty.

Set Default Proof Using "Type".

(** ** Results of fallible operations *)

Inductive Error :=
  | StructuralViolation
  | NotFound.

Inductive result (A : Type) :=
  | Ok (a : A)
  | Err (e : Error).
Arguments Ok {A} a.
Arguments Err {A} e.

Definition rbind {A B} (r : result A) (k : A → result B) : result B :=
  match r with
  | Ok a => k a
  | Err e => Err e
  end.

Fixpoint foldM {A B} (f : A → B → result A) (a : A) (l : list B) : result A :=
  match l with
  | [] => Ok a
  | b :: l' => rbind (f a b) (λ a', foldM f a' l')
  end.

(** Array insertion at a position, as [Array.prototype.splice(i, 0, x)]
    does for [i] within range. *)
Definition insert_at {A} (i : nat) (x : A) (l : list A) : list A :=
  take i l ++ x :: drop i l.

Module Bookmarks.

(** ** Data model (design document, section 3) *)

Abbreviation NodeID := string.

(** Modelled from the spec: the node variants of [model/bookmarks.ts].  A
    bookmark carries its URL.  A folder's ordered children are held by the
    by-parent index of the store, which is the same sequence the folder
    exposes as [children]; the aggregate counts of a folder and the transient
    selection flags play no part in the indexes and are left out. *)
Inductive Payload :=
  | Bookmark (url : string)
  | Folder
  | Separator.

(** Modelled from the spec: the fields every node of [model/bookmarks.ts]
    shares. *)
Record Node := mkNode {
  id : NodeID;
  parentId : option NodeID;
  index : nat;
  title : string;
  dateAdded : option Z;
  payload : Payload;
}.

Global Instance Payload_eq_dec : EqDecision Payload.
Proof. solve_decision. Defined.
Global Instance Node_eq_dec : EqDecision Node.
Proof. solve_decision. Defined.

Definition isBookmark (n : Node) : bool :=
  match payload n with Bookmark _ => true | _ => false end.
Definition isFolder (n : Node) : bool :=
  match payload n with Folder => true | _ => false end.
Definition isSeparator (n : Node) : bool :=
  match payload n with Separator => true | _ => false end.

Definition with_position (p : option NodeID) (i : nat) (n : Node) : Node :=
  mkNode (id n) p i (title n) (dateAdded n) (payload n).
Definition with_index (i : nat) (n : Node) : Node :=
  mkNode (id n) (parentId n) i (title n) (dateAdded n) (payload n).

(** Modelled from the spec: the indexed tree store of [model/bookmarks.ts],
    with its by-id, by-parent and by-url indexes and the id of the tree
    root. *)
Record Store := mkStore {
  root : NodeID;
  by_id : gmap NodeID Node;
  by_parent : gmap NodeID (list NodeID);
  by_url : gmap string (gset NodeID);
}.

(** Modelled from the spec: the accessors [node], [folder], [childrenOf] and
    [bookmarksWithURL] of [model/bookmarks.ts], as lookups in the indexes. *)
Definition node (s : Store) (k : NodeID) : option Node := by_id s !! k.

Definition folder (s : Store) (k : NodeID) : option Node :=
  match by_id s !! k with
  | Some n => if isFolder n then Some n else None
  | None => None
  end.

Definition children (s : Store) (p : NodeID) : list NodeID :=
  default [] (by_parent s !! p).

Definition url_bucket (m : gmap string (gset NodeID)) (u : string) : gset NodeID :=
  default ∅ (m !! u).

Definition bookmarksWithURL (s : Store) (u : string) : gset NodeID :=
  url_bucket (by_url s) u.

(** ** Query surface (design document, section 4.4) *)

Record Position := mkPosition {
  parent : Node;
  pos_index : nat;
}.

(** Modelled from the spec: [positionOf] of [model/bookmarks.ts], the parent
    folder and the index within it. *)
Definition positionOf (s : Store) (n : Node) : option Position :=
  match parentId n with
  | None => None
  | Some p =>
      match by_id s !! p with
      | Some pn => Some (mkPosition pn (index n))
      | None => None
      end
  end.

(** Modelled from the spec: the walk behind [pathTo] of
    [model/bookmarks.ts], from a node up to the tree root, collecting the
    position of the node and of each ancestor, nearest first.  It is bounded
    by [fuel] and yields [None] when the bound is hit, which stands for a
    walk that does not end. *)
Fixpoint path_up (fuel : nat) (s : Store) (n : Node) : option (list Position) :=
  match fuel with
  | 0 => None
  | S f =>
      match positionOf s n with
      | None => Some []
      | Some pos => (pos ::.) <$> path_up f s (parent pos)
      end
  end.

(** Modelled from the spec: [pathTo], the ordered sequence from the tree root
    down to the node, as the positions that [model/index.ts] reads
    ([p.parent.id]).  A chain of ancestors never holds more nodes than the
    by-id index, which bounds the walk. *)
Definition pathTo (s : Store) (n : Node) : option (list Position) :=
  reverse <$> path_up (S (size (by_id s))) s n.

Definition childrenOf (s : Store) (f : Node) : list Node :=
  omap (λ k, by_id s !! k) (children s (id f)).

(** ** The change events (design document, section 4.1) *)

Record Patch := mkPatch {
  patch_title : option string;
  patch_url : option string;
}.

Inductive Change :=
  | Insert (n : Node) (parentId : NodeID) (index : nat)
  | Update (k : NodeID) (patch : Patch)
  | Move (k : NodeID) (newParentId : NodeID) (newIndex : nat)
  | Remove (k : NodeID)
  | RemoveTree (k : NodeID).

(** Shifts the [index] field of every child of [p] whose index is at least
    [from]. *)
Definition shift_siblings (f : nat → nat) (p : NodeID) (from : nat)
    (m : gmap NodeID Node) : gmap NodeID Node :=
  (λ n, if decide (parentId n = Some p ∧ from ≤ index n)
        then with_index (f (index n)) n else n) <$> m.

Definition index_url (n : Node) (m : gmap string (gset NodeID))
    : gmap string (gset NodeID) :=
  match payload n with
  | Bookmark u => <[u := {[id n]} ∪ url_bucket m u]> m
  | _ => m
  end.

Definition unindex_url (n : Node) (m : gmap string (gset NodeID))
    : gmap string (gset NodeID) :=
  match payload n with
  | Bookmark u => <[u := url_bucket m u ∖ {[id n]}]> m
  | _ => m
  end.

(** Modelled from the spec (Move and Remove of [model/bookmarks.ts]): takes
    a node out of its parent's children and closes the gap by decrementing
    the indices of the later siblings. *)
Definition detach (s : Store) (n : Node) : Store :=
  match parentId n with
  | None => s
  | Some p =>
      mkStore (root s)
        (shift_siblings Nat.pred p (S (index n)) (by_id s))
        (alter (delete (index n)) p (by_parent s))
        (by_url s)
  end.

(** Modelled from the spec (Insert and Move of [model/bookmarks.ts]): places
    a node at position [i] of [p]'s children, incrementing the indices of the
    siblings at or after [i]. *)
Definition attach (s : Store) (n : Node) (p : NodeID) (i : nat) : Store :=
  mkStore (root s)
    (<[id n := with_position (Some p) i n]> (shift_siblings S p i (by_id s)))
    (alter (insert_at i (id n)) p (by_parent s))
    (by_url s).

(** The ids of the folders a path leads through. *)
Definition path_ids (path : list Position) : list NodeID :=
  (λ p, id (parent p)) <$> path.

(** Would placing [k] under [p] close a cycle?  True when [p] is [k] itself
    or lies below [k]. *)
Definition in_subtree (s : Store) (k : NodeID) (pn : Node) : bool :=
  match pathTo s pn with
  | None => true
  | Some path => bool_decide (k = id pn) || bool_decide (k ∈ path_ids path)
  end.

(** Modelled from the spec (Move of [model/bookmarks.ts]): detaches the
    stored record [old] and re-attaches [new] (same id) at position [i] of
    [p].  A move of the root, into the node's own subtree, into something
    that is not a folder or to an index beyond the end is structurally
    impossible and fails; a target folder that is not stored makes the event
    stale, a no-op. *)
Definition relocate (s : Store) (old new : Node) (p : NodeID) (i : nat)
    : result Store :=
  match parentId old with
  | None => Err StructuralViolation
  | Some _ =>
      match by_id s !! p with
      | None => Ok s
      | Some pn =>
          if in_subtree s (id old) pn then Err StructuralViolation
          else
            let s1 := detach s old in
            match by_parent s1 !! p with
            | None => Err StructuralViolation
            | Some cs =>
                if decide (i ≤ length cs) then Ok (attach s1 new p i)
                else Err StructuralViolation
            end
      end
  end.

(** Modelled from the spec (Insert of [model/bookmarks.ts]), for an id that
    is not stored yet. *)
Definition insert_new (s : Store) (n : Node) (p : NodeID) (i : nat)
    : result Store :=
  match by_id s !! p with
  | None => Ok s
  | Some _ =>
      match by_parent s !! p with
      | None => Err StructuralViolation
      | Some cs =>
          if decide (i ≤ length cs) then
            Ok (attach
                  (mkStore (root s) (by_id s)
                     (if isFolder n then <[id n := []]> (by_parent s)
                      else by_parent s)
                     (index_url n (by_url s)))
                  n p i)
          else Err StructuralViolation
      end
  end.

Definition with_url_index (f : gmap string (gset NodeID) → gmap string (gset NodeID))
    (s : Store) : Store :=
  mkStore (root s) (by_id s) (by_parent s) (f (by_url s)).

(** Modelled from the spec (Insert of [model/bookmarks.ts]), for an id that
    is stored already: the node is overwritten in place, taken to the
    position the event names and re-indexed under its new URL. *)
Definition insert_existing (s : Store) (old n : Node) (p : NodeID) (i : nat)
    : result Store :=
  if negb (bool_decide (isFolder old = isFolder n)) then Err StructuralViolation
  else
    match by_id s !! p with
    | None => Ok s
    | Some _ =>
        rbind (relocate s old n p i)
              (λ s', Ok (with_url_index (λ m, index_url n (unindex_url old m)) s'))
    end.

Definition apply_patch (pt : Patch) (n : Node) : Node :=
  mkNode (id n) (parentId n) (index n)
    (default (title n) (patch_title pt))
    (dateAdded n)
    (match payload n, patch_url pt with
     | Bookmark _, Some u => Bookmark u
     | pl, _ => pl
     end).

(** Modelled from the spec (Update of [model/bookmarks.ts]): merges the
    patch and moves the node between the buckets of the by-url index. *)
Definition update (s : Store) (old : Node) (pt : Patch) : Store :=
  let n := apply_patch pt old in
  mkStore (root s) (<[id old := n]> (by_id s)) (by_parent s)
    (index_url n (unindex_url old (by_url s))).

(** Modelled from the spec (Remove of [model/bookmarks.ts]): removes a node
    that has no children from every index; a node with children, or the
    root, is refused. *)
Definition remove_leaf (s : Store) (k : NodeID) : result Store :=
  match by_id s !! k with
  | None => Ok s
  | Some n =>
      match parentId n, children s k with
      | Some _, [] =>
          let s1 := detach s n in
          Ok (mkStore (root s1) (delete k (by_id s1)) (delete k (by_parent s1))
                (unindex_url n (by_url s1)))
      | _, _ => Err StructuralViolation
      end
  end.

(** Modelled from the spec (RemoveTree of [model/bookmarks.ts]): removes the
    descendants bottom-up, then the node itself.  The recursion goes one
    level down per call and is bounded by [fuel]. *)
Fixpoint remove_tree (fuel : nat) (s : Store) (k : NodeID) : result Store :=
  match fuel with
  | 0 => Err StructuralViolation
  | S f =>
      rbind (foldM (remove_tree f) s (children s k)) (λ s', remove_leaf s' k)
  end.

(** Modelled from the spec: [apply], one change at a time.  A change for an
    id that is not (or no longer) in the store is a no-op; a structurally
    impossible request fails and leaves the store as it was. *)
Definition apply (s : Store) (c : Change) : result Store :=
  match c with
  | Insert n p i =>
      match by_id s !! id n with
      | None => insert_new s n p i
      | Some old => insert_existing s old n p i
      end
  | Update k pt =>
      match by_id s !! k with
      | None => Ok s
      | Some old => Ok (update s old pt)
      end
  | Move k p i =>
      match by_id s !! k with
      | None => Ok s
      | Some old => relocate s old old p i
      end
  | Remove k => remove_leaf s k
  | RemoveTree k =>
      match by_id s !! k with
      | None => Ok s
      | Some _ => remove_tree (S (size (by_id s))) s k
      end
  end.

(** The store after a change: a failed change leaves it as it was. *)
Definition after (s : Store) (c : Change) : Store :=
  match apply s c with
  | Ok s' => s'
  | Err _ => s
  end.

Definition run (s : Store) (cs : list Change) : Store := foldl after s cs.

(** ** Bulk load *)

(** The tree handed over by the browser ([bookmarks.getTree()]). *)
#[warnings="-register-all"]
Inductive Tree :=
  | TBookmark (k : NodeID) (title url : string) (added : option Z)
  | TSeparator (k : NodeID)
  | TFolder (k : NodeID) (title : string) (added : option Z) (kids : list Tree).

Definition tree_node (t : Tree) (p : option NodeID) (i : nat) : Node :=
  match t with
  | TBookmark k ti u d => mkNode k p i ti d (Bookmark u)
  | TSeparator k => mkNode k p i EmptyString None Separator
  | TFolder k ti d _ => mkNode k p i ti d Folder
  end.

(** The store that holds the root of the loaded tree and nothing else. *)
Definition init (t : Tree) : Store :=
  let r := tree_node t None 0 in
  mkStore (id r) {[id r := r]}
    (if isFolder r then {[id r := []]} else ∅)
    (index_url r ∅).

(** Imports the subtree [t] as child [i] of [p], then its children in
    order. *)
Fixpoint load_into (t : Tree) (p : NodeID) (i : nat) (s : Store) : Store :=
  let s' := after s (Insert (tree_node t (Some p) i) p i) in
  match t with
  | TFolder k _ _ kids =>
      (fix go (l : list Tree) (j : nat) (s : Store) : Store :=
         match l with
         | [] => s
         | c :: l' => go l' (S j) (load_into c k j s)
         end) kids 0 s'
  | _ => s'
  end.

Fixpoint load_kids (l : list Tree) (k : NodeID) (j : nat) (s : Store) : Store :=
  match l with
  | [] => s
  | c :: l' => load_kids l' k (S j) (load_into c k j s)
  end.

(** Modelled from the spec: [load], the synchronous bulk import of the whole
    tree into empty indexes. *)
Definition load (t : Tree) : Store :=
  match t with
  | TFolder k _ _ kids => load_kids kids k 0 (init t)
  | _ => init t
  end.

(** ** Stash-root resolver (design document, section 4.2) *)

Definition depthOf (s : Store) (n : Node) : option nat :=
  length <$> pathTo s n.

(** All folders whose title is the designated name. *)
Definition candidates (name : string) (s : Store) : list Node :=
  filter (λ n, isFolder n = true ∧ title n = name) (map_to_list (by_id s)).*2.

Definition ranked (name : string) (s : Store) : list (Node * nat) :=
  omap (λ n, (n,.) <$> depthOf s n) (candidates name s).

(** [a] is at least as good a root as [b]: closer to the tree root, or as
    close and with the lower id. *)
Definition better (a b : Node * nat) : bool :=
  (a.2 <? b.2) || ((a.2 =? b.2) && String.leb (id a.1) (id b.1)).

Definition pick (l : list (Node * nat)) : option (Node * nat) :=
  foldr (λ c best,
           match best with
           | None => Some c
           | Some b => if better c b then Some c else Some b
           end) None l.

(** The candidates that share the depth of the chosen one. *)
Definition topmost (name : string) (s : Store) : list (Node * nat) :=
  match pick (ranked name s) with
  | None => []
  | Some b => filter (λ c, c.2 = b.2) (ranked name s)
  end.

(** Modelled from the spec: the resolved stash root, the topmost folder
    carrying the designated name. *)
Definition stash_root (name : string) (s : Store) : option Node :=
  fst <$> pick (ranked name s).

(** Modelled from the spec: the ambiguity warning.  The test "finds the
    topmost stash root" expects no warning when a second candidate lies
    deeper than the resolved one, and "finds multiple stash roots at the same
    level" expects one: the warning is raised when the topmost level itself
    holds more than one candidate. *)
Definition stash_root_warning (name : string) (s : Store) : bool :=
  bool_decide (2 ≤ length (topmost name s)).

(** ** Consistency of the indexes (design document, section 3) *)

Definition parent_of (s : Store) (k : NodeID) : option (option NodeID) :=
  parentId <$> by_id s !! k.

(** [Depth s k d]: following parent links from [k] reaches a parentless node
    in [d] steps. *)
Inductive Depth (s : Store) : NodeID → nat → Prop :=
  | Depth_top k :
      parent_of s k = Some None → Depth s k 0
  | Depth_child k p d :
      parent_of s k = Some (Some p) → Depth s p d → Depth s k (S d).

(** [Anc s a k]: [a] is a proper ancestor of [k]. *)
Inductive Anc (s : Store) (a : NodeID) : NodeID → Prop :=
  | Anc_parent k :
      parent_of s k = Some (Some a) → Anc s a k
  | Anc_step k p :
      parent_of s k = Some (Some p) → Anc s a p → Anc s a k.

Record tree_ok (s : Store) : Prop := mk_tree_ok {
  t_id : ∀ k n, by_id s !! k = Some n → id n = k;
  t_root : ∀ k n, by_id s !! k = Some n → (parentId n = None ↔ k = root s);
  t_root_in : is_Some (by_id s !! root s);
  t_up : ∀ k n p, by_id s !! k = Some n → parentId n = Some p →
         ∃ cs, by_parent s !! p = Some cs ∧ cs !! index n = Some k;
  t_down : ∀ p cs i k, by_parent s !! p = Some cs → cs !! i = Some k →
           ∃ n, by_id s !! k = Some n ∧ parentId n = Some p ∧ index n = i;
  t_folder : ∀ p, is_Some (by_parent s !! p) ↔
                  ∃ n, by_id s !! p = Some n ∧ payload n = Folder;
  t_depth : ∀ k, is_Some (by_id s !! k) → ∃ d, Depth s k d;
}.

(** What the tree structure reads of a node. *)
Definition shape (n : Node) : NodeID * option NodeID * nat * bool :=
  (id n, parentId n, index n, isFolder n).

Definition urls_ok (m : gmap NodeID Node) (um : gmap string (gset NodeID)) : Prop :=
  ∀ u k, k ∈ url_bucket um u ↔ ∃ n, m !! k = Some n ∧ payload n = Bookmark u.

Definition consistent (s : Store) : Prop :=
  tree_ok s ∧ urls_ok (by_id s) (by_url s).

(** A node that is stored but sits in no children sequence: the state
    between taking it out of one place and putting it into another. *)
Record loose (s : Store) (k : NodeID) : Prop := mk_loose {
  l_id : ∀ x n, by_id s !! x = Some n → id n = x;
  l_root : ∀ x n, by_id s !! x = Some n → x ≠ k →
           (parentId n = None ↔ x = root s);
  l_root_in : is_Some (by_id s !! root s);
  l_not_root : k ≠ root s;
  l_up : ∀ x n p, by_id s !! x = Some n → x ≠ k → parentId n = Some p →
         ∃ cs, by_parent s !! p = Some cs ∧ cs !! index n = Some x;
  l_down : ∀ p cs i x, by_parent s !! p = Some cs → cs !! i = Some x →
           x ≠ k ∧ ∃ n, by_id s !! x = Some n ∧ parentId n = Some p ∧ index n = i;
  l_folder : ∀ p, p ≠ k →
             (is_Some (by_parent s !! p) ↔
              ∃ n, by_id s !! p = Some n ∧ payload n = Folder);
}.

End Bookmarks.

(** ** The bookmark tree the tests of the bookmark model start from

    The fixture file is not among the sources; the tree is put together
    from what [model/bookmarks.test.ts] expects of it. *)

Module Fixture.
Import Bookmarks.

Definition STASH_ROOT_NAME : string := "Tab Stash Test Root".

Definition B (frag : string) : string := "http://example.com/#" +:+ frag.

Definition names : Tree :=
  TFolder "names" "Names" None
    [ TBookmark "doug_2" "Doug Duplicate" (B "doug") None;
      TBookmark "helen" "Helen Hidden" (B "helen") None;
      TBookmark "patricia" "Patricia Pinned" (B "patricia") None;
      TBookmark "nate" "Nate NotOpen" (B "nate") None ].

Definition unnamed : Tree :=
  TFolder "unnamed" "saved-1970-01-01T00:00:00.000Z" None
    [ TBookmark "undyne" "Undyne" (B "undyne") None ].

Definition outside : Tree :=
  TFolder "outside" "Outside" None
    [ TBookmark "alice" "Alice" (B "alice") None;
      TSeparator "separator";
      TBookmark "bob" "Bob" (B "bob") None;
      TFolder "empty" "Empty Folder" None [] ].

Definition tree : Tree :=
  TFolder "tree_root" "" None
    [ TFolder "root" "Root" None
        [ TBookmark "doug_1" "Doug Duplicate" (B "doug") None;
          TBookmark "francis" "Francis Friend" (B "francis") None;
          outside;
          TFolder "stash_root" STASH_ROOT_NAME None [names; unnamed] ] ].

Definition bms : Store := load tree.

(** The children of a folder, each with the index its node records. *)
Definition ids_and_indices (s : Store) (p : NodeID) : list (NodeID * option nat) :=
  (λ k, (k, index <$> by_id s !! k)) <$> children s p.

End Fixture.


(** * The top-level model ([model/index.ts]) *)

Module Model.
Import Bookmarks.

(** ** Exceptions, outcomes and the effects the model performs *)

Inductive Exn :=
  | JsError (msg : string)
  | UserError (msg : string)
  | TypeError (msg : string).

(** How a call ends: it returns, it throws (an async function rejects), or
    it fails to terminate. *)
Inductive Outcome (A : Type) :=
  | Returned (a : A)
  | Thrown (e : Exn)
  | Diverged.
Arguments Returned {A} a.
Arguments Thrown {A} e.
Arguments Diverged {A}.

(** A command handed to the bookmark model or to the browser. *)
Inductive Command :=
  | CmdMove (k toParent : NodeID) (toIndex : nat)
  | CmdCreate (title : string) (url : option string) (parentId : NodeID)
      (index : nat)
  | CmdSetSelected (ks : list NodeID) (isSelected : bool)
  | CmdCloseTabs (tabIds : list nat).

(** What the functions below read and change: the bookmark model, the error
    log written by [logError], the number of model reloads that have been
    started, and the commands issued so far. *)
Record World := mkWorld {
  bookmarks : Store;
  logged : list Exn;
  reloads : nat;
  commands : list Command;
}.

Definition M (A : Type) : Type := World → World * Outcome A.

Global Instance M_ret : MRet M := λ A a w, (w, Returned a).

Global Instance M_bind : MBind M := λ A B k m w,
  match m w with
  | (w', Returned a) => k a w'
  | (w', Thrown e) => (w', Thrown e)
  | (w', Diverged) => (w', Diverged)
  end.

Definition throw {A} (e : Exn) : M A := λ w, (w, Thrown e).

Definition diverge {A} : M A := λ w, (w, Diverged).

(** [try { m } catch (e) { handler e }] *)
Definition try_catch {A} (m : M A) (handler : Exn → M A) : M A := λ w,
  match m w with
  | (w', Thrown e) => handler e w'
  | r => r
  end.

Definition get_bookmarks : M Store := λ w, (w, Returned (bookmarks w)).

(** [logError] of [util/oops]: records the error. *)
Definition logError (e : Exn) : M unit := λ w,
  (mkWorld (bookmarks w) (logged w ++ [e]) (reloads w) (commands w), Returned tt).

(** [logErrorsFrom] of [util/oops]: runs the function, logs the error it
    throws, and throws it again. *)
Definition logErrorsFrom {A} (f : M A) : M A :=
  try_catch f (λ e, _ ← logError e; throw e).

(** A promise that is started and not awaited: its effects take place, its
    outcome is dropped. *)
Definition not_awaited {A} (m : M A) : M unit := λ w,
  ((m w).1, Returned tt).

(** [Model.reload]: starts a reload of the tab, container, bookmark and
    browser-settings models.  The reloads themselves happen in the browser;
    the model counts that one was started. *)
Definition reload : M unit := λ w,
  (mkWorld (bookmarks w) (logged w) (S (reloads w)) (commands w), Returned tt).

(** [[
  async attempt<R>(fn: () => Promise<R>): Promise<R> {
    try {
      return await fn();
    } catch (e) {
      logError(e);
      logErrorsFrom(async () => this.reload());
      throw e;
    }
  }
]] *)
Definition attempt {R} (fn : M R) : M R :=
  try_catch fn
    (λ e, _ ← logError e; _ ← not_awaited (logErrorsFrom reload); throw e).

(** ** Stash items *)

Record Tab := mkTab {
  tab_id : nat;
  tab_title : option string;
  tab_url : string;
}.

(** [NewTab | NewFolder]: items that are not part of the model and carry no
    [id]. *)
#[warnings="-register-all"]
Inductive NewItem :=
  | NewTab (title : option string) (url : string)
  | NewFolder (title : string) (children : list NewItem).

(** [StashItem = NewTab | NewFolder | ModelItem], where a model item is a
    tab ([id: number]) or a bookmark node ([id: string]). *)
Inductive StashItem :=
  | INew (i : NewItem)
  | ITab (t : Tab)
  | INode (n : Node).

Definition isModelItem (item : StashItem) : bool :=
  match item with INew _ => false | _ => true end.
Definition isTab (item : StashItem) : bool :=
  match item with ITab _ => true | _ => false end.
Definition isNode (item : StashItem) : bool :=
  match item with INode _ => true | _ => false end.
Definition isBookmark (item : StashItem) : bool :=
  match item with INode n => Bookmarks.isBookmark n | _ => false end.
Definition isFolder (item : StashItem) : bool :=
  match item with INode n => Bookmarks.isFolder n | _ => false end.
Definition isNewTab (item : StashItem) : bool :=
  match item with INew (NewTab _ _) => true | _ => false end.
Definition isNewFolder (item : StashItem) : bool :=
  match item with INew (NewFolder _ _) => true | _ => false end.

(** ** [isURLStashable] *)

Section isURLStashable.
(** [browser_settings.isNewTabURL], the [URL] constructor (which throws a
    [TypeError] on a string that is not a URL) and
    [browser.runtime.getURL("")]. *)
Variable isNewTabURL : string → bool.
Variable URL : Type.
Variable new_URL : string → Exn + URL.
Variable extension_base_url : string.

(** [[
  isURLStashable(url_str?: string): boolean {
    if (!url_str) return false;
    if (this.browser_settings.isNewTabURL(url_str)) return false;
    try {
      new URL(url_str);
    } catch (e) {
      return false;
    }
    return !url_str.startsWith(browser.runtime.getURL(""));
  }
]] *)
Definition isURLStashable (url_str : option string) : Exn + bool :=
  match url_str with
  | None => inr false
  | Some EmptyString => inr false
  | Some url_str =>
      if isNewTabURL url_str then inr false
      else
        match new_URL url_str with
        | inl e => inr false
        | inr _ => inr (negb (String.prefix extension_base_url url_str))
        end
  end.
End isURLStashable.

(** ** [copying] *)

(** [filterMap] of [util]: maps every element and keeps the results that
    are not [undefined]. *)
Definition filterMap {T U} (array : list T) (map : T → option U) : list U :=
  omap map array.

(** The same, for a callback that may fail to terminate ([None]). *)
Fixpoint filterMapM {T U} (array : list T) (map : T → option (option U))
    : option (list U) :=
  match array with
  | [] => Some []
  | x :: rest =>
      m ← map x;
      r ← filterMapM rest map;
      Some (match m with Some y => y :: r | None => r end)
  end.

(** The callback of [copying]; [rec] is [this.copying]. *)
Definition copy_item (rec : list StashItem → option (list NewItem))
    (bm : Store) (item : StashItem) : option (option NewItem) :=
  match item with
  | INew i => Some (Some i)
  | ITab t => Some (Some (NewTab (tab_title t) (tab_url t)))
  | INode n =>
      match payload n with
      | Bookmark u => Some (Some (NewTab (Some (Bookmarks.title n)) u))
      | Folder =>
          kids ← rec (INode <$> childrenOf bm n);
          Some (Some (NewFolder (Bookmarks.title n) kids))
      | Separator => Some None
      end
  end.

Fixpoint copying_upto (fuel : nat) (bm : Store) (items : list StashItem)
    : option (list NewItem) :=
  match fuel with
  | 0 => None
  | S f => filterMapM items (copy_item (copying_upto f bm) bm)
  end.

(** [[
  copying(items: StashItem[]): (NewTab | NewFolder)[] {
    return filterMap(items, item => {
      if (isNewItem(item)) return item;
      if (isTab(item)) return {title: item.title, url: item.url};
      if (isNode(item)) {
        if (Bookmarks.isBookmark(item)) {
          return {title: item.title, url: item.url};
        }
        if (Bookmarks.isFolder(item)) {
          return {
            title: item.title,
            children: this.copying(this.bookmarks.childrenOf(item)),
          };
        }
        // Separators are excluded
      }
    });
  }
]]
    The recursion descends one level of the bookmark tree per call, so its
    depth is bounded by the number of stored nodes; [None] stands for a
    recursion that does not end. *)
Definition copying (bm : Store) (items : list StashItem) : option (list NewItem) :=
  copying_upto (size (by_id bm) + 2) bm items.

(** What [copying] is documented to return, stated on its own: new items
    pass through, tabs and bookmarks become title and URL, folders are
    copied with the copies of their children, separators are left out. *)
Inductive Copies (bm : Store) : list StashItem → list NewItem → Prop :=
  | Copies_nil :
      Copies bm [] []
  | Copies_new i items r :
      Copies bm items r → Copies bm (INew i :: items) (i :: r)
  | Copies_tab t items r :
      Copies bm items r →
      Copies bm (ITab t :: items) (NewTab (tab_title t) (tab_url t) :: r)
  | Copies_bookmark n u items r :
      payload n = Bookmark u → Copies bm items r →
      Copies bm (INode n :: items) (NewTab (Some (Bookmarks.title n)) u :: r)
  | Copies_folder n kids items r :
      payload n = Folder →
      Copies bm (INode <$> childrenOf bm n) kids → Copies bm items r →
      Copies bm (INode n :: items) (NewFolder (Bookmarks.title n) kids :: r)
  | Copies_separator n items r :
      payload n = Separator → Copies bm items r →
      Copies bm (INode n :: items) r.

(** ** [putItemsInFolder] *)

(** The options of the call.  The optional progress monitor [task] only
    reports progress and is left out, as when the caller passes none. *)
Record PutOptions := mkPutOptions {
  items : list StashItem;
  toFolderId : NodeID;
  toIndex : option nat;
  allowDuplicates : bool;
}.

(** [expect] of [util]: the value, or an [Error] with the message. *)
Definition expect {A} (value : option A) (msg : string) : M A :=
  match value with
  | Some a => mret a
  | None => throw (JsError msg)
  end.

(** [[
  for (const i of items) {
    if (!isFolder(i)) continue;
    if (cyclic_sources.includes(i.id)) {
      throw new UserError(`Cannot move a group into itself`);
    }
  }
]] *)
Fixpoint check_cyclic_sources (cyclic_sources : list NodeID)
    (items : list StashItem) : M unit :=
  match items with
  | [] => mret tt
  | i :: rest =>
      match i with
      | INode n =>
          if negb (isFolder i) then check_cyclic_sources cyclic_sources rest
          else if bool_decide (id n ∈ cyclic_sources)
               then throw (UserError "Cannot move a group into itself")
               else check_cyclic_sources cyclic_sources rest
      | _ => check_cyclic_sources cyclic_sources rest
      end
  end.

(** [isModelItem(item) ? this.item(item.id) : undefined], kept when it is a
    bookmark node ([model_item && isNode(model_item)]); a tab is looked up in
    the tab model and is never a node. *)
Definition model_node (bm : Store) (item : StashItem) : option Node :=
  match item with
  | INode n => by_id bm !! id n
  | _ => None
  end.

(** [item.url], when ["url" in item]. *)
Definition item_url (item : StashItem) : option string :=
  match item with
  | INew (NewTab _ u) => Some u
  | INew (NewFolder _ _) => None
  | ITab t => Some (tab_url t)
  | INode n => match payload n with Bookmark u => Some u | _ => None end
  end.

(** [item.title] *)
Definition item_title (item : StashItem) : option string :=
  match item with
  | INew (NewTab t _) => t
  | INew (NewFolder t _) => Some t
  | ITab t => tab_title t
  | INode n => Some (Bookmarks.title n)
  end.

(** [item.title ? item.title === bm.title : true] *)
Definition title_matches (title : option string) (bm_title : string) : bool :=
  match title with
  | Some (String _ _ as t) => bool_decide (t = bm_title)
  | _ => true
  end.

(** [item.title || item.url] *)
Definition title_or_url (title : option string) (url : string) : string :=
  match title with
  | Some (String _ _ as t) => t
  | _ => url
  end.

(** [[
  const already_there =
    "url" in item && !options.allowDuplicates
      ? this.bookmarks
          .childrenOf(to_folder)
          .filter(
            bm =>
              !dont_steal_bms.has(bm.id) &&
              "url" in bm &&
              bm.url === item.url &&
              (item.title ? item.title === bm.title : true),
          )
      : [];
]] *)
Definition already_there (bm : Store) (to_folder : Node) (allow_duplicates : bool)
    (dont_steal_bms : gset NodeID) (item : StashItem) : list Node :=
  match item_url item with
  | Some url =>
      if allow_duplicates then []
      else filter (λ c, (id c ∉ dont_steal_bms) ∧ payload c = Bookmark url ∧
                        title_matches (item_title item) (Bookmarks.title c) = true)
             (childrenOf bm to_folder)
  | None => []
  end.

(** [pos && pos.parent === to_folder && pos.index < to_index] *)
Definition before_insertion_point (pos : option Position) (to_folder : Node)
    (to_index : nat) : bool :=
  match pos with
  | Some p => bool_decide (id (parent p) = id to_folder) && (pos_index p <? to_index)
  | None => false
  end.

Section putItemsInFolder.
(** The commands the function issues: [bookmarks.move], [bookmarks.create]
    and [bookmarks.setSelected] of the bookmark model, and
    [hideOrCloseStashedTabs], which acts on the browser's tabs.  [is_selected]
    reads the [$selected] flag of an item. *)
Variable bookmarks_move : NodeID → NodeID → nat → M unit.
Variable bookmarks_create : string → option string → NodeID → nat → M Node.
Variable bookmarks_setSelected : list Node → bool → M unit.
Variable hideOrCloseStashedTabs : list nat → M unit.
Variable is_selected : StashItem → bool.

(** [createTree], for an item that is not part of the model. *)
Fixpoint createTree_new (item : NewItem) (parentId : NodeID) (index : nat)
    : M Node :=
  match item with
  | NewTab title url =>
      bookmarks_create (title_or_url title url) (Some url) parentId index
  | NewFolder title kids =>
      node ← bookmarks_create title None parentId index;
      _ ← (fix go (l : list NewItem) (idx : nat) : M unit :=
             match l with
             | [] => mret tt
             | c :: l' => _ ← createTree_new c (id node) idx; go l' (S idx)
             end) kids 0;
      mret node
  end.

(** The children of a folder item that are given by id are moved into the
    new folder. *)
Fixpoint move_children (kids : list NodeID) (parentId : NodeID) (idx : nat)
    : M unit :=
  match kids with
  | [] => mret tt
  | c :: rest =>
      _ ← bookmarks_move c parentId idx; move_children rest parentId (S idx)
  end.

(** [[
  const createTree = async (item, parentId, index) => {
    const node =
      "url" in item
        ? await this.bookmarks.create({
            title: item.title || item.url, url: item.url, parentId, index})
        : await this.bookmarks.create({title: item.title, parentId, index});
    if ("children" in item) {
      let idx = 0;
      for (const c of item.children) {
        if (typeof c === "string") {
          await this.bookmarks.move(c, node.id, idx);
        } else {
          await createTree(c, node.id, idx);
        }
        ++idx;
      }
    }
    return node;
  };
]]
    The children of a bookmark folder are ids, read here from the by-parent
    index, which holds the sequence the folder exposes as [children]; those
    of a new folder are new items. *)
Definition createTree (item : StashItem) (parentId : NodeID) (index : nat)
    : M Node :=
  match item with
  | INew i => createTree_new i parentId index
  | ITab t =>
      bookmarks_create (title_or_url (tab_title t) (tab_url t))
        (Some (tab_url t)) parentId index
  | INode n =>
      match payload n with
      | Bookmark u =>
          bookmarks_create (title_or_url (Some (Bookmarks.title n)) u) (Some u)
            parentId index
      | Folder =>
          node ← bookmarks_create (Bookmarks.title n) None parentId index;
          bm ← get_bookmarks;
          _ ← move_children (children bm (id n)) (id node) 0;
          mret node
      | Separator => bookmarks_create (Bookmarks.title n) None parentId index
      end
  end.

(** The loop of [putItemsInFolder] (index.ts 543-644), one item per round;
    [to_index] is the insertion point of the round. *)
Fixpoint put_loop (items : list StashItem) (to_folder : Node)
    (allow_duplicates : bool) (to_index : nat) (dont_steal_bms : gset NodeID)
    (moved_items : list Node) (close_tab_ids : list nat)
    : M (list Node * list nat) :=
  match items with
  | [] => mret (moved_items, close_tab_ids)
  | item :: rest =>
      bm ← get_bookmarks;
      match model_node bm item with
      | Some model_item =>
          (* a bookmark node: move it directly *)
          let pos := positionOf bm model_item in
          _ ← bookmarks_move (id model_item) (id to_folder) to_index;
          let to_index :=
            if before_insertion_point pos to_folder to_index
            then to_index - 1 else to_index in
          put_loop rest to_folder allow_duplicates (S to_index)
            ({[id model_item]} ∪ dont_steal_bms) (moved_items ++ [model_item])
            close_tab_ids
      | None =>
          let close_tab_ids :=
            match item with
            | ITab t => close_tab_ids ++ [tab_id t]
            | _ => close_tab_ids
            end in
          '(node, to_index) ←
            match already_there bm to_folder allow_duplicates dont_steal_bms item with
            | node :: _ =>
                (* a duplicate in the folder: move it into position *)
                let pos := positionOf bm node in
                _ ← bookmarks_move (id node) (id to_folder) to_index;
                mret (node,
                      if before_insertion_point pos to_folder to_index
                      then to_index - 1 else to_index)
            | [] =>
                node ← createTree item (id to_folder) to_index;
                mret (node, to_index)
            end;
          _ ← bookmarks_setSelected [node] (isModelItem item && is_selected item);
          put_loop rest to_folder allow_duplicates (S to_index)
            ({[id node]} ∪ dont_steal_bms) (moved_items ++ [node]) close_tab_ids
      end
  end.

(** [[
  async putItemsInFolder(options): Promise<Bookmarks.Node[]> {
    const to_folder = expect(
      this.bookmarks.folder(options.toFolderId),
      () => `Destination folder does not exist: ${options.toFolderId}`,
    );
    const items = options.items;
    const cyclic_sources = this.bookmarks
      .pathTo(to_folder)
      .map(p => p.parent.id);
    cyclic_sources.push(to_folder.id);
    for (const i of items) { ... }
    const dont_steal_bms = new Set<Bookmarks.NodeID>(
      filterMap(items, i => (isNode(i) ? i.id : undefined)),
    );
    const moved_items = [];
    const close_tab_ids = [];
    for (let i = 0,
             to_index = options.toIndex ?? to_folder.children.length;
         ...) { ... }
    await this.hideOrCloseStashedTabs(close_tab_ids);
    return moved_items;
  }
]] *)
Definition putItemsInFolder (options : PutOptions) : M (list Node) :=
  bm ← get_bookmarks;
  to_folder ← expect (folder bm (toFolderId options))
                ("Destination folder does not exist: " +:+ toFolderId options);
  match pathTo bm to_folder with
  | None => diverge
  | Some path =>
      let cyclic_sources := path_ids path ++ [id to_folder] in
      _ ← check_cyclic_sources cyclic_sources (items options);
      let dont_steal_bms : gset NodeID :=
        list_to_set
          (filterMap (items options)
             (λ i, match i with INode n => Some (id n) | _ => None end)) in
      '(moved_items, close_tab_ids) ←
        put_loop (items options) to_folder (allowDuplicates options)
          (default (length (children bm (id to_folder))) (toIndex options))
          dont_steal_bms [] [];
      _ ← hideOrCloseStashedTabs close_tab_ids;
      mret moved_items
  end.

(** What the loop comes to when every item is new and duplicates are
    allowed: one [createTree] per item, at successive indices. *)
Fixpoint create_each (new_items : list NewItem) (to_folder : Node)
    (to_index : nat) (moved_items : list Node) : M (list Node) :=
  match new_items with
  | [] => mret moved_items
  | i :: rest =>
      node ← createTree_new i (id to_folder) to_index;
      _ ← bookmarks_setSelected [node] false;
      create_each rest to_folder (S to_index) (moved_items ++ [node])
  end.
End putItemsInFolder.

(** ** A browser that only records the commands it is given

    Used to observe which commands a call issues against a given store; the
    store itself stays as it is. *)

Definition issue (cs : list Command) (w : World) : World :=
  mkWorld (bookmarks w) (logged w) (reloads w) (commands w ++ cs).

Definition record (c : Command) : M unit := λ w, (issue [c] w, Returned tt).

Definition recorded_move (k toParent : NodeID) (toIndex : nat) : M unit :=
  record (CmdMove k toParent toIndex).

Definition recorded_create (title : string) (url : option string)
    (parentId : NodeID) (index : nat) : M Node :=
  _ ← record (CmdCreate title url parentId index);
  mret (mkNode "created" (Some parentId) index title None
          (match url with Some u => Bookmark u | None => Folder end)).

Definition recorded_setSelected (nodes : list Node) (isSelected : bool) : M unit :=
  record (CmdSetSelected (id <$> nodes) isSelected).

Definition recorded_closeTabs (tabIds : list nat) : M unit :=
  record (CmdCloseTabs tabIds).

Definition recorded_putItemsInFolder : PutOptions → M (list Node) :=
  putItemsInFolder recorded_move recorded_create recorded_setSelected
    recorded_closeTabs (λ _, false).

Definition is_move (c : Command) : bool :=
  match c with CmdMove _ _ _ => true | _ => false end.


End Model.

(** * More of the top-level model ([model/index.ts]) *)

Module ModelOps.
Import Bookmarks Model.

(** ** Tabs, as the functions below read them *)

(** A tab of the tab model: its identity, title and URL, the window it is
    in and the flags the model consults. *)
Record OpenTab := mkOpenTab {
  tab : Tab;
  windowId : nat;
  hidden : bool;
  pinned : bool;
  highlighted : bool;
  discarded : bool;
}.

Definition as_item (t : OpenTab) : StashItem := ITab (tab t).

(** The ids of the tabs among the items, in order: what the loop of
    [putItemsInFolder] collects in [close_tab_ids]
    ([if (isTab(item)) close_tab_ids.push(item.id)]). *)
Definition tab_ids (items : list StashItem) : list nat :=
  omap (λ i, match i with ITab t => Some (tab_id t) | _ => None end) items.

(** Is the item a separator of the bookmark model? *)
Definition is_separator (i : StashItem) : bool :=
  match i with INode n => Bookmarks.isSeparator n | _ => false end.

Definition is_closeTabs (c : Command) : bool :=
  match c with CmdCloseTabs _ => true | _ => false end.

(** A synchronous result, or the exception thrown, as the outcome of an
    asynchronous function. *)
Definition lift {A} (r : Exn + A) : M A :=
  match r with
  | inl e => throw e
  | inr a => mret a
  end.

(** [Array.prototype.filter] with a predicate that may throw: the predicate
    is called on the elements in order, and the first exception ends the
    call. *)
Fixpoint filterE {A} (p : A → Exn + bool) (l : list A) : Exn + list A :=
  match l with
  | [] => inr []
  | x :: rest =>
      match p x with
      | inl e => inl e
      | inr b =>
          match filterE p rest with
          | inl e => inl e
          | inr rest' => inr (if b then x :: rest' else rest')
          end
      end
  end.

(** ** What a call issues against the recording browser

    [emits bm P m Q]: run on a world whose bookmark model is [bm], the call
    [m] returns, the commands it has issued all satisfy [P], and what it
    returns satisfies [Q]. *)
Definition emits (bm : Store) (P : Command → Prop) {A} (m : M A)
    (Q : A → Prop) : Prop :=
  ∀ w, bookmarks w = bm →
       ∃ cs a, m w = (issue cs w, Returned a) ∧ Forall P cs ∧ Q a.

(** ** [stashableTabsInWindow] *)

Section stashableTabsInWindow.
(** What [isURLStashable] needs, and of the tab model [tabs.window] and
    [tabs.tabsIn]. *)
Variable isNewTabURL : string → bool.
Variable URL : Type.
Variable new_URL : string → Exn + URL.
Variable extension_base_url : string.
Variable Window : Type.
Variable tabs_window : nat → option Window.
Variable tabsIn : Window → list OpenTab.

(** [[
  stashableTabsInWindow(windowId: Tabs.WindowID): Tabs.Tab[] {
    const win = expect(
      this.tabs.window(windowId),
      () => `Trying to stash tabs to unknown window ${windowId}`,
    );
    const tabs = this.tabs.tabsIn(win).filter(t => !t.hidden);

    let selected = tabs.filter(t => t.highlighted);
    if (selected.length <= 1) {
      selected = tabs.filter(t => this.isURLStashable(t.url));
    }
    return selected.filter(t => !t.pinned);
  }
]] *)
Definition stashableTabsInWindow (windowId : nat) : Exn + list OpenTab :=
  match tabs_window windowId with
  | None =>
      inl (JsError ("Trying to stash tabs to unknown window " +:+ pretty windowId))
  | Some win =>
      let tabs := filter (λ t, hidden t = false) (tabsIn win) in
      let selected := filter (λ t, highlighted t = true) tabs in
      match
        (if decide (length selected ≤ 1)
         then filterE (λ t, isURLStashable isNewTabURL URL new_URL
                              extension_base_url (Some (tab_url (tab t))))
                tabs
         else inr selected)
      with
      | inl e => inl e
      | inr selected => inr (filter (λ t, pinned t = false) selected)
      end
  end.
End stashableTabsInWindow.

(** ** [copyIf] *)

(** [[
  copyIf(predicate: boolean, items: StashItem[]): StashItem[] {
    if (predicate) return this.copying(items);
    return items;
  }
]]
    [copying] reads the bookmark model; a recursion of [copying] that does
    not end makes the call diverge. *)
Definition copyIf (predicate : bool) (items : list StashItem)
    : M (list StashItem) :=
  if predicate then
    bm ← get_bookmarks;
    match copying bm items with
    | Some r => mret (INew <$> r)
    | None => diverge
    end
  else mret items.

(** ** [putSelectedIn] and [putSelectedInFolder] *)

Section putSelectedIn.
Variable bookmarks_move : NodeID → NodeID → nat → M unit.
Variable bookmarks_create : string → option string → NodeID → nat → M Node.
Variable bookmarks_setSelected : list Node → bool → M unit.
Variable hideOrCloseStashedTabs : list nat → M unit.
Variable is_selected : StashItem → bool.
(** The selected tabs and the selected bookmarks, as [tabs.selectedItems()]
    and [bookmarks.selectedItems()] yield them; [putItemsInWindow]; and the
    assignment [i.$selected = false]. *)
Variable selected_tabs : list Tab.
Variable selected_bookmarks : list Node.
Variable putItemsInWindow : list StashItem → M (list StashItem).
Variable deselect : StashItem → M unit.

(** [[
  *selectedItems(): Generator<ModelItem> {
    for (const item of this.tabs.selectedItems()) yield item;
    for (const item of this.bookmarks.selectedItems()) yield item;
  }
]] *)
Definition selectedItems : list StashItem :=
  (ITab <$> selected_tabs) ++ (INode <$> selected_bookmarks).

(** [for (const i of affected_items) if (isModelItem(i)) i.$selected = false;] *)
Fixpoint deselect_each (affected_items : list StashItem) : M unit :=
  match affected_items with
  | [] => mret tt
  | i :: rest =>
      _ ← (if isModelItem i then deselect i else mret tt);
      deselect_each rest
  end.

(** [[
  async putSelectedIn(options?: {copy?: boolean; toFolderId?: NodeID}) {
    const from_items = Array.from(this.selectedItems());
    const items = this.copyIf(options?.copy === true, from_items);

    let affected_items: StashItem[];
    if (options?.toFolderId === undefined) {
      affected_items = await this.putItemsInWindow({items});
    } else {
      affected_items = await this.putItemsInFolder({
        items,
        toFolderId: options.toFolderId,
        allowDuplicates: options?.copy === true,
      });
    }
    if (!options?.copy) {
      for (const i of affected_items) if (isModelItem(i)) i.$selected = false;
    }
  }
]] *)
Definition putSelectedIn (copy : option bool) (toFolderId : option NodeID)
    : M unit :=
  let copy_requested := bool_decide (copy = Some true) in
  let from_items := selectedItems in
  items ← copyIf copy_requested from_items;
  affected_items ←
    match toFolderId with
    | None => putItemsInWindow items
    | Some to =>
        nodes ← putItemsInFolder bookmarks_move bookmarks_create
                  bookmarks_setSelected hideOrCloseStashedTabs is_selected
                  (mkPutOptions items to None copy_requested);
        mret (INode <$> nodes)
    end;
  if copy_requested then mret tt else deselect_each affected_items.

(** [[
  async putSelectedInFolder(options: {copy: boolean; toFolderId: NodeID}) {
    await this.putSelectedIn(options);
  }
]] *)
Definition putSelectedInFolder (copy : bool) (toFolderId : NodeID) : M unit :=
  putSelectedIn (Some copy) (Some toFolderId).
End putSelectedIn.

(** ** [mostRecentUnnamedFolder] *)

Section mostRecentUnnamedFolder.
(** The name of the stash root, [Bookmarks.getDefaultFolderNameISODate],
    [Date.now()] and [options.sync.state.new_folder_timeout_min]. *)
Variable STASH_ROOT_NAME : string.
Variable getDefaultFolderNameISODate : string → option string.
Variable now : Z.
Variable new_folder_timeout_min : Z.

(** A string that is neither missing nor empty. *)
Definition truthy (x : option string) : bool :=
  match x with
  | Some (String _ _) => true
  | _ => false
  end.

(** [[
  mostRecentUnnamedFolder(): Bookmarks.Folder | undefined {
    const root = this.bookmarks.stash_root.value;
    if (!root) return undefined;

    const topmost =
      root.children && root.children[0] !== undefined
        ? this.bookmarks.node(root.children[0])
        : undefined;

    if (!topmost || !("children" in topmost)) return undefined;

    if (!Bookmarks.getDefaultFolderNameISODate(topmost.title)) return undefined;

    const age_cutoff =
      Date.now() - this.options.sync.state.new_folder_timeout_min * 60 * 1000;
    if (topmost.dateAdded! < age_cutoff) {
      return undefined;
    }
    return topmost;
  }
]]
    A missing [dateAdded] compares as not less than the cut-off. *)
Definition mostRecentUnnamedFolder (s : Store) : option Node :=
  match stash_root STASH_ROOT_NAME s with
  | None => None
  | Some root =>
      match children s (id root) !! 0 ≫= node s with
      | None => None
      | Some topmost =>
          if negb (Bookmarks.isFolder topmost) then None
          else if negb (truthy (getDefaultFolderNameISODate (title topmost)))
          then None
          else
            let age_cutoff := (now - new_folder_timeout_min * 60 * 1000)%Z in
            match dateAdded topmost with
            | Some added =>
                if (added <? age_cutoff)%Z then None else Some topmost
            | None => Some topmost
            end
      end
  end.
End mostRecentUnnamedFolder.

End ModelOps.

(** * Deleting bookmarks and tabs ([model/index.ts]) *)

Module Deleting.
Import Bookmarks Model ModelOps.

(** An entry of the deleted-items model: a bookmark with the icon it had (a
    [favIconUrl] key that may hold [undefined], or no such key), or a folder
    with its entries. *)
#[warnings="-register-all"]
Inductive DeletedItem :=
  | DeletedBookmark (title url : string) (favIconUrl : option (option string))
  | DeletedFolder (title : string) (children : list DeletedItem).

(** What the functions of this part ask of the other models:
    [deleted_items.add], [bookmarks.remove], [bookmarks.removeTree] and
    [tabs.remove]. *)
Inductive Action :=
  | ActAdd (item : DeletedItem) (deleted_from : option (NodeID * string))
      (deleted_at : option Z)
  | ActRemove (k : NodeID)
  | ActRemoveTree (k : NodeID)
  | ActRemoveTabs (ids : list nat).

(** The world of these functions: the bookmark model they read and the
    requests made so far. *)
Record Bin := mkBin {
  store : Store;
  actions : list Action;
}.

Definition Act (A : Type) : Type := Bin → Bin * Outcome A.

Global Instance Act_ret : MRet Act := λ A a w, (w, Returned a).

Global Instance Act_bind : MBind Act := λ A B k m w,
  match m w with
  | (w', Returned a) => k a w'
  | (w', Thrown e) => (w', Thrown e)
  | (w', Diverged) => (w', Diverged)
  end.

Definition get_store : Act Store := λ w, (w, Returned (store w)).

Definition never {A} : Act A := λ w, (w, Diverged).

(** [x || undefined] for a string that may be missing. *)
Definition or_undefined (x : option string) : option string :=
  match x with
  | Some (String _ _ as s) => Some s
  | _ => None
  end.

Section deleting.
(** [favicons.get(url).value?.favIconUrl], and the requests. *)
Variable favicon_of : string → option string.
Variable deleted_items_add :
  DeletedItem → option (NodeID * string) → option Z → Act unit.
Variable bookmarks_remove : NodeID → Act unit.
Variable bookmarks_removeTree : NodeID → Act unit.
Variable tabs_remove : list nat → Act unit.

(** [[
  const toDelItem = (item: Bookmarks.Node): DeletedItems.DeletedItem => {
    if ("children" in item)
      return {
        title: item.title,
        children: filterMap(
          item.children,
          i => i && this.bookmarks.node(i),
        ).map(i => toDelItem(i)),
      };

    if ("url" in item)
      return {
        title: item.title,
        url: item.url,
        favIconUrl:
          this.favicons.get(item.url!).value?.favIconUrl || undefined,
      };

    return {title: "", url: ""};
  };
]]
    The children of a folder are the ids in its by-parent sequence.  The
    recursion goes one level down per call and is bounded by [fuel]. *)
Fixpoint toDelItem_upto (fuel : nat) (s : Store) (item : Node)
    : option DeletedItem :=
  match fuel with
  | 0 => None
  | S f =>
      match payload item with
      | Folder =>
          kids ← mapM (toDelItem_upto f s)
                   (filterMap (children s (id item)) (λ i, node s i));
          Some (DeletedFolder (title item) kids)
      | Bookmark url =>
          Some (DeletedBookmark (title item) url
                  (Some (or_undefined (favicon_of url))))
      | Separator => Some (DeletedBookmark "" "" None)
      end
  end.

Definition toDelItem (s : Store) (item : Node) : option DeletedItem :=
  toDelItem_upto (size (by_id s) + 1) s item.

(** [[
  async deleteBookmarkTree(id: Bookmarks.NodeID, deleted_at?: Date) {
    const bm = this.bookmarks.node(id);
    if (!bm) return; // Already deleted?
    const toDelItem = ...;
    await this.deleted_items.add(toDelItem(bm), undefined, deleted_at);
    await this.bookmarks.removeTree(bm.id);
  }
]] *)
Definition deleteBookmarkTree (k : NodeID) (deleted_at : option Z) : Act unit :=
  s ← get_store;
  match node s k with
  | None => mret tt
  | Some bm =>
      match toDelItem s bm with
      | None => never
      | Some item =>
          _ ← deleted_items_add item None deleted_at;
          bookmarks_removeTree (id bm)
      end
  end.

(** [[
  async deleteBookmark(bm: Bookmarks.Bookmark, deleted_at?: Date) {
    const parent = this.bookmarks.folder(bm.parentId!);

    await this.deleted_items.add(
      {
        title: bm.title ?? "<no title>",
        url: bm.url ?? "about:blank",
        favIconUrl: this.favicons.get(bm.url!)?.value?.favIconUrl || undefined,
      },
      parent
        ? {
            folder_id: parent.id,
            title: parent.title!,
          }
        : undefined,
      deleted_at,
    );

    await this.bookmarks.remove(bm.id);
  }
]]
    The argument is a bookmark; for a node without a URL, which the type
    excludes, the entry takes the fallback URL and no icon. *)
Definition deleteBookmark (bm : Node) (deleted_at : option Z) : Act unit :=
  s ← get_store;
  let parent := parentId bm ≫= folder s in
  _ ← deleted_items_add
        (match payload bm with
         | Bookmark url =>
             DeletedBookmark (title bm) url (Some (or_undefined (favicon_of url)))
         | _ => DeletedBookmark (title bm) "about:blank" (Some None)
         end)
        ((λ p, (id p, title p)) <$> parent)
        deleted_at;
  bookmarks_remove (id bm).

(** The loop of [deleteItems]; [tabs] collects the ids that are numbers. *)
Fixpoint delete_each (now : Z) (ids : list (NodeID + nat)) (tabs : list nat)
    : Act (list nat) :=
  match ids with
  | [] => mret tabs
  | inl k :: rest =>
      s ← get_store;
      match node s k with
      | None => delete_each now rest tabs
      | Some n =>
          _ ← match payload n with
              | Folder => deleteBookmarkTree k (Some now)
              | Bookmark _ => deleteBookmark n (Some now)
              | Separator => bookmarks_remove k
              end;
          delete_each now rest tabs
      end
  | inr t :: rest => delete_each now rest (tabs ++ [t])
  end.

(** [[
  async deleteItems(ids: Iterable<Bookmarks.NodeID | Tabs.TabID>) {
    const now = new Date();
    const tabs = [];
    for (const id of ids) {
      if (typeof id === "string") {
        // It's a bookmark
        const node = this.bookmarks.node(id);
        if (!node) continue;

        if ("children" in node) {
          await this.deleteBookmarkTree(id, now);
        } else if ("url" in node) {
          await this.deleteBookmark(node, now);
        } else {
          // separator
          await this.bookmarks.remove(id);
        }
      } else {
        tabs.push(id);
      }
    }

    await this.tabs.remove(tabs);
  }
]]
    [now] is the reading of the clock when the call starts. *)
Definition deleteItems (now : Z) (ids : list (NodeID + nat)) : Act unit :=
  tabs ← delete_each now ids [];
  tabs_remove tabs.
End deleting.

(** ** The models that only take note of what they are asked *)

Definition request (a : Action) : Act unit :=
  λ w, (mkBin (store w) (actions w ++ [a]), Returned tt).

Definition noted_deleteItems (favicon_of : string → option string)
    : Z → list (NodeID + nat) → Act unit :=
  deleteItems favicon_of
    (λ item from at', request (ActAdd item from at'))
    (λ k, request (ActRemove k))
    (λ k, request (ActRemoveTree k))
    (λ ids, request (ActRemoveTabs ids)).

(** A deleted item seen as the stash item that [undelete] hands to
    [putItemsInFolder]: its title and URL, or its title and children. *)
Fixpoint as_new_item (d : DeletedItem) : NewItem :=
  match d with
  | DeletedBookmark t u _ => NewTab (Some t) u
  | DeletedFolder t kids => NewFolder t (as_new_item <$> kids)
  end.

(** The numbers among the ids, in order. *)
Definition tab_ids_of (ids : list (NodeID + nat)) : list nat :=
  omap (λ i, match i with inr t => Some t | inl _ => None end) ids.

Definition is_removeTabs (a : Action) : bool :=
  match a with ActRemoveTabs _ => true | _ => false end.

(** The time an entry was added with, if the action adds one. *)
Definition added_at (a : Action) : option (option Z) :=
  match a with ActAdd _ _ d => Some d | _ => None end.

End Deleting.

(** * The folder view ([stash-list/folder.vue]) *)

Module FolderVue.
Import Bookmarks Model ModelOps.

(** What [childTabStats] returns: [{open, discarded, hidden}]. *)
Record TabStats := mkTabStats {
  n_open : nat;
  n_discarded : nat;
  n_hidden : nat;
}.

Section folder.
(** The component's folder ([this.folder.unfiltered]) and the unfiltered
    nodes of its children ([this.folder.children]); of the model,
    [tabs.targetWindow.value], [tabs.tabsWithURL] and the [$selected] flag of
    a bookmark node. *)
Variable this_folder : Node.
Variable folder_children : list Node.
Variable targetWindow : option nat.
Variable tabsWithURL : string → list OpenTab.
Variable selected : Node → bool.

(** [[
  childrenWithTabs(): readonly NodeWithTabs[] {
    const tab_model = this.model().tabs;
    return this.folder.children.map(n => ({
      node: n,
      tabs:
        "url" in n.unfiltered && n.unfiltered.url
          ? Array.from(tab_model.tabsWithURL(n.unfiltered.url)).filter(
              t => t.windowId === this.targetWindow,
            )
          : [],
    }));
  },
]] *)
Definition childrenWithTabs : list (Node * list OpenTab) :=
  (λ n, (n, match payload n with
            | Bookmark (String _ _ as url) =>
                filter (λ t, Some (windowId t) = targetWindow) (tabsWithURL url)
            | _ => []
            end)) <$> folder_children.

(** The body of the inner loop of [childTabStats]. *)
Definition count_tab (st : TabStats) (t : OpenTab) : TabStats :=
  if negb (bool_decide (Some (windowId t) = targetWindow)) then st
  else if hidden t then mkTabStats (n_open st) (n_discarded st) (n_hidden st + 1)
  else if discarded t then mkTabStats (n_open st) (n_discarded st + 1) (n_hidden st)
  else mkTabStats (n_open st + 1) (n_discarded st) (n_hidden st).

(** [[
  childTabStats(): {open: number; discarded: number; hidden: number} {
    let open = 0, discarded = 0, hidden = 0;
    for (const nwt of this.childrenWithTabs) {
      for (const tab of nwt.tabs) {
        if (tab.windowId !== this.targetWindow) {
          continue;
        }
        if (tab.hidden) {
          hidden += 1;
        } else if (tab.discarded) {
          discarded += 1;
        } else {
          open += 1;
        }
      }
    }
    return {open, discarded, hidden};
  },
]] *)
Definition childTabStats : TabStats :=
  foldl (λ st nwt, foldl count_tab st nwt.2) (mkTabStats 0 0 0) childrenWithTabs.

(** [openTabsCount(): return this.childTabStats.open + this.childTabStats.discarded] *)
Definition openTabsCount : nat :=
  n_open childTabStats + n_discarded childTabStats.

(** The loop of [canMoveIntoFolder], bounded by [fuel]. *)
Fixpoint canMoveIntoFolder_upto (fuel : nat) (bm : Store) (f : option Node)
    : option bool :=
  match fuel with
  | 0 => None
  | S fuel' =>
      match f with
      | None => Some true
      | Some f =>
          if selected f then Some false
          else canMoveIntoFolder_upto fuel' bm (parentId f ≫= folder bm)
      end
  end.

(** [[
  canMoveIntoFolder(): boolean {
    let f: Folder | undefined = this.folder.unfiltered;
    while (f) {
      if (f.$selected) return false;
      f = this.model().bookmarks.folder(f.parentId);
    }
    return true;
  },
]]
    The loop climbs one level per round and so makes no more rounds than
    there are stored nodes, plus the one for the folder itself; [None] stands
    for a loop that does not end. *)
Definition canMoveIntoFolder (bm : Store) : option bool :=
  canMoveIntoFolder_upto (size (by_id bm) + 2) bm (Some this_folder).

Section commands.
Variable bookmarks_move : NodeID → NodeID → nat → M unit.
Variable bookmarks_create : string → option string → NodeID → nat → M Node.
Variable bookmarks_setSelected : list Node → bool → M unit.
Variable hideOrCloseStashedTabs : list nat → M unit.
Variable is_selected : StashItem → bool.
(** What [stashableTabsInWindow] reads. *)
Variable isNewTabURL : string → bool.
Variable URL : Type.
Variable new_URL : string → Exn + URL.
Variable extension_base_url : string.
Variable Window : Type.
Variable tabs_window : nat → option Window.
Variable tabsIn : Window → list OpenTab.

(** The function [stash] hands to [attempt]. *)
Definition stash_task (altKey : bool) (win_id : nat) : M (list Node) :=
  tabs ← lift (stashableTabsInWindow isNewTabURL URL new_URL extension_base_url
                 Window tabs_window tabsIn win_id);
  items ← copyIf altKey (as_item <$> tabs);
  putItemsInFolder bookmarks_move bookmarks_create bookmarks_setSelected
    hideOrCloseStashedTabs is_selected
    (mkPutOptions items (id this_folder) None false).

(** [[
  stash(ev: MouseEvent | KeyboardEvent) {
    const model = this.model();
    const win_id = model.tabs.targetWindow.value;
    if (!win_id) return;

    model.attempt(
      async () =>
        await model.putItemsInFolder({
          items: model.copyIf(ev.altKey, model.stashableTabsInWindow(win_id)),
          toFolderId: this.folder.unfiltered.id,
        }),
    );
  },
]]
    [!win_id] holds for a missing window id and for the id 0.  The promise
    of [attempt] is neither awaited nor returned. *)
Definition stash (altKey : bool) : M unit :=
  match targetWindow with
  | None => mret tt
  | Some 0 => mret tt
  | Some win_id => not_awaited (attempt (stash_task altKey win_id))
  end.

(** [[
  closeStashedTabs() {
    return this.attempt(async () => {
      const model = this.model();
      const openTabs = this.childrenWithTabs
        .flatMap(c => c.tabs)
        .filter(t => !t.hidden && !t.pinned);
      await model.hideOrCloseStashedTabs(openTabs.map(t => t.id));
    });
  },
]] *)
Definition closeStashedTabs : M unit :=
  attempt (
    let openTabs :=
      filter (λ t, hidden t = false ∧ pinned t = false)
        (childrenWithTabs ≫= snd) in
    hideOrCloseStashedTabs ((λ t, tab_id (tab t)) <$> openTabs)).

(** [[
  async drop(ev: DropAction) {
    const data = ev.dataTransfer.getData("application/x-tab-stash-items");
    const items = JSON.parse(data) as StashItem[];

    const model = this.model();
    await model.attempt(() =>
      this.model().putItemsInFolder({
        items,
        toFolderId: this.folder.unfiltered.id,
        toIndex: ev.toIndex,
      }),
    );
  },
]]
    [items] is what [JSON.parse] has made of the data dropped. *)
Definition drop (items : list StashItem) (toIndex : option nat)
    : M (list Node) :=
  attempt (
    putItemsInFolder bookmarks_move bookmarks_create bookmarks_setSelected
      hideOrCloseStashedTabs is_selected
      (mkPutOptions items (id this_folder) toIndex false)).

(** [[
  moveSelfToTopLevel() {
    this.attempt(async () => {
      const model = this.model().bookmarks;
      const root = model.stash_root.value!;

      // We put it directly above its parent in the stash root, so it's easy
      // to find and continue interacting with.
      const rootPos = model
        .pathTo(this.folder.unfiltered)
        .find(p => p.parent === root);

      await model.move(
        this.folder.unfiltered.id,
        root.id,
        rootPos?.index ?? 0,
      );
    });
  },
]]
    [root] is the stash root, which the source takes to be there.  The
    promise of [attempt] is dropped. *)
Definition moveSelfToTopLevel (root : Node) : M unit :=
  not_awaited (attempt (
    bm ← get_bookmarks;
    match pathTo bm this_folder with
    | None => diverge
    | Some path =>
        let rootPos := head (filter (λ p, parent p = root) path) in
        bookmarks_move (id this_folder) (id root)
          (default 0 (pos_index <$> rootPos))
    end)).
End commands.
End folder.

End FolderVue.

(** * A window with a few tabs, to run the functions on *)

Module Sample.
Import Model ModelOps.

Definition a_tab (k : nat) (url : string) (hidden pinned highlighted : bool)
    : OpenTab :=
  mkOpenTab (mkTab k (Some "A tab") url) 1 hidden pinned highlighted false.

Definition window_1 : list OpenTab :=
  [ a_tab 1 "http://example.com/#patricia" false true true;
    a_tab 2 "about:newtab" false false false;
    a_tab 3 "http://example.com/#alice" false false true;
    a_tab 4 "http://example.com/#helen" true false false;
    a_tab 5 "http://example.com/#bob" false false false ].

Definition tabs_window (n : nat) : option (list OpenTab) :=
  if decide (n = 1) then Some window_1 else None.

Definition tabsIn (win : list OpenTab) : list OpenTab := win.

Definition tabsWithURL (u : string) : list OpenTab :=
  filter (λ t, tab_url (tab t) = u) window_1.

Definition isNewTabURL (u : string) : bool := bool_decide (u = "about:newtab").

Definition new_URL (u : string) : Exn + string := inr u.

Definition extension_base_url : string := "moz-extension://tab-stash/".

End Sample.

(** * Facts about the indexed tree store *)

Section insert_at_facts.
Context {A : Type}.
Implicit Types (l : list A) (x : A).

Lemma length_insert_at i x l : length (insert_at i x l) = S (length l).
Proof.
  unfold insert_at. rewrite length_app. simpl.
  rewrite length_take, length_drop. lia.
Qed.

Lemma lookup_insert_at_lt i j x l :
  j < i → i ≤ length l → insert_at i x l !! j = l !! j.
Proof.
  intros Hj Hi. unfold insert_at.
  rewrite lookup_app_l by (rewrite length_take; lia).
  by rewrite lookup_take_lt.
Qed.

Lemma lookup_insert_at_eq i x l :
  i ≤ length l → insert_at i x l !! i = Some x.
Proof.
  intros Hi. unfold insert_at.
  rewrite lookup_app_r by (rewrite length_take; lia).
  rewrite length_take. by replace (i - i `min` length l) with 0 by lia.
Qed.

Lemma lookup_insert_at_gt i j x l :
  i ≤ j → i ≤ length l → insert_at i x l !! S j = l !! j.
Proof.
  intros Hj Hi. unfold insert_at.
  rewrite lookup_app_r by (rewrite length_take; lia).
  rewrite length_take.
  replace (S j - i `min` length l) with (S (j - i)) by lia. simpl.
  rewrite lookup_drop. f_equal. lia.
Qed.

Lemma lookup_insert_at_Some i j x y l :
  i ≤ length l → insert_at i x l !! j = Some y →
  (j < i ∧ l !! j = Some y) ∨ (j = i ∧ y = x) ∨
  (∃ j', j = S j' ∧ i ≤ j' ∧ l !! j' = Some y).
Proof.
  intros Hi Hj. destruct (decide (j < i)) as [Hlt|Hge].
  - left. by rewrite lookup_insert_at_lt in Hj.
  - right. destruct (decide (j = i)) as [->|Hne].
    + left. rewrite lookup_insert_at_eq in Hj by done. naive_solver.
    + right. destruct j as [|j']; [lia|]. exists j'.
      rewrite lookup_insert_at_gt in Hj by lia. split_and!; [done|lia|done].
Qed.
End insert_at_facts.

Section store_facts.
Import Bookmarks.
Implicit Types (s : Store) (k p x : NodeID) (n : Node).

Lemma lookup_shift_siblings f p from (m : gmap NodeID Node) x :
  shift_siblings f p from m !! x =
  (λ n, if decide (parentId n = Some p ∧ from ≤ index n)
        then with_index (f (index n)) n else n) <$> m !! x.
Proof. unfold shift_siblings. by rewrite lookup_fmap. Qed.

Lemma lookup_shift_siblings_Some f p from (m : gmap NodeID Node) x n' :
  shift_siblings f p from m !! x = Some n' →
  ∃ n, m !! x = Some n ∧ id n' = id n ∧ parentId n' = parentId n ∧
       payload n' = payload n ∧ title n' = title n ∧
       ((parentId n = Some p ∧ from ≤ index n ∧ index n' = f (index n)) ∨
        (¬ (parentId n = Some p ∧ from ≤ index n) ∧ n' = n)).
Proof.
  rewrite lookup_shift_siblings. destruct (m !! x) as [n|]; [|done].
  simpl. intros Heq. injection Heq as <-. exists n.
  destruct (decide (parentId n = Some p ∧ from ≤ index n)) as [[H1 H2]|Hno];
    simpl; split_and!; try done; [by left|by right].
Qed.

Lemma parentId_shift_siblings f p from (m : gmap NodeID Node) x :
  parentId <$> shift_siblings f p from m !! x = parentId <$> m !! x.
Proof.
  rewrite lookup_shift_siblings. destruct (m !! x); [|done].
  simpl. by case_decide.
Qed.

Lemma payload_shift_siblings f p from (m : gmap NodeID Node) x :
  payload <$> shift_siblings f p from m !! x = payload <$> m !! x.
Proof.
  rewrite lookup_shift_siblings. destruct (m !! x); [|done].
  simpl. by case_decide.
Qed.

(** ** Depth and ancestors *)

Lemma Depth_ext s s' :
  (∀ x, parent_of s' x = parent_of s x) →
  ∀ x d, Depth s x d → Depth s' x d.
Proof.
  intros Hext x d. induction 1 as [k Hk|k p d Hk _ IH].
  - apply Depth_top. by rewrite Hext.
  - eapply Depth_child; [by rewrite Hext|done].
Qed.

Lemma Depth_functional s x d1 d2 : Depth s x d1 → Depth s x d2 → d1 = d2.
Proof.
  intros H1. revert d2. induction H1 as [k Hk|k p d Hk _ IH]; intros d2 H2.
  - inversion H2; congruence.
  - inversion H2 as [|? p' d' Hk' Hp']; subst; [congruence|].
    f_equal. apply IH. congruence.
Qed.

Lemma Anc_depth s a x dx :
  Anc s a x → Depth s x dx → ∃ da, Depth s a da ∧ da < dx.
Proof.
  intros Ha. revert dx. induction Ha as [k Hk|k p Hk _ IH]; intros dx Hd.
  - inversion Hd as [|? p' d' Hk' Hp']; subst; [congruence|].
    exists d'. split; [congruence|lia].
  - inversion Hd as [|? p' d' Hk' Hp']; subst; [congruence|].
    assert (p' = p) as -> by congruence.
    destruct (IH _ Hp') as (da & ? & ?). exists da. split; [done|lia].
Qed.

Lemma Anc_irrefl s x d : Depth s x d → ¬ Anc s x x.
Proof.
  intros Hd Ha. destruct (Anc_depth _ _ _ _ Ha Hd) as (da & Hda & Hlt).
  pose proof (Depth_functional _ _ _ _ Hd Hda). lia.
Qed.

Lemma Anc_trans_parent s a x p :
  parent_of s x = Some (Some p) → (a = p ∨ Anc s a p) → Anc s a x.
Proof.
  intros Hx [->|Ha]; [by apply Anc_parent|by eapply Anc_step].
Qed.

Lemma Anc_inv s a x :
  Anc s a x → ∃ p, parent_of s x = Some (Some p) ∧ (a = p ∨ Anc s a p).
Proof. destruct 1; eauto. Qed.

(** A chain of ancestors holds pairwise different stored nodes, so its
    length is bounded by the size of the by-id index. *)
Lemma Depth_chain s x d :
  Depth s x d →
  ∃ l : list NodeID, length l = S d ∧ NoDup l ∧
    ∀ y, y ∈ l → ∃ dy, dy ≤ d ∧ Depth s y dy.
Proof.
  induction 1 as [k Hk|k p d Hk Hp (l & Hlen & Hnd & Hl)].
  - exists [k]. split_and!; [done|apply NoDup_singleton|].
    intros y ->%list_elem_of_singleton. exists 0. split; [lia|by apply Depth_top].
  - exists (k :: l). split_and!.
    + simpl. by rewrite Hlen.
    + apply NoDup_cons. split; [|done]. intros (dy & Hle & Hdy)%Hl.
      assert (Depth s k (S d)) as Hdk by (by eapply Depth_child).
      pose proof (Depth_functional _ _ _ _ Hdy Hdk). lia.
    + intros y [->|Hy]%elem_of_cons.
      * exists (S d). split; [lia|by eapply Depth_child].
      * destruct (Hl _ Hy) as (dy & ? & ?). exists dy. split; [lia|done].
Qed.

Lemma Depth_stored s x d : Depth s x d → is_Some (by_id s !! x).
Proof.
  destruct 1 as [k Hk|k p d Hk _]; unfold parent_of in Hk;
    by destruct (by_id s !! k).
Qed.

Lemma Depth_lt_size s x d : Depth s x d → d < size (by_id s).
Proof.
  intros (l & Hlen & Hnd & Hl)%Depth_chain.
  assert (list_to_set l ⊆ dom (by_id s)) as Hsub.
  { intros y Hy%elem_of_list_to_set. apply elem_of_dom.
    destruct (Hl _ Hy) as (dy & _ & Hdy). by eapply Depth_stored. }
  apply subseteq_size in Hsub.
  rewrite size_list_to_set, size_dom in Hsub by done. lia.
Qed.

(** ** Taking a node out of its parent's children *)

Lemma detach_unfold s old p0 :
  parentId old = Some p0 →
  detach s old =
  mkStore (root s) (shift_siblings Nat.pred p0 (S (index old)) (by_id s))
    (alter (delete (index old)) p0 (by_parent s)) (by_url s).
Proof. unfold detach. by intros ->. Qed.

Lemma detach_parent_of s old x :
  parent_of (detach s old) x = parent_of s x.
Proof.
  unfold detach, parent_of. destruct (parentId old); [|done].
  simpl. apply parentId_shift_siblings.
Qed.

Lemma detach_payload s old x :
  payload <$> by_id (detach s old) !! x = payload <$> by_id s !! x.
Proof.
  unfold detach. destruct (parentId old); [|done].
  simpl. apply payload_shift_siblings.
Qed.

Lemma detach_by_url s old : by_url (detach s old) = by_url s.
Proof. unfold detach. by destruct (parentId old). Qed.

Lemma detach_root s old : root (detach s old) = root s.
Proof. unfold detach. by destruct (parentId old). Qed.

Lemma detach_by_parent_is_Some s old p :
  is_Some (by_parent (detach s old) !! p) ↔ is_Some (by_parent s !! p).
Proof.
  unfold detach. destruct (parentId old); [|done].
  simpl. apply lookup_alter_is_Some.
Qed.

Lemma detach_self s k old :
  by_id s !! k = Some old → by_id (detach s old) !! k = Some old.
Proof.
  intros Hk. unfold detach. destruct (parentId old) as [p0|]; [|done].
  simpl. rewrite lookup_shift_siblings, Hk. simpl.
  destruct (decide _) as [[_ ?]|]; [lia|done].
Qed.

Lemma detach_loose s k old p0 :
  tree_ok s → by_id s !! k = Some old → parentId old = Some p0 →
  loose (detach s old) k.
Proof.
  intros Hok Hk Hp0.
  destruct (t_up _ Hok _ _ _ Hk Hp0) as (cs0 & Hcs0 & Hk0).
  rewrite (detach_unfold _ _ _ Hp0). split; simpl.
  - intros x n' (n & Hn & Hid & _)%lookup_shift_siblings_Some.
    rewrite Hid. by eapply t_id.
  - intros x n' (n & Hn & _ & Hpar & _)%lookup_shift_siblings_Some _.
    rewrite Hpar. by eapply t_root.
  - rewrite lookup_shift_siblings. destruct (t_root_in _ Hok) as [r ->]. by eexists.
  - intros ->. apply (t_root _ Hok) in Hk. destruct Hk as [_ Hk].
    rewrite Hk in Hp0; done.
  - intros x n' p (n & Hn & _ & Hpar & _ & _ & Hsh)%lookup_shift_siblings_Some
      Hx Hp. rewrite Hpar in Hp.
    destruct (t_up _ Hok _ _ _ Hn Hp) as (cs & Hcs & Hxi).
    destruct (decide (p = p0)) as [->|Hne].
    + assert (cs = cs0) as -> by congruence.
      exists (delete (index old) cs0). rewrite lookup_alter_eq, Hcs0.
      split; [done|].
      assert (index n ≠ index old) as Hi by (intros Heq; rewrite Heq in Hxi; congruence).
      destruct Hsh as [(_ & Hge & ->)|[Hno ->]].
      * rewrite list_lookup_delete_ge by lia.
        by replace (S (Nat.pred (index n))) with (index n) by lia.
      * rewrite list_lookup_delete_lt; [done|].
        destruct (decide (S (index old) ≤ index n)); [naive_solver|lia].
    + exists cs. rewrite lookup_alter_ne by done. split; [done|].
      destruct Hsh as [(Hp' & _)|[_ ->]]; [congruence|done].
  - intros p cs' i x Hcs' Hx.
    destruct (decide (p = p0)) as [->|Hne].
    + rewrite lookup_alter_eq, Hcs0 in Hcs'. simpl in Hcs'.
      injection Hcs' as <-. rewrite list_lookup_delete in Hx.
      case_decide as Hlt.
      * destruct (t_down _ Hok _ _ _ _ Hcs0 Hx) as (n & Hn & Hpn & Hin).
        split; [intros ->; assert (n = old) by congruence; subst; lia|].
        exists n. rewrite lookup_shift_siblings, Hn. simpl.
        destruct (decide _) as [[_ ?]|]; [lia|done].
      * destruct (t_down _ Hok _ _ _ _ Hcs0 Hx) as (n & Hn & Hpn & Hin).
        split; [intros ->; assert (n = old) by congruence; subst; lia|].
        exists (with_index i n). rewrite lookup_shift_siblings, Hn. simpl.
        destruct (decide _) as [_|Hno]; [|exfalso; apply Hno; split; [done|lia]].
        rewrite Hin. done.
    + rewrite lookup_alter_ne in Hcs' by done.
      destruct (t_down _ Hok _ _ _ _ Hcs' Hx) as (n & Hn & Hpn & Hin).
      split; [intros ->; congruence|].
      exists n. rewrite lookup_shift_siblings, Hn. simpl.
      destruct (decide _) as [[? _]|]; [congruence|done].
  - intros p _. rewrite lookup_alter_is_Some, (t_folder _ Hok).
    split.
    + intros (n & Hn & Hf).
      pose proof (payload_shift_siblings Nat.pred p0 (S (index old)) (by_id s) p) as Hpl.
      rewrite Hn in Hpl. simpl in Hpl.
      destruct (shift_siblings _ _ _ _ !! p) as [n'|]; [|done].
      exists n'. split; [done|]. simpl in Hpl. congruence.
    + intros (n' & (n & Hn & _ & _ & Hpl & _)%lookup_shift_siblings_Some & Hf).
      exists n. split; [done|congruence].
Qed.

(** ** Putting a node into a children sequence *)

Lemma Anc_ext s s' a :
  (∀ x, parent_of s' x = parent_of s x) → ∀ x, Anc s a x → Anc s' a x.
Proof.
  intros Hext x. induction 1 as [x Hx|x q Hx _ IH].
  - apply Anc_parent. by rewrite Hext.
  - eapply Anc_step; [by rewrite Hext|done].
Qed.

Lemma Depth_reparent_avoid s s' k :
  (∀ x, x ≠ k → parent_of s' x = parent_of s x) →
  ∀ x d, Depth s x d → x ≠ k → ¬ Anc s k x → Depth s' x d.
Proof.
  intros Hext x d. induction 1 as [x Hx|x q d Hx Hq IH]; intros Hne Hna.
  - apply Depth_top. by rewrite Hext.
  - eapply Depth_child; [by rewrite Hext|]. apply IH.
    + intros ->. apply Hna. by apply Anc_parent.
    + intros Ha. apply Hna. by eapply Anc_step.
Qed.

Lemma Depth_reparent s s' k p :
  (∀ x, x ≠ k → parent_of s' x = parent_of s x) →
  parent_of s' k = Some (Some p) →
  p ≠ k → ¬ Anc s k p → (∃ dp, Depth s p dp) →
  ∀ x d, Depth s x d → ∃ d', Depth s' x d'.
Proof.
  intros Hext Hk Hne Hna [dp Hdp].
  assert (Depth s' p dp) as Hdp' by (by eapply Depth_reparent_avoid).
  intros x d. induction 1 as [x Hx|x q d Hx Hq [d' IH]].
  - destruct (decide (x = k)) as [->|Hxk].
    + exists (S dp). by eapply Depth_child.
    + exists 0. apply Depth_top. by rewrite Hext.
  - destruct (decide (x = k)) as [->|Hxk].
    + exists (S dp). by eapply Depth_child.
    + exists (S d'). eapply Depth_child; [by rewrite Hext|done].
Qed.

Lemma attach_parent_of_ne s n p i x :
  x ≠ id n → parent_of (attach s n p i) x = parent_of s x.
Proof.
  intros Hne. unfold parent_of, attach. simpl.
  rewrite lookup_insert_ne by done. apply parentId_shift_siblings.
Qed.

Lemma attach_parent_of_eq s n p i :
  parent_of (attach s n p i) (id n) = Some (Some p).
Proof. unfold parent_of, attach. simpl. by rewrite lookup_insert_eq. Qed.

Lemma attach_payload s n p i x :
  payload <$> by_id (attach s n p i) !! x =
  payload <$> <[id n := n]> (by_id s) !! x.
Proof.
  unfold attach. simpl. destruct (decide (id n = x)) as [<-|Hne].
  - by rewrite !lookup_insert_eq.
  - rewrite !lookup_insert_ne by done. apply payload_shift_siblings.
Qed.

Lemma attach_tree_ok s n k p cs i :
  loose s k → id n = k →
  by_parent s !! p = Some cs → i ≤ length cs →
  p ≠ k →
  (is_Some (by_parent s !! k) ↔ payload n = Folder) →
  (∀ x, is_Some (by_id s !! x) → ∃ d, Depth s x d) →
  ¬ Anc s k p →
  tree_ok (attach s n p i).
Proof.
  intros Hl Hid Hcs Hi Hpk Hfk Hdep Hna. subst k.
  assert (by_parent (attach s n p i) !! p = Some (insert_at i (id n) cs)) as Hcs'.
  { unfold attach. simpl. by rewrite lookup_alter_eq, Hcs. }
  split.
  - intros x n'. unfold attach. simpl.
    intros [[<- <-]|[Hne Hx]]%lookup_insert_Some; [done|].
    apply lookup_shift_siblings_Some in Hx as (n0 & Hn0 & Hid0 & _).
    rewrite Hid0. by eapply l_id.
  - intros x n'. unfold attach. simpl.
    intros [[<- <-]|[Hne Hx]]%lookup_insert_Some.
    + simpl. split; [done|]. intros Hr. by destruct (l_not_root _ _ Hl).
    + apply lookup_shift_siblings_Some in Hx as (n0 & Hn0 & _ & Hpar & _).
      rewrite Hpar. eapply l_root; [done..|congruence].
  - unfold attach. simpl.
    rewrite lookup_insert_ne by (by apply (l_not_root _ _ Hl)).
    rewrite lookup_shift_siblings. destruct (l_root_in _ _ Hl) as [r ->].
    by eexists.
  - intros x n' q. unfold attach at 1. simpl.
    intros [[<- <-]|[Hne Hx]]%lookup_insert_Some Hq.
    + simpl in *. injection Hq as <-. exists (insert_at i (id n) cs).
      split; [done|]. by apply lookup_insert_at_eq.
    + apply lookup_shift_siblings_Some in Hx
        as (n0 & Hn0 & _ & Hpar & _ & _ & Hsh).
      rewrite Hpar in Hq.
      destruct (l_up _ _ Hl _ _ _ Hn0 (not_eq_sym Hne) Hq) as (cs1 & Hcs1 & Hx1).
      destruct (decide (q = p)) as [->|Hqp].
      * assert (cs1 = cs) as -> by congruence.
        exists (insert_at i (id n) cs). split; [done|].
        destruct Hsh as [(_ & Hge & ->)|[Hno ->]].
        -- by rewrite lookup_insert_at_gt.
        -- rewrite lookup_insert_at_lt; [done| |done].
           destruct (decide (i ≤ index n0)); [|lia].
           exfalso. by apply Hno.
      * exists cs1. unfold attach. simpl. rewrite lookup_alter_ne by done.
        split; [done|].
        destruct Hsh as [(Hp' & _)|[_ ->]]; [congruence|done].
  - intros q cs' j x Hq Hx. destruct (decide (q = p)) as [->|Hqp].
    + assert (cs' = insert_at i (id n) cs) as -> by congruence.
      apply lookup_insert_at_Some in Hx
        as [[Hlt Hx]|[[-> ->]|(j' & -> & Hge & Hx)]]; [| | |done].
      * destruct (l_down _ _ Hl _ _ _ _ Hcs Hx) as (Hne & n0 & Hn0 & Hp0 & Hi0).
        exists n0. unfold attach. simpl.
        rewrite lookup_insert_ne by done.
        rewrite lookup_shift_siblings, Hn0. simpl.
        destruct (decide _) as [[_ ?]|]; [lia|done].
      * exists (with_position (Some p) i n). unfold attach. simpl.
        by rewrite lookup_insert_eq.
      * destruct (l_down _ _ Hl _ _ _ _ Hcs Hx) as (Hne & n0 & Hn0 & Hp0 & Hi0).
        exists (with_index (S j') n0). unfold attach. simpl.
        rewrite lookup_insert_ne by done.
        rewrite lookup_shift_siblings, Hn0. simpl.
        destruct (decide _) as [_|Hno]; [|exfalso; apply Hno; split; [done|lia]].
        by rewrite Hi0.
    + unfold attach in Hq. simpl in Hq. rewrite lookup_alter_ne in Hq by done.
      destruct (l_down _ _ Hl _ _ _ _ Hq Hx) as (Hne & n0 & Hn0 & Hp0 & Hi0).
      exists n0. unfold attach. simpl.
      rewrite lookup_insert_ne by done.
      rewrite lookup_shift_siblings, Hn0. simpl.
      destruct (decide _) as [[? _]|]; [congruence|done].
  - intros q.
    assert (is_Some (by_parent (attach s n p i) !! q) ↔ is_Some (by_parent s !! q))
      as -> by (unfold attach; simpl; apply lookup_alter_is_Some).
    pose proof (attach_payload s n p i q) as Hpl.
    destruct (decide (q = id n)) as [->|Hne].
    + rewrite Hfk. rewrite lookup_insert_eq in Hpl.
      destruct (by_id (attach s n p i) !! id n) as [n'|]; simpl in Hpl; [|done].
      split.
      * intros Hf. exists n'. split; [done|congruence].
      * intros (? & [= <-] & ?). congruence.
    + rewrite (l_folder _ _ Hl) by done.
      rewrite lookup_insert_ne in Hpl by done.
      destruct (by_id (attach s n p i) !! q) as [n'|],
               (by_id s !! q) as [n0|]; simpl in Hpl; try done.
      split; intros (? & [= <-] & ?); eexists; (split; [done|congruence]).
  - intros x Hx.
    assert (∃ dp, Depth s p dp) as Hdp.
    { apply Hdep. apply (l_folder _ _ Hl) in Hpk.
      destruct Hpk as [Hpk _]. destruct (Hpk (mk_is_Some _ _ Hcs)) as (? & ? & _).
      by eexists. }
    destruct (decide (x = id n)) as [->|Hne].
    + destruct Hdp as [dp Hdp]. exists (S dp).
      eapply Depth_child; [apply attach_parent_of_eq|].
      eapply (Depth_reparent_avoid s _ (id n)); [|exact Hdp|done|done].
      intros. by apply attach_parent_of_ne.
    + assert (is_Some (by_id s !! x)) as Hxs.
      { unfold attach in Hx. simpl in Hx.
        rewrite lookup_insert_ne, lookup_shift_siblings in Hx by done.
        by apply fmap_is_Some in Hx. }
      destruct (Hdep _ Hxs) as [d Hd].
      eapply (Depth_reparent s _ (id n) p); [| |done|done|done|exact Hd].
      * intros. by apply attach_parent_of_ne.
      * apply attach_parent_of_eq.
Qed.

(** ** The by-url index *)

Lemma url_bucket_insert (um : gmap string (gset NodeID)) u v X :
  url_bucket (<[u := X]> um) v = if decide (u = v) then X else url_bucket um v.
Proof.
  unfold url_bucket. case_decide as Huv.
  - subst. by rewrite lookup_insert_eq.
  - by rewrite lookup_insert_ne.
Qed.

Lemma urls_ok_ext (m m' : gmap NodeID Node) um :
  (∀ x, payload <$> m' !! x = payload <$> m !! x) →
  urls_ok m um → urls_ok m' um.
Proof.
  intros Hext Hok u x. rewrite (Hok u x). specialize (Hext x).
  destruct (m' !! x) as [n'|], (m !! x) as [n|]; simpl in Hext; try done.
  split; intros (? & [= <-] & ?); eexists; (split; [done|congruence]).
Qed.

Lemma urls_ok_index (m : gmap NodeID Node) um n :
  m !! id n = None → urls_ok m um →
  urls_ok (<[id n := n]> m) (index_url n um).
Proof.
  intros Hfresh Hok u x. unfold index_url.
  destruct (payload n) as [u0| |] eqn:Hpl.
  - rewrite url_bucket_insert. case_decide as Hu.
    + subst u0. rewrite elem_of_union, elem_of_singleton, (Hok u x).
      split.
      * intros [->|(n' & Hn' & Hp)].
        -- exists n. by rewrite lookup_insert_eq.
        -- exists n'. rewrite lookup_insert_ne; [done|congruence].
      * intros (n' & [[<- <-]|[Hne Hn']]%lookup_insert_Some & Hp); [by left|].
        right. by exists n'.
    + rewrite (Hok u x). split.
      * intros (n' & Hn' & Hp). exists n'.
        rewrite lookup_insert_ne; [done|congruence].
      * intros (n' & [[<- <-]|[Hne Hn']]%lookup_insert_Some & Hp); [congruence|].
        by exists n'.
  - rewrite (Hok u x). split.
    + intros (n' & Hn' & Hp). exists n'.
      rewrite lookup_insert_ne; [done|congruence].
    + intros (n' & [[<- <-]|[Hne Hn']]%lookup_insert_Some & Hp); [congruence|].
      by exists n'.
  - rewrite (Hok u x). split.
    + intros (n' & Hn' & Hp). exists n'.
      rewrite lookup_insert_ne; [done|congruence].
    + intros (n' & [[<- <-]|[Hne Hn']]%lookup_insert_Some & Hp); [congruence|].
      by exists n'.
Qed.

Lemma urls_ok_unindex (m : gmap NodeID Node) um old :
  m !! id old = Some old → urls_ok m um →
  urls_ok (delete (id old) m) (unindex_url old um).
Proof.
  intros Hold Hok u x. unfold unindex_url.
  destruct (payload old) as [u0| |] eqn:Hpl.
  - rewrite url_bucket_insert. case_decide as Hu.
    + subst u0. rewrite elem_of_difference, elem_of_singleton, (Hok u x).
      split.
      * intros [(n' & Hn' & Hp) Hne]. exists n'.
        by rewrite lookup_delete_ne.
      * intros (n' & [Hne Hn']%lookup_delete_Some & Hp). split; [by exists n'|done].
    + rewrite (Hok u x). split.
      * intros (n' & Hn' & Hp). exists n'.
        rewrite lookup_delete_ne; [done|]. intros <-. congruence.
      * intros (n' & [Hne Hn']%lookup_delete_Some & Hp). by exists n'.
  - rewrite (Hok u x). split.
    + intros (n' & Hn' & Hp). exists n'.
      rewrite lookup_delete_ne; [done|]. intros <-. congruence.
    + intros (n' & [Hne Hn']%lookup_delete_Some & Hp). by exists n'.
  - rewrite (Hok u x). split.
    + intros (n' & Hn' & Hp). exists n'.
      rewrite lookup_delete_ne; [done|]. intros <-. congruence.
    + intros (n' & [Hne Hn']%lookup_delete_Some & Hp). by exists n'.
Qed.

Lemma urls_ok_replace (m : gmap NodeID Node) um old n :
  m !! id old = Some old → id n = id old → urls_ok m um →
  urls_ok (<[id old := n]> m) (index_url n (unindex_url old um)).
Proof.
  intros Hold Hid Hok. rewrite <-insert_delete_eq, <-Hid.
  apply urls_ok_index.
  - rewrite Hid. apply lookup_delete_eq.
  - rewrite Hid. by apply urls_ok_unindex.
Qed.

(** ** Paths and the cycle test *)

Lemma path_up_spec s x d :
  tree_ok s → Depth s x d →
  ∀ n fuel, by_id s !! x = Some n → d < fuel →
  ∃ path, path_up fuel s n = Some path ∧ length path = d ∧
          ∀ a, a ∈ path_ids path ↔ Anc s a x.
Proof.
  intros Hok. induction 1 as [x Hx|x p d Hx Hp IH]; intros n fuel Hn Hfuel.
  - destruct fuel as [|f]; [lia|]. exists []. simpl.
    unfold parent_of in Hx. rewrite Hn in Hx. simpl in Hx.
    unfold positionOf. injection Hx as Hx. rewrite Hx. split_and!; [done..|].
    intros a. split; [by intros ?%elem_of_nil|].
    intros (q & Hq & _)%Anc_inv. unfold parent_of in Hq.
    rewrite Hn in Hq. simpl in Hq. congruence.
  - destruct fuel as [|f]; [lia|].
    unfold parent_of in Hx. rewrite Hn in Hx. simpl in Hx. injection Hx as Hx.
    destruct (Depth_stored _ _ _ Hp) as [pn Hpn].
    destruct (IH pn f Hpn ltac:(lia)) as (path & Hpath & Hlen & Hids).
    exists (mkPosition pn (index n) :: path). simpl.
    unfold positionOf. rewrite Hx, Hpn. simpl. rewrite Hpath. simpl.
    split_and!; [done|by rewrite Hlen|].
    intros a.
    change (path_ids (mkPosition pn (index n) :: path))
      with (id pn :: path_ids path).
    rewrite elem_of_cons, (t_id _ Hok _ _ Hpn), Hids.
    split.
    + intros Ha. eapply Anc_trans_parent; [|done].
      unfold parent_of. rewrite Hn. simpl. by rewrite Hx.
    + intros (q & Hq & Ha)%Anc_inv. unfold parent_of in Hq.
      rewrite Hn in Hq. simpl in Hq. congruence.
Qed.

Lemma pathTo_spec s x n d :
  tree_ok s → by_id s !! x = Some n → Depth s x d →
  ∃ path, pathTo s n = Some path ∧ length path = d ∧
          ∀ a, a ∈ path_ids path ↔ Anc s a x.
Proof.
  intros Hok Hn Hd. pose proof (Depth_lt_size _ _ _ Hd) as Hlt.
  destruct (path_up_spec _ _ _ Hok Hd n (S (size (by_id s))) Hn ltac:(lia))
    as (path & Hpath & Hlen & Hids).
  exists (reverse path). unfold pathTo. rewrite Hpath. simpl.
  split_and!; [done|by rewrite length_reverse|].
  intros a. rewrite <-Hids. unfold path_ids.
  by rewrite fmap_reverse, elem_of_reverse.
Qed.

Lemma in_subtree_false s k p pn :
  tree_ok s → by_id s !! p = Some pn →
  in_subtree s k pn = false ↔ k ≠ p ∧ ¬ Anc s k p.
Proof.
  intros Hok Hpn.
  destruct (t_depth _ Hok p (mk_is_Some _ _ Hpn)) as [d Hd].
  destruct (pathTo_spec _ _ _ _ Hok Hpn Hd) as (path & Hpath & _ & Hids).
  unfold in_subtree. rewrite Hpath, (t_id _ Hok _ _ Hpn).
  rewrite orb_false_iff, !bool_decide_eq_false, Hids. done.
Qed.

(** ** Each kind of change keeps the tree well-formed *)

Lemma isFolder_true n : isFolder n = true ↔ payload n = Folder.
Proof. unfold isFolder. by destruct (payload n). Qed.

Lemma shape_lookup s s' x n' :
  (∀ x, shape <$> by_id s' !! x = shape <$> by_id s !! x) →
  by_id s' !! x = Some n' →
  ∃ n, by_id s !! x = Some n ∧ shape n' = shape n.
Proof.
  intros Hsh Hn'. specialize (Hsh x). rewrite Hn' in Hsh.
  destruct (by_id s !! x) as [n|]; simpl in Hsh; [|done].
  exists n. split; [done|congruence].
Qed.

Lemma tree_ok_same_shape s s' :
  root s' = root s → by_parent s' = by_parent s →
  (∀ x, shape <$> by_id s' !! x = shape <$> by_id s !! x) →
  tree_ok s → tree_ok s'.
Proof.
  intros Hroot Hbp Hsh Hok.
  assert (∀ x, shape <$> by_id s !! x = shape <$> by_id s' !! x) as Hsh'
    by (intros; by rewrite Hsh).
  assert (∀ x, parent_of s' x = parent_of s x) as Hpar.
  { intros x. unfold parent_of. specialize (Hsh x).
    destruct (by_id s' !! x), (by_id s !! x); simpl in *; try done.
    unfold shape in Hsh. congruence. }
  split; rewrite ?Hroot, ?Hbp.
  - intros x n' (n & Hn & Heq)%(shape_lookup s); [|done].
    unfold shape in Heq. injection Heq as -> _ _ _. by eapply t_id.
  - intros x n' (n & Hn & Heq)%(shape_lookup s); [|done].
    unfold shape in Heq. injection Heq as _ -> _ _. by eapply t_root.
  - destruct (t_root_in _ Hok) as [r Hr]. specialize (Hsh (root s)).
    rewrite Hr in Hsh. by destruct (by_id s' !! root s).
  - intros x n' q (n & Hn & Heq)%(shape_lookup s) Hq; [|done].
    unfold shape in Heq. injection Heq as _ Hp Hi _. rewrite Hp in Hq.
    rewrite Hi. by eapply t_up.
  - intros q cs i x Hcs Hx.
    destruct (t_down _ Hok _ _ _ _ Hcs Hx) as (n & Hn & Hp & Hi).
    destruct (shape_lookup s' s x n Hsh' Hn) as (n' & Hn' & Heq).
    unfold shape in Heq. injection Heq as _ Hp' Hi' _.
    exists n'. split_and!; congruence.
  - intros q. rewrite (t_folder _ Hok). split.
    + intros (n & Hn & Hf).
      destruct (shape_lookup s' s q n Hsh' Hn) as (n' & Hn' & Heq).
      unfold shape in Heq. injection Heq as _ _ _ Hfo.
      exists n'. split; [done|]. apply isFolder_true. rewrite <-Hfo.
      by apply isFolder_true.
    + intros (n' & Hn' & Hf).
      destruct (shape_lookup s s' q n' Hsh Hn') as (n & Hn & Heq).
      unfold shape in Heq. injection Heq as _ _ _ Hfo.
      exists n. split; [done|]. apply isFolder_true. rewrite <-Hfo.
      by apply isFolder_true.
  - intros x Hx.
    assert (is_Some (by_id s !! x)) as Hxs.
    { specialize (Hsh x). destruct Hx as [n' Hn']. rewrite Hn' in Hsh.
      by destruct (by_id s !! x). }
    destruct (t_depth _ Hok _ Hxs) as [d Hd]. exists d.
    by eapply Depth_ext.
Qed.

Lemma Anc_has_child s a x : Anc s a x → ∃ y, parent_of s y = Some (Some a).
Proof. induction 1; eauto. Qed.

Lemma parent_of_Some s x q :
  parent_of s x = Some (Some q) ↔ ∃ n, by_id s !! x = Some n ∧ parentId n = Some q.
Proof.
  unfold parent_of. destruct (by_id s !! x) as [n|]; simpl.
  - split; [intros [= ?]; by exists n|intros (? & [= <-] & ?); congruence].
  - split; [done|by intros (? & ? & ?)].
Qed.

(** The parent of a stored node is itself stored. *)
Lemma parent_stored s x n q :
  tree_ok s → by_id s !! x = Some n → parentId n = Some q →
  ∃ qn, by_id s !! q = Some qn ∧ payload qn = Folder.
Proof.
  intros Hok Hn Hq. destruct (t_up _ Hok _ _ _ Hn Hq) as (cs & Hcs & _).
  by apply (t_folder _ Hok).
Qed.

Lemma fresh_loose s k bp um :
  tree_ok s → by_id s !! k = None →
  (∀ q, q ≠ k → bp !! q = by_parent s !! q) →
  (bp !! k = None ∨ bp !! k = Some []) →
  loose (mkStore (root s) (by_id s) bp um) k.
Proof.
  intros Hok Hk Hbp Hbk. split; simpl.
  - apply (t_id _ Hok).
  - intros x n Hn _. by eapply t_root.
  - apply (t_root_in _ Hok).
  - intros ->. destruct (t_root_in _ Hok). congruence.
  - intros x n q Hn Hx Hq.
    destruct (parent_stored _ _ _ _ Hok Hn Hq) as (qn & Hqn & _).
    rewrite Hbp by congruence. by eapply t_up.
  - intros q cs i x Hcs Hx. destruct (decide (q = k)) as [->|Hne].
    + destruct Hbk as [Hbk|Hbk]; rewrite Hbk in Hcs; [done|].
      injection Hcs as <-. done.
    + rewrite Hbp in Hcs by done.
      destruct (t_down _ Hok _ _ _ _ Hcs Hx) as (n & Hn & ?).
      split; [congruence|by exists n].
  - intros q Hq. rewrite Hbp by done. apply (t_folder _ Hok).
Qed.

Lemma fresh_no_Anc s k p : tree_ok s → by_id s !! k = None → ¬ Anc s k p.
Proof.
  intros Hok Hk (y & Hy)%Anc_has_child.
  apply parent_of_Some in Hy as (n & Hn & Hq).
  destruct (parent_stored _ _ _ _ Hok Hn Hq) as (? & ? & _). congruence.
Qed.

Lemma insert_new_tree_ok s n p i s' :
  tree_ok s → by_id s !! id n = None →
  insert_new s n p i = Ok s' → tree_ok s'.
Proof.
  intros Hok Hfresh. unfold insert_new.
  destruct (by_id s !! p) as [pn|] eqn:Hp; [|by intros [= <-]].
  destruct (by_parent s !! p) as [cs|] eqn:Hcs; [|done].
  case_decide as Hi; [|done]. intros [= <-].
  assert (p ≠ id n) as Hne by congruence.
  eapply (attach_tree_ok _ n (id n) p cs); [|done| |done|done| | |].
  - apply fresh_loose; [done..| |].
    + intros q Hq. destruct (isFolder n); [|done]. by rewrite lookup_insert_ne.
    + destruct (isFolder n); [right; by rewrite lookup_insert_eq|left].
      destruct (by_parent s !! id n) eqn:Hbn; [|done].
      destruct (proj1 (t_folder _ Hok (id n)) (mk_is_Some _ _ Hbn)) as (? & ? & _).
      congruence.
  - simpl. destruct (isFolder n); [|done]. by rewrite lookup_insert_ne.
  - simpl. rewrite <-isFolder_true. destruct (isFolder n) eqn:Hf.
    + rewrite lookup_insert_eq. split; [done|intros _; by eexists].
    + split; [|intros ?; discriminate]. intros [cs' Hbn].
      destruct (proj1 (t_folder _ Hok (id n)) (mk_is_Some _ _ Hbn)) as (? & ? & _).
      congruence.
  - simpl. intros x Hx. destruct (t_depth _ Hok _ Hx) as [d Hd].
    exists d. apply (Depth_ext s); [intros; reflexivity|done].
  - intros Ha. eapply (fresh_no_Anc s); [done..|].
    eapply (Anc_ext _ s); [|exact Ha]. intros; reflexivity.
Qed.

Lemma relocate_Ok s old new p i s' pn :
  by_id s !! p = Some pn → relocate s old new p i = Ok s' →
  ∃ p0 cs, parentId old = Some p0 ∧ in_subtree s (id old) pn = false ∧
           by_parent (detach s old) !! p = Some cs ∧ i ≤ length cs ∧
           s' = attach (detach s old) new p i.
Proof.
  intros Hp. unfold relocate. destruct (parentId old) as [p0|] eqn:Hp0; [|done].
  rewrite Hp. destruct (in_subtree s (id old) pn) eqn:Hin; [done|].
  destruct (by_parent (detach s old) !! p) as [cs|] eqn:Hcs; [|done].
  case_decide; [|done]. intros [= <-]. by exists p0, cs.
Qed.

Lemma relocate_tree_ok s old new p i s' :
  tree_ok s → by_id s !! id old = Some old → id new = id old →
  (payload new = Folder ↔ payload old = Folder) →
  relocate s old new p i = Ok s' → tree_ok s'.
Proof.
  intros Hok Hold Hid Hfold Hrel.
  destruct (by_id s !! p) as [pn|] eqn:Hp; last first.
  { unfold relocate in Hrel. rewrite Hp in Hrel.
    destruct (parentId old); [|done]. by injection Hrel as <-. }
  destruct (relocate_Ok _ _ _ _ _ _ _ Hp Hrel) as (p0 & cs & Hp0 & Hin & Hcs & Hi & ->).
  apply (in_subtree_false _ _ _ _ Hok Hp) in Hin as [Hne Hna].
  eapply (attach_tree_ok _ new (id old) p cs); [|done..| | |].
  - by eapply detach_loose.
  - rewrite detach_by_parent_is_Some, (t_folder _ Hok), Hfold.
    split; [intros (? & ? & ?); congruence|by exists old].
  - intros x Hx.
    assert (is_Some (by_id s !! x)) as Hxs.
    { pose proof (detach_parent_of s old x) as Hpo. unfold parent_of in Hpo.
      destruct Hx as [? Hx]. rewrite Hx in Hpo. by destruct (by_id s !! x). }
    destruct (t_depth _ Hok _ Hxs) as [d Hd]. exists d.
    eapply Depth_ext; [|done]. apply detach_parent_of.
  - intros Ha. apply Hna. eapply Anc_ext; [|done].
    intros. symmetry. apply detach_parent_of.
Qed.

Lemma relocate_payload s old new p i s' x :
  by_id s !! id old = Some old → id new = id old →
  relocate s old new p i = Ok s' → is_Some (by_id s !! p) →
  by_url s' = by_url s ∧
  payload <$> by_id s' !! x = payload <$> <[id old := new]> (by_id s) !! x.
Proof.
  intros Hold Hid Hrel [pn Hp].
  destruct (relocate_Ok _ _ _ _ _ _ _ Hp Hrel) as (p0 & cs & Hp0 & Hin & Hcs & Hi & ->).
  split; [apply detach_by_url|].
  rewrite attach_payload, Hid. destruct (decide (id old = x)) as [<-|Hne].
  - by rewrite !lookup_insert_eq.
  - rewrite !lookup_insert_ne by done. apply detach_payload.
Qed.

Lemma apply_patch_shape pt n : shape (apply_patch pt n) = shape n.
Proof.
  unfold shape, apply_patch, isFolder. simpl.
  by destruct (payload n), (patch_url pt).
Qed.

Lemma update_consistent s k old pt :
  consistent s → by_id s !! k = Some old → consistent (update s old pt).
Proof.
  intros [Hok Hurl] Hold.
  assert (id old = k) as Hid by (by eapply t_id). subst k. split.
  - apply (tree_ok_same_shape s); [done..| |done].
    intros x. unfold update. simpl. destruct (decide (id old = x)) as [<-|Hne].
    + rewrite lookup_insert_eq, Hold. simpl. by rewrite apply_patch_shape.
    + by rewrite lookup_insert_ne.
  - unfold update. simpl. by apply urls_ok_replace.
Qed.

Lemma remove_leaf_consistent s k s' :
  consistent s → remove_leaf s k = Ok s' → consistent s'.
Proof.
  intros [Hok Hurl]. unfold remove_leaf.
  destruct (by_id s !! k) as [n|] eqn:Hn; [|by intros [= <-]].
  destruct (parentId n) as [p0|] eqn:Hp0; [|done].
  destruct (children s k) as [|c cs] eqn:Hkids; [|done]. intros [= <-].
  assert (id n = k) as Hid by (by eapply t_id).
  pose proof (detach_loose _ _ _ _ Hok Hn Hp0) as Hl.
  assert (∀ x q, parent_of s x = Some (Some q) → q ≠ k) as Hnokid.
  { intros x q (xn & Hxn & Hq)%parent_of_Some ->.
    destruct (t_up _ Hok _ _ _ Hxn Hq) as (cs & Hcs & Hx).
    unfold children in Hkids. rewrite Hcs in Hkids. simpl in Hkids.
    by subst cs. }
  split.
  - split; simpl.
    + intros x n' [Hne Hx]%lookup_delete_Some. by eapply l_id.
    + intros x n' [Hne Hx]%lookup_delete_Some.
      eapply l_root; [done..|congruence].
    + rewrite lookup_delete_ne by (by apply (l_not_root _ _ Hl)).
      apply (l_root_in _ _ Hl).
    + intros x n' q [Hne Hx]%lookup_delete_Some Hq.
      assert (q ≠ k) as Hqk.
      { apply (Hnokid x). rewrite <-(detach_parent_of s n).
        apply parent_of_Some. by exists n'. }
      rewrite lookup_delete_ne by done.
      eapply l_up; [done..|congruence|done].
    + intros q cs' i x [Hne Hq]%lookup_delete_Some Hx.
      destruct (l_down _ _ Hl _ _ _ _ Hq Hx) as (Hxk & n' & Hn' & ? & ?).
      exists n'. by rewrite lookup_delete_ne.
    + intros q. destruct (decide (q = k)) as [->|Hne].
      * rewrite !lookup_delete_eq. split; [by intros [? ?]|by intros (? & ? & ?)].
      * rewrite !lookup_delete_ne by done. by apply (l_folder _ _ Hl).
    + intros x [n' [Hne Hx]%lookup_delete_Some].
      assert (is_Some (by_id s !! x)) as Hxs.
      { pose proof (detach_parent_of s n x) as Hpo. unfold parent_of in Hpo.
        rewrite Hx in Hpo. by destruct (by_id s !! x). }
      destruct (t_depth _ Hok _ Hxs) as [d Hd]. exists d.
      eapply (Depth_reparent_avoid s _ k); [|exact Hd|congruence|].
      * intros y Hy. unfold parent_of. simpl.
        rewrite lookup_delete_ne by done. apply detach_parent_of.
      * intros (y & Hy)%Anc_has_child. by eapply Hnokid.
  - simpl. rewrite detach_by_url, <-Hid.
    eapply urls_ok_ext; [|apply urls_ok_unindex; [|done]].
    + intros x. destruct (decide (id n = x)) as [<-|Hne].
      * by rewrite !lookup_delete_eq.
      * rewrite !lookup_delete_ne by done. apply detach_payload.
    + by rewrite Hid.
Qed.

Lemma foldM_invariant {A B} (P : A → Prop) (f : A → B → result A) l :
  (∀ a b a', P a → f a b = Ok a' → P a') →
  ∀ a a', P a → foldM f a l = Ok a' → P a'.
Proof.
  intros Hf. induction l as [|b l IH]; intros a a' Ha; simpl.
  - by intros [= <-].
  - destruct (f a b) as [a1|] eqn:Hfa; [|done]. simpl.
    apply IH. by eapply Hf.
Qed.

Lemma remove_tree_consistent fuel s k s' :
  consistent s → remove_tree fuel s k = Ok s' → consistent s'.
Proof.
  revert s k s'. induction fuel as [|f IH]; intros s k s' Hs; [done|].
  simpl. destruct (foldM (remove_tree f) s (children s k)) as [s1|] eqn:Hfold;
    [|done].
  simpl. apply remove_leaf_consistent.
  eapply (foldM_invariant consistent); [|exact Hs|exact Hfold].
  intros a b a' Ha Hr. by eapply IH.
Qed.

Lemma tree_ok_with_url_index f s : tree_ok s → tree_ok (with_url_index f s).
Proof. by apply tree_ok_same_shape. Qed.

Lemma insert_existing_consistent s old n p i s' :
  consistent s → by_id s !! id n = Some old →
  insert_existing s old n p i = Ok s' → consistent s'.
Proof.
  intros [Hok Hurl] Hold. unfold insert_existing.
  assert (id old = id n) as Hid by (by eapply t_id).
  case_bool_decide as Hf; [|done]. simpl.
  destruct (by_id s !! p) as [pn|] eqn:Hp; [|by intros [= <-]].
  destruct (relocate s old n p i) as [s1|] eqn:Hrel; [|done].
  simpl. intros [= <-]. rewrite <-Hid in Hold. split.
  - apply tree_ok_with_url_index.
    eapply relocate_tree_ok; [done..| |done].
    by rewrite <-!isFolder_true, Hf.
  - simpl.
    destruct (relocate_payload _ _ _ _ _ _ (id old) Hold (eq_sym Hid) Hrel
                (mk_is_Some _ _ Hp)) as [-> _].
    apply (urls_ok_ext (<[id old := n]> (by_id s))).
    + intros x.
      by destruct (relocate_payload _ _ _ _ _ _ x Hold (eq_sym Hid) Hrel
                     (mk_is_Some _ _ Hp)) as [_ ->].
    + by apply urls_ok_replace.
Qed.

Lemma move_consistent s old p i s' :
  consistent s → by_id s !! id old = Some old →
  relocate s old old p i = Ok s' → consistent s'.
Proof.
  intros [Hok Hurl] Hold Hrel. split.
  - by eapply relocate_tree_ok.
  - destruct (by_id s !! p) as [pn|] eqn:Hp; last first.
    { unfold relocate in Hrel. rewrite Hp in Hrel.
      destruct (parentId old); [|done]. by injection Hrel as <-. }
    destruct (relocate_payload _ _ _ _ _ _ (id old) Hold eq_refl Hrel
                (mk_is_Some _ _ Hp)) as [-> _].
    apply (urls_ok_ext (by_id s)); [|done].
    intros x.
    destruct (relocate_payload _ _ _ _ _ _ x Hold eq_refl Hrel
                (mk_is_Some _ _ Hp)) as [_ ->].
    by rewrite insert_id.
Qed.

(** Every successful change keeps the store consistent. *)
Lemma apply_consistent s c s' :
  consistent s → apply s c = Ok s' → consistent s'.
Proof.
  intros Hs. destruct c as [n p i|k pt|k p i|k|k]; simpl.
  - destruct (by_id s !! id n) as [old|] eqn:Hold.
    + by apply insert_existing_consistent.
    + intros Hins. destruct Hs as [Hok Hurl]. split.
      * by eapply insert_new_tree_ok.
      * unfold insert_new in Hins.
        destruct (by_id s !! p); [|by injection Hins as <-].
        destruct (by_parent s !! p); [|done].
        case_decide; [|done]. injection Hins as <-.
        apply (urls_ok_ext (<[id n := n]> (by_id s)));
          [intros x; by rewrite attach_payload|].
        by apply urls_ok_index.
  - destruct (by_id s !! k) as [old|] eqn:Hold; intros [= <-]; [|done].
    by eapply update_consistent.
  - destruct (by_id s !! k) as [old|] eqn:Hold; [|by intros [= <-]].
    apply move_consistent; [done|].
    by rewrite (t_id _ (proj1 Hs) _ _ Hold).
  - by apply remove_leaf_consistent.
  - destruct (by_id s !! k); [|by intros [= <-]].
    by apply (remove_tree_consistent (S (size (by_id s))) s k).
Qed.

Lemma after_consistent s c : consistent s → consistent (after s c).
Proof.
  intros Hs. unfold after. destruct (apply s c) eqn:Happ; [|done].
  by eapply apply_consistent.
Qed.


(** ** The bulk load *)

Lemma single_node_consistent r :
  parentId r = None →
  consistent (mkStore (id r) {[id r := r]}
                (if isFolder r then {[id r := []]} else ∅) (index_url r ∅)).
Proof.
  intros Hpr. split.
  - split; simpl.
    + by intros k n [<- <-]%lookup_singleton_Some.
    + by intros k n [<- <-]%lookup_singleton_Some.
    + rewrite lookup_singleton_eq. by eexists.
    + intros k n p [<- <-]%lookup_singleton_Some. congruence.
    + intros p cs i k Hcs. destruct (isFolder r); [|done].
      by apply lookup_singleton_Some in Hcs as [<- <-].
    + intros p. split.
      * intros [cs Hcs]. destruct (isFolder r) eqn:Hf; [|done].
        apply lookup_singleton_Some in Hcs as [<- <-].
        exists r. split; [apply lookup_singleton_eq|by apply isFolder_true].
      * intros (n & [<- <-]%lookup_singleton_Some & Hf%isFolder_true).
        rewrite Hf, lookup_singleton_eq. by eexists.
    + intros k [n [<- <-]%lookup_singleton_Some]. exists 0.
      apply Depth_top. unfold parent_of. simpl.
      rewrite lookup_singleton_eq. simpl. by rewrite Hpr.
  - simpl. rewrite <-insert_empty. apply urls_ok_index; [done|].
    intros u k. unfold url_bucket. rewrite !lookup_empty. simpl.
    split; [by intros ?%not_elem_of_empty|by intros (? & ? & _)].
Qed.

Lemma init_consistent t : consistent (init t).
Proof. apply single_node_consistent. by destruct t. Qed.

Lemma load_kids_consistent l :
  (∀ c, c ∈ l → ∀ p i s, consistent s → consistent (load_into c p i s)) →
  ∀ k j s, consistent s → consistent (load_kids l k j s).
Proof.
  induction l as [|c l IH]; intros Hl k j s Hs; [done|].
  simpl. apply IH.
  - intros c' Hc'. apply Hl. by right.
  - apply Hl; [by left|done].
Qed.

Lemma load_into_kids k ti d kids p i s :
  load_into (TFolder k ti d kids) p i s =
  load_kids kids k 0 (after s (Insert (tree_node (TFolder k ti d kids) (Some p) i) p i)).
Proof.
  simpl. generalize 0.
  generalize (after s (Insert (mkNode k (Some p) i ti d Folder) p i)).
  induction kids as [|c l IH]; intros s0 j; [done|]. simpl. apply IH.
Qed.

Lemma Tree_ind_kids (P : Tree → Prop) :
  (∀ k ti u d, P (TBookmark k ti u d)) →
  (∀ k, P (TSeparator k)) →
  (∀ k ti d kids, Forall P kids → P (TFolder k ti d kids)) →
  ∀ t, P t.
Proof.
  intros Hb Hs Hf. fix F 1. intros [k ti u d|k|k ti d kids].
  - apply Hb.
  - apply Hs.
  - apply Hf. induction kids as [|c l IH]; constructor; [apply F|apply IH].
Qed.

Lemma load_into_consistent t :
  ∀ p i s, consistent s → consistent (load_into t p i s).
Proof.
  induction t as [k ti u d|k|k ti d kids IH] using Tree_ind_kids;
    intros p i s Hs.
  - simpl. by apply after_consistent.
  - simpl. by apply after_consistent.
  - rewrite load_into_kids. apply load_kids_consistent.
    + intros c Hc. by apply (proj1 (Forall_forall _ _) IH).
    + by apply after_consistent.
Qed.

Lemma load_consistent t : consistent (load t).
Proof.
  destruct t as [k ti u d|k|k ti d kids]; simpl; try apply init_consistent.
  apply load_kids_consistent; [|apply init_consistent].
  intros c _. apply load_into_consistent.
Qed.
End store_facts.

(** * The indexed tree store: the claims *)

Section store_claims.
Import Bookmarks.
Implicit Types (s : Store) (k p : NodeID) (n : Node).




Lemma remove_leaf_gone s k s' :
  remove_leaf s k = Ok s' → by_id s' !! k = None.
Proof.
  unfold remove_leaf. destruct (by_id s !! k) as [n|] eqn:Hn;
    [|by intros [= <-]].
  destruct (parentId n); [|done]. destruct (children s k); [|done].
  intros [= <-]. simpl. apply lookup_delete_eq.
Qed.

Lemma apply_remove_gone s k ev s' :
  ev = Remove k ∨ ev = RemoveTree k →
  apply s ev = Ok s' → by_id s' !! k = None.
Proof.
  intros [->| ->]; simpl.
  - apply remove_leaf_gone.
  - destruct (by_id s !! k) eqn:Hk; [|by intros [= <-]].
    destruct (foldM _ _ _); [|done]. simpl. apply remove_leaf_gone.
Qed.

(** C4.  A Remove or RemoveTree event for an id that is not in the store is
    a no-op: it succeeds and returns the store as it is.  That is the
    situation after the event has been applied once: the id is gone, and
    delivering the same event again changes nothing. *)
Theorem redelivered_remove_is_noop s k ev :
  ev = Remove k ∨ ev = RemoveTree k →
  (by_id s !! k = None → apply s ev = Ok s) ∧
  (∀ s', apply s ev = Ok s' → by_id s' !! k = None ∧ apply s' ev = Ok s').
Proof.
  intros Hev.
  assert (∀ s0, by_id s0 !! k = None → apply s0 ev = Ok s0) as Hnoop.
  { intros s0 Hgone. destruct Hev as [->| ->]; simpl.
    - unfold remove_leaf. by rewrite Hgone.
    - by rewrite Hgone. }
  split; [apply Hnoop|].
  intros s' Happ.
  pose proof (apply_remove_gone _ _ _ _ Hev Happ) as Hgone.
  split; [done|by apply Hnoop].
Qed.

Lemma redelivered_remove_is_noop_witness :
  let s' := after Fixture.bms (RemoveTree "names") in
  by_id s' !! "names" = None ∧ apply s' (RemoveTree "names") = Ok s'.
Proof.
  intros s'.
  apply (proj2 (redelivered_remove_is_noop Fixture.bms "names"
                  (RemoveTree "names") (or_intror eq_refl))).
  vm_compute. reflexivity.
Defined.

Lemma parent_not_descendant s a na p :
  tree_ok s → by_id s !! a = Some na → parentId na = Some p →
  a ≠ p ∧ ¬ Anc s a p.
Proof.
  intros Hok Ha Hp.
  destruct (t_depth _ Hok a (mk_is_Some _ _ Ha)) as [da Hda].
  assert (parent_of s a = Some (Some p)) as Hpa.
  { apply parent_of_Some. by exists na. }
  inversion Hda as [? Htop|? p' dp Hch Hdp]; subst; [congruence|].
  assert (p' = p) as -> by congruence.
  split.
  - intros ->. pose proof (Depth_functional _ _ _ _ Hda Hdp). lia.
  - intros (d' & Hd' & Hlt)%(Anc_depth _ _ _ dp); [|done].
    pose proof (Depth_functional _ _ _ _ Hda Hd'). lia.
Qed.

(** The store itself refuses a move of a node into its own subtree, and
    keeps every index as it is. *)
Lemma move_into_own_subtree_is_rejected s k n p pn i :
  tree_ok s → by_id s !! k = Some n → k ≠ root s →
  by_id s !! p = Some pn → k = p ∨ Anc s k p →
  apply s (Move k p i) = Err StructuralViolation ∧
  after s (Move k p i) = s.
Proof.
  intros Hok Hn Hroot Hp Hcyc.
  assert (apply s (Move k p i) = Err StructuralViolation) as Happ.
  { simpl. rewrite Hn. unfold relocate.
    destruct (parentId n) as [p0|] eqn:Hp0;
      [|by apply (t_root _ Hok) in Hn as [Hn _]; specialize (Hn Hp0)].
    rewrite Hp, (t_id _ Hok _ _ Hn).
    destruct (in_subtree s k pn) eqn:Hin; [done|].
    apply (in_subtree_false _ _ _ _ Hok Hp) in Hin as [? ?]. by destruct Hcyc. }
  split; [done|]. unfold after. by rewrite Happ.
Qed.

(** Moving a child within its folder is the reorder of the children
    sequence: the node is taken out and put back at the target index. *)
Lemma move_within_parent s p kids k i j :
  consistent s → by_parent s !! p = Some kids → kids !! i = Some k →
  j < length kids →
  ∃ s', apply s (Move k p j) = Ok s' ∧
        by_parent s' !! p = Some (insert_at j k (delete i kids)).
Proof.
  intros [Hok _] Hkids Hk Hj.
  destruct (t_down _ Hok _ _ _ _ Hkids Hk) as (n & Hn & Hp & Hi).
  destruct (parent_stored _ _ _ _ Hok Hn Hp) as (pn & Hpn & _).
  pose proof (t_id _ Hok _ _ Hn) as Hid.
  assert (in_subtree s (id n) pn = false) as Hin.
  { apply (in_subtree_false _ _ p); [done..|]. rewrite Hid.
    by eapply parent_not_descendant. }
  assert (by_parent (detach s n) !! p = Some (delete i kids)) as Hdet.
  { rewrite (detach_unfold _ _ _ Hp). simpl.
    by rewrite lookup_alter_eq, Hkids, Hi. }
  pose proof (lookup_lt_Some _ _ _ Hk) as Hlt.
  assert (j ≤ length (delete i kids)) as Hj'.
  { rewrite length_delete by (by eexists). lia. }
  exists (attach (detach s n) n p j). split.
  - simpl. rewrite Hn. unfold relocate. rewrite Hp, Hpn, Hin, Hdet.
    by rewrite decide_True.
  - unfold attach. simpl. by rewrite lookup_alter_eq, Hdet, Hid.
Qed.

(** C7.  Among four children, moving the first one to index 3 puts it
    last; the three siblings that stood behind it each move one index
    down, to 0, 1 and 2. *)
Theorem move_forward_reorders s p a b c d :
  consistent s → by_parent s !! p = Some [a; b; c; d] →
  ∃ s', apply s (Move a p 3) = Ok s' ∧
        by_parent s' !! p = Some [b; c; d; a] ∧
        (index <$> by_id s !! b = Some 1 ∧ index <$> by_id s' !! b = Some 0) ∧
        (index <$> by_id s !! c = Some 2 ∧ index <$> by_id s' !! c = Some 1) ∧
        (index <$> by_id s !! d = Some 3 ∧ index <$> by_id s' !! d = Some 2) ∧
        (index <$> by_id s !! a = Some 0 ∧ index <$> by_id s' !! a = Some 3).
Proof.
  intros Hs Hkids.
  destruct (move_within_parent s p [a; b; c; d] a 0 3 Hs Hkids eq_refl)
    as (s' & Happ & Hkids'); [simpl; lia|].
  change (insert_at 3 a (delete 0 [a; b; c; d])) with [b; c; d; a] in Hkids'.
  exists s'. split; [done|]. split; [done|].
  pose proof (apply_consistent _ _ _ Hs Happ) as [Hok' _].
  destruct Hs as [Hok _].
  assert (∀ st l j x, tree_ok st → by_parent st !! p = Some l →
                       l !! j = Some x → index <$> by_id st !! x = Some j)
    as Hidx.
  { intros st l j x Hst Hl Hx.
    destruct (t_down _ Hst _ _ _ _ Hl Hx) as (n & -> & _ & <-). done. }
  split_and!; first [by eapply (Hidx s)|by eapply (Hidx s')].
Qed.

Lemma move_forward_reorders_witness :
  ∃ s', apply Fixture.bms (Move "alice" "outside" 3) = Ok s' ∧
        by_parent s' !! "outside" = Some ["separator"; "bob"; "empty"; "alice"] ∧
        (index <$> by_id Fixture.bms !! "separator" = Some 1 ∧
         index <$> by_id s' !! "separator" = Some 0) ∧
        (index <$> by_id Fixture.bms !! "bob" = Some 2 ∧
         index <$> by_id s' !! "bob" = Some 1) ∧
        (index <$> by_id Fixture.bms !! "empty" = Some 3 ∧
         index <$> by_id s' !! "empty" = Some 2) ∧
        (index <$> by_id Fixture.bms !! "alice" = Some 0 ∧
         index <$> by_id s' !! "alice" = Some 3).
Proof.
  apply (move_forward_reorders Fixture.bms "outside"
           "alice" "separator" "bob" "empty").
  - apply load_consistent.
  - vm_compute. reflexivity.
Defined.




(** ** The stash-root resolver *)

Lemma two_distinct_length {A} (l : list A) x y :
  x ∈ l → y ∈ l → x ≠ y → 2 ≤ length l.
Proof.
  destruct l as [|a [|b l']]; simpl; [by intros ?%elem_of_nil| |lia].
  intros ->%list_elem_of_singleton ->%list_elem_of_singleton. done.
Qed.

Lemma NoDup_other `{EqDecision A} (l : list A) x :
  NoDup l → 2 ≤ length l → ∃ y, y ∈ l ∧ y ≠ x.
Proof.
  destruct l as [|a [|b l']]; simpl; [lia..|].
  intros [Hab _]%NoDup_cons _. destruct (decide (x = a)) as [->|Hne].
  - exists b. split; [by right; left|]. intros ->. apply Hab. by left.
  - exists a. split; [by left|done].
Qed.

Lemma elem_of_candidates name s n :
  tree_ok s →
  n ∈ candidates name s ↔
  by_id s !! id n = Some n ∧ isFolder n = true ∧ title n = name.
Proof.
  intros Hok. unfold candidates.
  rewrite list_elem_of_filter, list_elem_of_fmap. split.
  - intros [[Hf Ht] ([k n'] & -> & Hn%elem_of_map_to_list)]. simpl in *.
    by rewrite (t_id _ Hok _ _ Hn).
  - intros (Hn & Hf & Ht). split; [done|].
    exists (id n, n). split; [done|]. by apply elem_of_map_to_list.
Qed.

Lemma NoDup_candidates name s : tree_ok s → NoDup (candidates name s).
Proof.
  intros Hok. unfold candidates. apply NoDup_filter.
  apply NoDup_fmap_2_strong; [|apply NoDup_map_to_list].
  intros [k1 n1] [k2 n2] H1%elem_of_map_to_list H2%elem_of_map_to_list.
  simpl. intros ->. f_equal.
  rewrite <-(t_id _ Hok _ _ H1). by apply (t_id _ Hok).
Qed.

Lemma depthOf_stored s x n :
  tree_ok s → by_id s !! x = Some n → ∃ d, depthOf s n = Some d ∧ Depth s x d.
Proof.
  intros Hok Hn. destruct (t_depth _ Hok x (mk_is_Some _ _ Hn)) as [d Hd].
  destruct (pathTo_spec _ _ _ _ Hok Hn Hd) as (path & Hpath & Hlen & _).
  exists d. unfold depthOf. rewrite Hpath. simpl. by rewrite Hlen.
Qed.

Lemma elem_of_ranked name s n d :
  (n, d) ∈ ranked name s ↔ n ∈ candidates name s ∧ depthOf s n = Some d.
Proof.
  unfold ranked. rewrite list_elem_of_omap. split.
  - intros (n' & Hn' & Hd).
    destruct (depthOf s n') as [d'|] eqn:Hdn; [|done].
    simpl in Hd. injection Hd as -> ->. done.
  - intros [Hn Hd]. exists n. split; [done|]. rewrite Hd. reflexivity.
Qed.

Lemma NoDup_ranked name s : tree_ok s → NoDup (ranked name s).
Proof.
  intros Hok. unfold ranked.
  induction (NoDup_candidates name s Hok) as [|n l Hn _ IH]; simpl.
  - apply NoDup_nil_2.
  - destruct (depthOf s n) as [d|] eqn:Hd; simpl; [|done].
    apply NoDup_cons. split; [|done].
    intros (n' & Hn' & Hd')%list_elem_of_omap.
    destruct (depthOf s n'); [|done]. simpl in Hd'. by injection Hd' as -> _.
Qed.

Lemma pick_None l : pick l = None ↔ l = [].
Proof.
  destruct l as [|c l]; [done|]. simpl. split; [|done].
  destruct (pick l) as [b|]; [|done]. by destruct (better c b).
Qed.

Lemma pick_Some l b :
  pick l = Some b → b ∈ l ∧ ∀ c, c ∈ l → b.2 ≤ c.2.
Proof.
  revert b. induction l as [|c l IH]; intros b; [done|]. simpl.
  destruct (pick l) as [b0|] eqn:Hpick.
  - destruct (IH b0 eq_refl) as [Hb0 Hmin].
    destruct (better c b0) eqn:Hbet; intros [= <-].
    + split; [by left|]. intros c' [->|Hc']%elem_of_cons; [done|].
      specialize (Hmin _ Hc'). unfold better in Hbet.
      apply orb_true_iff in Hbet as [Hlt%Nat.ltb_lt|[Heq%Nat.eqb_eq _]%andb_true_iff];
        lia.
    + split; [by right|]. intros c' [->|Hc']%elem_of_cons; [|by apply Hmin].
      unfold better in Hbet.
      apply orb_false_iff in Hbet as [Hlt%Nat.ltb_ge _]. lia.
  - apply pick_None in Hpick as ->. intros [= <-].
    split; [by left|]. by intros c' ->%list_elem_of_singleton.
Qed.

(** C3, as the resolver has it.  With no folder of the designated name the
    stash root is undefined; with exactly one, it is that folder; with
    several, it is one that no other candidate lies above.  The warning is
    set exactly when another candidate lies on the level of the resolved
    root. *)
Theorem stash_root_resolution name s :
  consistent s →
  (candidates name s = [] → stash_root name s = None) ∧
  (∀ c, candidates name s = [c] → stash_root name s = Some c) ∧
  (candidates name s ≠ [] →
     ∃ r dr, stash_root name s = Some r ∧ r ∈ candidates name s ∧
             depthOf s r = Some dr ∧
             ∀ c, c ∈ candidates name s →
                  ∃ dc, depthOf s c = Some dc ∧ dr ≤ dc) ∧
  (stash_root_warning name s = true ↔
     ∃ r c dr, stash_root name s = Some r ∧ c ∈ candidates name s ∧ c ≠ r ∧
               depthOf s r = Some dr ∧ depthOf s c = Some dr).
Proof.
  intros [Hok _].
  assert (∀ c, c ∈ candidates name s → ∃ dc, (c, dc) ∈ ranked name s) as Hrk.
  { intros c Hc. pose proof Hc as (Hs & _)%elem_of_candidates; [|done].
    destruct (depthOf_stored _ _ _ Hok Hs) as (dc & Hdc & _).
    exists dc. by apply elem_of_ranked. }
  split_and!.
  - intros Hnil. unfold stash_root, ranked. by rewrite Hnil.
  - intros c Hc. destruct (Hrk c) as [dc Hdc]; [rewrite Hc; by left|].
    apply elem_of_ranked in Hdc as [_ Hdc].
    unfold stash_root, ranked. rewrite Hc. simpl. by rewrite Hdc.
  - intros Hne.
    assert (∃ c0, c0 ∈ candidates name s) as [c0 Hc0].
    { destruct (candidates name s) as [|c0 l]; [done|]. exists c0. by left. }
    destruct (Hrk c0 Hc0) as [d0 Hd0].
    destruct (pick (ranked name s)) as [[r dr]|] eqn:Hpick;
      [|by apply pick_None in Hpick; rewrite Hpick in Hd0;
         apply elem_of_nil in Hd0].
    destruct (pick_Some _ _ Hpick) as [[Hr Hdr]%elem_of_ranked Hmin].
    exists r, dr. unfold stash_root. rewrite Hpick.
    split_and!; [done..|].
    intros c Hc. destruct (Hrk c Hc) as [dc Hdc]. exists dc.
    split; [by apply elem_of_ranked in Hdc as [_ ?]|].
    by apply (Hmin (c, dc)).
  - unfold stash_root_warning, topmost, stash_root.
    rewrite bool_decide_eq_true.
    destruct (pick (ranked name s)) as [[r dr]|] eqn:Hpick; simpl.
    + destruct (pick_Some _ _ Hpick) as [Hb Hmin]. pose proof Hb as Hb'.
      apply elem_of_ranked in Hb' as [Hr Hdr]. split.
      * intros Hlen.
        destruct (NoDup_other (filter (λ c, c.2 = dr) (ranked name s)) (r, dr))
          as ([c dc] & [Hdc Hc]%list_elem_of_filter & Hcr);
          [by apply NoDup_filter, NoDup_ranked|done|].
        simpl in Hdc. subst dc. apply elem_of_ranked in Hc as [Hc Hdc].
        exists r, c, dr. split_and!; [done..|congruence|done|done].
      * intros (r' & c & dr' & [= <-] & Hc & Hcr & Hdr' & Hdc).
        assert (dr' = dr) as -> by congruence.
        apply (two_distinct_length _ (r, dr) (c, dr)).
        -- by apply list_elem_of_filter.
        -- apply list_elem_of_filter. split; [done|]. by apply elem_of_ranked.
        -- congruence.
    + split; [simpl; lia|]. by intros (? & ? & ? & ? & _).
Qed.

Lemma stash_root_resolution_witness :
  let name := Fixture.STASH_ROOT_NAME in
  let s := Fixture.bms in
  (candidates name s = [] → stash_root name s = None) ∧
  (∀ c, candidates name s = [c] → stash_root name s = Some c) ∧
  (candidates name s ≠ [] →
     ∃ r dr, stash_root name s = Some r ∧ r ∈ candidates name s ∧
             depthOf s r = Some dr ∧
             ∀ c, c ∈ candidates name s →
                  ∃ dc, depthOf s c = Some dc ∧ dr ≤ dc) ∧
  (stash_root_warning name s = true ↔
     ∃ r c dr, stash_root name s = Some r ∧ c ∈ candidates name s ∧ c ≠ r ∧
               depthOf s r = Some dr ∧ depthOf s c = Some dr).
Proof.
  apply (stash_root_resolution Fixture.STASH_ROOT_NAME Fixture.bms).
  apply load_consistent.
Defined.

(** C3, as the claim words it, fails on the warning: with a second
    candidate that lies deeper than the resolved root there are two
    candidates and no warning (the case of the test "finds the topmost
    stash root"). *)
Lemma no_warning_for_a_deeper_candidate :
  ¬ (∀ s, consistent s →
          (stash_root_warning Fixture.STASH_ROOT_NAME s = true ↔
           2 ≤ length (candidates Fixture.STASH_ROOT_NAME s))).
Proof.
  intros H.
  set (s := after Fixture.bms
              (Insert (mkNode "second" None 0 Fixture.STASH_ROOT_NAME None Folder)
                 "outside" 4)).
  destruct (H s) as [_ Hw]; [apply after_consistent, load_consistent|].
  assert (stash_root_warning Fixture.STASH_ROOT_NAME s = false) as Hf
    by (vm_compute; reflexivity).
  rewrite Hf in Hw. enough (false = true) by done. apply Hw.
  vm_compute. lia.
Qed.
End store_claims.

(** * The top-level model: the claims *)

Section model_claims.
Import Bookmarks Model.

(** C8.  When the function run by [attempt] rejects, the error is logged,
    a reload of the model is started, and the same error is raised again;
    when it resolves, [attempt] returns its result and neither logs nor
    reloads. *)
Theorem attempt_logs_reloads_and_rethrows {R} (fn : M R) (w : World) :
  (∀ w' e, fn w = (w', Thrown e) →
     attempt fn w =
     (mkWorld (bookmarks w') (logged w' ++ [e]) (S (reloads w')) (commands w'),
      Thrown e)) ∧
  (∀ w' r, fn w = (w', Returned r) → attempt fn w = (w', Returned r)).
Proof.
  unfold attempt, try_catch. split; intros w' x Hfn; rewrite Hfn; reflexivity.
Qed.

Lemma attempt_logs_reloads_and_rethrows_witness :
  let w := mkWorld (init (TSeparator "none")) [] 0 [] in
  attempt (throw (JsError "boom") : M nat) w
  = (mkWorld (bookmarks w) (logged w ++ [JsError "boom"]) (S (reloads w))
       (commands w),
     Thrown (JsError "boom")) ∧
  attempt (mret 7) w = (w, Returned 7).
Proof.
  intros w. split.
  - apply (proj1 (attempt_logs_reloads_and_rethrows
                    (throw (JsError "boom") : M nat) w) w (JsError "boom")).
    reflexivity.
  - apply (proj2 (attempt_logs_reloads_and_rethrows (mret 7 : M nat) w) w 7).
    reflexivity.
Defined.

(** C10.  [isURLStashable] never throws, and it answers [false] exactly for
    a missing or empty URL, a new-tab or homepage URL, a string that is not
    a URL, and a URL of the extension itself. *)
Theorem isURLStashable_decides
    (isNewTabURL : string → bool) (URL : Type) (new_URL : string → Exn + URL)
    (extension_base_url : string) (url_str : option string) :
  ∃ b, isURLStashable isNewTabURL URL new_URL extension_base_url url_str = inr b ∧
       (b = false ↔
        url_str = None ∨ url_str = Some "" ∨
        ∃ u, url_str = Some u ∧
             (isNewTabURL u = true ∨ (∃ e, new_URL u = inl e) ∨
              String.prefix extension_base_url u = true)).
Proof.
  destruct url_str as [[|c u]|]; simpl.
  - exists false. split; [done|]. split; [|done]. intros _. right. by left.
  - destruct (isNewTabURL (String c u)) eqn:Hnt.
    { exists false. split; [done|]. split; [|done]. intros _. right. right.
      exists (String c u). split; [done|]. by left. }
    destruct (new_URL (String c u)) as [e|url] eqn:Hurl.
    { exists false. split; [done|]. split; [|done]. intros _. right. right.
      exists (String c u). split; [done|]. right. left. by exists e. }
    exists (negb (String.prefix extension_base_url (String c u))).
    split; [done|]. rewrite negb_false_iff. split.
    + intros Hpre. right. right. exists (String c u). split; [done|].
      by right; right.
    + intros [?|[?|(u' & [= <-] & [?|[[e ?]|?]])]]; congruence.
  - exists false. split; [done|]. split; [|done]. intros _. by left.
Qed.

(** ** [copying] *)

Lemma elem_of_childrenOf bm n c :
  tree_ok bm → c ∈ childrenOf bm n →
  by_id bm !! id c = Some c ∧ parentId c = Some (id n).
Proof.
  intros Hok (k & Hk & Hc)%list_elem_of_omap.
  unfold children in Hk. destruct (by_parent bm !! id n) as [cs|] eqn:Hcs;
    [|by apply elem_of_nil in Hk].
  simpl in Hk. apply list_elem_of_lookup in Hk as [i Hi].
  destruct (t_down _ Hok _ _ _ _ Hcs Hi) as (c' & Hc' & Hp & _).
  assert (c' = c) as -> by congruence.
  by rewrite (t_id _ Hok _ _ Hc).
Qed.

Lemma copying_upto_spec bm :
  tree_ok bm →
  ∀ f d items,
    1 ≤ f → size (by_id bm) + 1 ≤ f + d →
    (∀ n, INode n ∈ items →
          (∃ dn, Depth bm (id n) dn ∧ d ≤ dn) ∨ (childrenOf bm n = [] ∧ 2 ≤ f)) →
    ∃ r, copying_upto f bm items = Some r ∧ Copies bm items r.
Proof.
  intros Hok f. induction f as [|f IHf]; intros d items Hf Hsize Hitems; [lia|].
  simpl. induction items as [|item rest IHrest].
  { exists []. split; [done|constructor]. }
  destruct IHrest as (r & Hr & Hcr).
  { intros n Hn. apply Hitems. by right. }
  simpl. rewrite Hr. destruct item as [i|t|n]; simpl.
  - exists (i :: r). split; [done|by constructor].
  - eexists. split; [done|by constructor].
  - destruct (payload n) as [u| |] eqn:Hpl; simpl.
    + eexists. split; [done|by constructor].
    + assert (∃ kids, copying_upto f bm (INode <$> childrenOf bm n) = Some kids ∧
                      Copies bm (INode <$> childrenOf bm n) kids)
        as (kids & Hkids & Hck).
      { destruct (Hitems n) as [(dn & Hdn & Hle)|[Hnil Hf2]]; [by left| |].
        - pose proof (Depth_lt_size _ _ _ Hdn).
          apply (IHf (S d)); [lia..|].
          intros c (c' & [= <-] & Hc)%list_elem_of_fmap.
          destruct (elem_of_childrenOf _ _ _ Hok Hc) as [Hcs Hcp].
          left. exists (S dn). split; [|lia].
          eapply Depth_child; [|done]. apply parent_of_Some. by exists c.
        - rewrite Hnil. apply (IHf (S d)); [lia..|].
          by intros c ?%elem_of_nil. }
      rewrite Hkids. simpl. eexists. split; [done|by constructor].
    + exists r. split; [done|by constructor].
Qed.

(** ** The cycle guard *)

Lemma check_cyclic_sources_throws cs items item w :
  INode item ∈ items → Bookmarks.isFolder item = true → id item ∈ cs →
  check_cyclic_sources cs items w
  = (w, Thrown (UserError "Cannot move a group into itself")).
Proof.
  intros Hin Hf Hcs. induction items as [|i rest IH]; [by apply elem_of_nil in Hin|].
  apply elem_of_cons in Hin as [<-|Hin].
  - simpl. rewrite Hf. simpl. by rewrite bool_decide_eq_true_2.
  - specialize (IH Hin). destruct i as [?|?|n]; simpl; [done..|].
    destruct (Bookmarks.isFolder n); simpl; [|done].
    by case_bool_decide.
Qed.

Lemma check_cyclic_sources_passes cs items w :
  (∀ n, INode n ∈ items → Bookmarks.isFolder n = true → id n ∉ cs) →
  check_cyclic_sources cs items w = (w, Returned tt).
Proof.
  induction items as [|i rest IH]; intros Hall; [done|].
  assert (check_cyclic_sources cs rest w = (w, Returned tt)) as IH'.
  { apply IH. intros n Hn. apply Hall. by right. }
  destruct i as [?|?|n]; simpl; [done..|].
  destruct (Bookmarks.isFolder n) eqn:Hf; simpl; [|done].
  rewrite bool_decide_eq_false_2; [done|]. apply Hall; [by left|done].
Qed.

(** C6.  When one of the items is a folder and the destination is that
    folder or lies below it, [putItemsInFolder] throws the user error
    "Cannot move a group into itself" before it issues any command: the
    bookmark store, and the rest of the world with it, are as they were. *)
Theorem putItemsInFolder_rejects_cycles
    (bookmarks_move : NodeID → NodeID → nat → M unit)
    (bookmarks_create : string → option string → NodeID → nat → M Node)
    (bookmarks_setSelected : list Node → bool → M unit)
    (hideOrCloseStashedTabs : list nat → M unit)
    (is_selected : StashItem → bool)
    (options : PutOptions) (w : World) (to_folder item : Node) :
  consistent (bookmarks w) →
  folder (bookmarks w) (toFolderId options) = Some to_folder →
  INode item ∈ items options → Bookmarks.isFolder item = true →
  id item = toFolderId options ∨ Anc (bookmarks w) (id item) (toFolderId options) →
  putItemsInFolder bookmarks_move bookmarks_create bookmarks_setSelected
    hideOrCloseStashedTabs is_selected options w
  = (w, Thrown (UserError "Cannot move a group into itself")).
Proof.
  intros [Hok _] Hto Hin Hf Hcyc.
  assert (by_id (bookmarks w) !! toFolderId options = Some to_folder) as Hstored.
  { unfold folder in Hto.
    destruct (by_id (bookmarks w) !! toFolderId options) as [n|]; [|done].
    destruct (Bookmarks.isFolder n); [done|discriminate]. }
  destruct (t_depth _ Hok _ (mk_is_Some _ _ Hstored)) as [d Hd].
  destruct (pathTo_spec _ _ _ _ Hok Hstored Hd) as (path & Hpath & _ & Hids).
  unfold putItemsInFolder, mbind, M_bind, get_bookmarks. rewrite Hto. simpl.
  rewrite Hpath.
  rewrite (check_cyclic_sources_throws _ _ item); [done..|].
  apply elem_of_app. destruct Hcyc as [Heq|Hanc].
  - right. apply list_elem_of_singleton.
    by rewrite (t_id _ Hok _ _ Hstored).
  - left. by apply Hids.
Qed.

Lemma putItemsInFolder_rejects_cycles_witness :
  let w := mkWorld Fixture.bms [] 0 [] in
  let stash_root := mkNode "stash_root" (Some "root") 3
                      Fixture.STASH_ROOT_NAME None Folder in
  recorded_putItemsInFolder (mkPutOptions [INode stash_root] "names" None false) w
  = (w, Thrown (UserError "Cannot move a group into itself")).
Proof.
  intros w stash_root.
  apply (putItemsInFolder_rejects_cycles _ _ _ _ _ _ w
           (mkNode "names" (Some "stash_root") 0 "Names" None Folder) stash_root).
  - apply load_consistent.
  - vm_compute. reflexivity.
  - by left.
  - reflexivity.
  - right. apply Anc_parent. vm_compute. reflexivity.
Defined.

(** A move that closes no cycle passes the guard: the recorded commands of
    the test's "moves bookmarks between folders". *)
Example putItemsInFolder_moves_a_node :
  let w := mkWorld Fixture.bms [] 0 [] in
  let bob := mkNode "bob" (Some "outside") 2 "Bob" None
               (Bookmark (Fixture.B "bob")) in
  recorded_putItemsInFolder (mkPutOptions [INode bob] "names" (Some 2) false) w
  = (mkWorld Fixture.bms [] 0 [CmdMove "bob" "names" 2; CmdCloseTabs []],
     Returned [bob]).
Proof. vm_compute. reflexivity. Qed.

(** ** The placement loop, for items that are not part of the model *)

Lemma NewItem_ind_kids (P : NewItem → Prop) :
  (∀ title url, P (NewTab title url)) →
  (∀ title kids, Forall P kids → P (NewFolder title kids)) →
  ∀ i, P i.
Proof.
  intros Ht Hf. fix F 1. intros [title url|title kids].
  - apply Ht.
  - apply Hf. induction kids as [|c l IH]; constructor; [apply F|apply IH].
Qed.

Section any_commands.
Variable bookmarks_move : NodeID → NodeID → nat → M unit.
Variable bookmarks_create : string → option string → NodeID → nat → M Node.
Variable bookmarks_setSelected : list Node → bool → M unit.
Variable hideOrCloseStashedTabs : list nat → M unit.
Variable is_selected : StashItem → bool.

Local Abbreviation put_loop' := (put_loop bookmarks_move bookmarks_create
                         bookmarks_setSelected is_selected).
Local Abbreviation create_each' := (create_each bookmarks_create bookmarks_setSelected).

(** For new items, with duplicates allowed, every round of the loop is a
    [createTree]. *)
Lemma put_loop_of_new_items (r : list NewItem) to_folder :
  ∀ to_index dont_steal_bms moved_items close_tab_ids w,
    put_loop' (INew <$> r) to_folder true to_index dont_steal_bms moved_items
      close_tab_ids w
    = (moved ← create_each' r to_folder to_index moved_items;
       mret (moved, close_tab_ids)) w.
Proof.
  induction r as [|i r IH]; intros to_index ds mv cl w; [done|].
  rewrite fmap_cons. simpl.
  unfold mbind, M_bind, get_bookmarks. simpl.
  assert (already_there (bookmarks w) to_folder true ds (INew i) = []) as ->.
  { unfold already_there. by destruct (item_url (INew i)). }
  simpl.
  destruct (createTree_new bookmarks_create i (id to_folder) to_index w)
    as [w1 [node| |]]; [|done..].
  simpl. destruct (bookmarks_setSelected [node] false w1) as [w2 [[]| |]];
    [|done..].
  apply IH.
Qed.

Lemma check_cyclic_sources_of_new_items cs (r : list NewItem) w :
  check_cyclic_sources cs (INew <$> r) w = (w, Returned tt).
Proof. induction r as [|i r IH]; [done|]. rewrite fmap_cons. simpl. apply IH. Qed.

Lemma putItemsInFolder_of_new_items (r : list NewItem) w to_folder to to_index :
  consistent (bookmarks w) →
  folder (bookmarks w) to = Some to_folder →
  putItemsInFolder bookmarks_move bookmarks_create bookmarks_setSelected
    hideOrCloseStashedTabs is_selected (mkPutOptions (INew <$> r) to to_index true) w
  = (moved ← create_each' r to_folder
               (default (length (children (bookmarks w) (id to_folder))) to_index) [];
     _ ← hideOrCloseStashedTabs [];
     mret moved) w.
Proof.
  intros [Hok _] Hto.
  assert (by_id (bookmarks w) !! to = Some to_folder) as Hstored.
  { unfold folder in Hto. destruct (by_id (bookmarks w) !! to) as [n|]; [|done].
    destruct (Bookmarks.isFolder n); [done|discriminate]. }
  destruct (t_depth _ Hok _ (mk_is_Some _ _ Hstored)) as [d Hd].
  destruct (pathTo_spec _ _ _ _ Hok Hstored Hd) as (path & Hpath & _ & _).
  unfold putItemsInFolder. unfold mbind at 1 2, M_bind at 1 2, get_bookmarks.
  simpl. rewrite Hto. simpl. rewrite Hpath.
  unfold mbind at 1, M_bind at 1. rewrite check_cyclic_sources_of_new_items.
  unfold mbind at 1, M_bind at 1. rewrite put_loop_of_new_items.
  unfold mbind, M_bind.
  by destruct (create_each' r to_folder _ [] w) as [w1 [moved| |]].
Qed.
End any_commands.


(** ** What the recording browser sees *)

Lemma issue_issue cs1 cs2 w : issue cs2 (issue cs1 w) = issue (cs1 ++ cs2) w.
Proof. unfold issue. simpl. by rewrite app_assoc. Qed.

Lemma issue_nil w : issue [] w = w.
Proof. destruct w. unfold issue. simpl. by rewrite app_nil_r. Qed.




(** ** [copying] and what [putItemsInFolder] does with its result *)



Example copying_outside :
  copying Fixture.bms
    [INode (mkNode "outside" (Some "root") 2 "Outside" None Folder)]
  = Some [NewFolder "Outside"
            [NewTab (Some "Alice") (Fixture.B "alice");
             NewTab (Some "Bob") (Fixture.B "bob");
             NewFolder "Empty Folder" []]].
Proof. vm_compute. reflexivity. Qed.


End model_claims.

(** * The expectations of [model/bookmarks.test.ts], replayed on the store *)

Section test_suite.
Import Bookmarks Fixture.

Ltac by_computation :=
  intros;
  repeat lazymatch goal with |- _ ∧ _ => split end;
  vm_compute; reflexivity.

Example loads_children_in_order :
  ids_and_indices bms "outside"
  = [("alice", Some 0); ("separator", Some 1); ("bob", Some 2); ("empty", Some 3)].
Proof. by_computation. Qed.

Example indexes_urls :
  bookmarksWithURL bms (B "doug") = {["doug_1"; "doug_2"]} ∧
  bookmarksWithURL bms (B "alice") = {["alice"]}.
Proof. by_computation. Qed.

Example inserts_bookmarks_into_the_tree :
  let s := after bms (Insert (mkNode "new" None 0 "New" None (Bookmark "/new"))
                        "root" 2) in
  ids_and_indices s "root"
  = [("doug_1", Some 0); ("francis", Some 1); ("new", Some 2);
     ("outside", Some 3); ("stash_root", Some 4)] ∧
  bookmarksWithURL s "/new" = {["new"]}.
Proof. by_computation. Qed.

Example inserts_duplicate_bookmarks_gracefully :
  let s := after bms (Insert (mkNode "alice" (Some "outside") 0 "The New A" None
                                (Bookmark "/new_a")) "outside" 0) in
  by_id s !! "alice"
  = Some (mkNode "alice" (Some "outside") 0 "The New A" None (Bookmark "/new_a")) ∧
  bookmarksWithURL s (B "alice") = ∅ ∧
  bookmarksWithURL s "/new_a" = {["alice"]} ∧
  children s "outside" = ["alice"; "separator"; "bob"; "empty"].
Proof. by_computation. Qed.

Example updates_bookmarks :
  let s := after bms (Update "alice" (mkPatch (Some "The New A") (Some "/new_a"))) in
  by_id s !! "alice"
  = Some (mkNode "alice" (Some "outside") 0 "The New A" None (Bookmark "/new_a")) ∧
  bookmarksWithURL s (B "alice") = ∅ ∧
  bookmarksWithURL s "/new_a" = {["alice"]} ∧
  children s "outside" = ["alice"; "separator"; "bob"; "empty"].
Proof. by_computation. Qed.

Example removes_bookmarks_idempotently :
  let s := run bms [Remove "bob"; Remove "bob"] in
  by_id s !! "bob" = None ∧
  bookmarksWithURL s (B "bob") = ∅ ∧
  ids_and_indices s "outside"
  = [("alice", Some 0); ("separator", Some 1); ("empty", Some 2)].
Proof. by_computation. Qed.

Example removes_folders_idempotently :
  let s := run bms [RemoveTree "names"; RemoveTree "names"] in
  (λ k, by_id s !! k) <$> ["names"; "doug_2"; "helen"; "patricia"; "nate"]
  = [None; None; None; None; None] ∧
  bookmarksWithURL s (B "helen") = ∅ ∧
  bookmarksWithURL s (B "doug") = {["doug_1"]} ∧
  children s "names" = [] ∧
  children s "stash_root" = ["unnamed"].
Proof. by_computation. Qed.

Example remove_of_a_folder_with_children_fails :
  apply bms (Remove "names") = Err StructuralViolation.
Proof. by_computation. Qed.

Example reorders_bookmarks_backward :
  ids_and_indices (after bms (Move "empty" "outside" 0)) "outside"
  = [("empty", Some 0); ("alice", Some 1); ("separator", Some 2); ("bob", Some 3)].
Proof. by_computation. Qed.

Example moves_bookmarks_between_folders :
  let s := after bms (Move "bob" "names" 2) in
  ids_and_indices s "outside"
  = [("alice", Some 0); ("separator", Some 1); ("empty", Some 2)] ∧
  ids_and_indices s "names"
  = [("doug_2", Some 0); ("helen", Some 1); ("bob", Some 2);
     ("patricia", Some 3); ("nate", Some 4)].
Proof. by_computation. Qed.

Example move_into_own_subtree_fails :
  apply bms (Move "stash_root" "names" 0) = Err StructuralViolation ∧
  apply bms (Move "names" "names" 0) = Err StructuralViolation.
Proof. by_computation. Qed.

Example path_to_a_bookmark :
  path_ids <$> pathTo bms (mkNode "helen" (Some "names") 1 "Helen Hidden" None
                             (Bookmark (B "helen")))
  = Some ["tree_root"; "root"; "stash_root"; "names"].
Proof. by_computation. Qed.

Example finds_the_stash_root_during_construction :
  id <$> stash_root STASH_ROOT_NAME bms = Some "stash_root" ∧
  stash_root_warning STASH_ROOT_NAME bms = false.
Proof. by_computation. Qed.

Example loses_the_stash_root_when_it_is_renamed :
  let s := after bms (Update "stash_root" (mkPatch (Some "Old Root") None)) in
  stash_root STASH_ROOT_NAME s = None ∧
  stash_root_warning STASH_ROOT_NAME s = false.
Proof. by_computation. Qed.

Example finds_multiple_stash_roots_at_the_same_level :
  let s := after bms (Insert (mkNode "second" None 0 STASH_ROOT_NAME None Folder)
                        "root" 4) in
  id <$> stash_root STASH_ROOT_NAME s = Some "second" ∧
  stash_root_warning STASH_ROOT_NAME s = true.
Proof. by_computation. Qed.

Example finds_the_topmost_stash_root :
  let s := after bms (Insert (mkNode "second" None 0 STASH_ROOT_NAME None Folder)
                        "outside" 4) in
  id <$> stash_root STASH_ROOT_NAME s = Some "stash_root" ∧
  length (candidates STASH_ROOT_NAME s) = 2 ∧
  stash_root_warning STASH_ROOT_NAME s = false.
Proof. by_computation. Qed.

Example follows_the_topmost_stash_root :
  let s := run bms [Move "stash_root" "outside" 4;
                    Insert (mkNode "second" None 0 STASH_ROOT_NAME None Folder)
                      "root" 3] in
  id <$> stash_root STASH_ROOT_NAME s = Some "second" ∧
  stash_root_warning STASH_ROOT_NAME s = false.
Proof. by_computation. Qed.
End test_suite.

(** * More of the top-level model and of the folder view: what they do *)

Section put_extras.
Import Bookmarks Model ModelOps.

Lemma emits_ret bm P {A} (a : A) (Q : A → Prop) : Q a → emits bm P (mret a) Q.
Proof.
  intros HQ w _. exists [], a. split_and!; [|constructor|done].
  unfold mret, M_ret. by rewrite issue_nil.
Qed.

Lemma emits_bind bm P {A B} (m : M A) (k : A → M B) (Q : A → Prop) (R : B → Prop) :
  emits bm P m Q → (∀ a, Q a → emits bm P (k a) R) → emits bm P (m ≫= k) R.
Proof.
  intros Hm Hk w Hw. destruct (Hm w Hw) as (cs1 & a & Hrun & HP1 & HQ).
  destruct (Hk a HQ (issue cs1 w)) as (cs2 & b & Hrun2 & HP2 & HR); [done|].
  exists (cs1 ++ cs2), b. split_and!; [|by apply Forall_app|done].
  unfold mbind, M_bind. rewrite Hrun, Hrun2. by rewrite issue_issue.
Qed.

Lemma emits_get bm P : emits bm P get_bookmarks (λ s, s = bm).
Proof.
  intros w Hw. exists [], (bookmarks w). split_and!; [|constructor|done].
  unfold get_bookmarks. by rewrite issue_nil.
Qed.

Lemma emits_record bm (P : Command → Prop) c : P c → emits bm P (record c) (λ _, True).
Proof. intros HP w _. exists [c], tt. split_and!; [done|by constructor|done]. Qed.

Lemma emits_mono bm P {A} (m : M A) (Q R : A → Prop) :
  emits bm P m Q → (∀ a, Q a → R a) → emits bm P m R.
Proof.
  intros Hm HQR w Hw. destruct (Hm w Hw) as (cs & a & ? & ? & ?).
  exists cs, a. auto.
Qed.


Local Abbreviation quiet := (λ c, is_closeTabs c = false).

Lemma emits_recorded_create bm (P : Command → Prop) title url p idx :
  P (CmdCreate title url p idx) →
  emits bm P (recorded_create title url p idx) (λ _, True).
Proof.
  intros HP. unfold recorded_create.
  eapply emits_bind; [by apply emits_record|]. intros _ _. by apply emits_ret.
Qed.

Lemma emits_createTree_new bm (P : Command → Prop) i :
  (∀ title url p idx, P (CmdCreate title url p idx)) →
  ∀ p idx, emits bm P (createTree_new recorded_create i p idx) (λ _, True).
Proof.
  intros HP.
  induction i as [title url|title kids IH] using NewItem_ind_kids; intros p idx.
  - by apply emits_recorded_create.
  - simpl. eapply emits_bind; [by apply emits_recorded_create|].
    intros node _. eapply emits_bind; [|intros _ _; by apply emits_ret].
    generalize 0. induction IH as [|c l Hc _ IHl]; intros j.
    + by apply (emits_ret _ _ _ (λ _, True)).
    + eapply emits_bind; [apply Hc|]. intros _ _. apply IHl.
Qed.

Lemma emits_move_children bm (P : Command → Prop) kids p :
  (∀ k q i, P (CmdMove k q i)) →
  ∀ idx, emits bm P (move_children recorded_move kids p idx) (λ _, True).
Proof.
  intros HP. induction kids as [|c rest IH]; intros idx; simpl.
  - by apply emits_ret.
  - eapply emits_bind; [by apply emits_record|]. intros _ _. apply IH.
Qed.

Lemma emits_createTree bm item p idx :
  emits bm quiet (createTree recorded_move recorded_create item p idx) (λ _, True).
Proof.
  destruct item as [i|t|n]; simpl.
  - by apply emits_createTree_new.
  - by apply emits_recorded_create.
  - destruct (payload n); [by apply emits_recorded_create|
                           |by apply emits_recorded_create].
    eapply emits_bind; [by apply emits_recorded_create|]. intros node _.
    eapply emits_bind; [apply emits_get|]. intros s _.
    eapply emits_bind; [by apply emits_move_children|]. intros _ _.
    by apply emits_ret.
Qed.

Lemma emits_create_each bm (P : Command → Prop) r to_folder :
  (∀ title url p idx, P (CmdCreate title url p idx)) →
  (∀ ks b, P (CmdSetSelected ks b)) →
  ∀ to_index moved_items,
    emits bm P
      (create_each recorded_create recorded_setSelected r to_folder to_index
         moved_items)
      (λ moved, length moved = length moved_items + length r).
Proof.
  intros HPc HPs. induction r as [|i r IH]; intros to_index mv; simpl.
  - apply emits_ret. lia.
  - eapply emits_bind; [by apply emits_createTree_new|]. intros node _.
    eapply emits_bind; [by apply emits_record|]. intros _ _.
    eapply emits_mono; [apply IH|]. intros moved. rewrite length_app. simpl. lia.
Qed.

(** Every round of the loop returns, adds one node to the moved items and
    the id of the item, when it is a tab, to the tabs to close. *)
Lemma emits_put_loop bm items to_folder allow :
  ∀ to_index dont_steal_bms moved_items close_tab_ids,
    emits bm quiet
      (put_loop recorded_move recorded_create recorded_setSelected (λ _, false)
         items to_folder allow to_index dont_steal_bms moved_items close_tab_ids)
      (λ r, length r.1 = length moved_items + length items ∧
            r.2 = close_tab_ids ++ tab_ids items).
Proof.
  induction items as [|item rest IH]; intros to_index ds mv cl.
  { simpl. apply emits_ret. simpl. split; [lia|by rewrite app_nil_r]. }
  cbn [put_loop]. eapply emits_bind; [apply emits_get|]. intros s _.
  destruct (model_node s item) as [model_item|] eqn:Hmodel.
  - assert (tab_ids (item :: rest) = tab_ids rest) as ->.
    { by destruct item. }
    eapply emits_bind; [by apply emits_record|]. intros _ _.
    eapply emits_mono; [apply IH|]. intros [m c]. simpl.
    rewrite length_app. simpl. intros [? ?]. split; [lia|done].
  - eapply emits_bind.
    { instantiate (1 := λ _, True).
      destruct (already_there s to_folder allow ds item) as [|node ?].
      - eapply emits_bind; [apply emits_createTree|]. intros node _.
        by apply emits_ret.
      - eapply emits_bind; [by apply emits_record|]. intros _ _.
        by apply emits_ret. }
    intros [node idx] _.
    eapply emits_bind; [by apply emits_record|]. intros _ _.
    eapply emits_mono; [apply IH|]. intros [m c]. simpl.
    rewrite length_app. simpl. intros [? ->]. split; [lia|].
    destruct item as [i|t|n]; simpl; [done| |done].
    by rewrite <-app_assoc.
Qed.


(** X1.  When the destination is not a folder of the bookmark model,
    [putItemsInFolder] throws [Destination folder does not exist], with the
    id asked for, before any command is sent: the world is left as it was. *)
Theorem putItemsInFolder_missing_destination
    (bookmarks_move : NodeID → NodeID → nat → M unit)
    (bookmarks_create : string → option string → NodeID → nat → M Node)
    (bookmarks_setSelected : list Node → bool → M unit)
    (hideOrCloseStashedTabs : list nat → M unit)
    (is_selected : StashItem → bool)
    (options : PutOptions) (w : World) :
  folder (bookmarks w) (toFolderId options) = None →
  putItemsInFolder bookmarks_move bookmarks_create bookmarks_setSelected
    hideOrCloseStashedTabs is_selected options w
  = (w, Thrown (JsError ("Destination folder does not exist: "
                         +:+ toFolderId options))).
Proof.
  intros Hto. unfold putItemsInFolder, mbind, M_bind, get_bookmarks.
  by rewrite Hto.
Qed.

Lemma putItemsInFolder_missing_destination_witness :
  let w := mkWorld Fixture.bms [] 0 [] in
  recorded_putItemsInFolder
    (mkPutOptions [ITab (mkTab 1 None "http://example.com/")] "alice" None false) w
  = (w, Thrown (JsError "Destination folder does not exist: alice")).
Proof.
  intros w.
  apply (putItemsInFolder_missing_destination _ _ _ _ _
           (mkPutOptions [ITab (mkTab 1 None "http://example.com/")] "alice" None false) w).
  vm_compute. reflexivity.
Defined.

Lemma putItemsInFolder_passes_the_guard
    (bookmarks_move : NodeID → NodeID → nat → M unit)
    (bookmarks_create : string → option string → NodeID → nat → M Node)
    (bookmarks_setSelected : list Node → bool → M unit)
    (hideOrCloseStashedTabs : list nat → M unit)
    (is_selected : StashItem → bool)
    (options : PutOptions) (w : World) (to_folder : Node) :
  consistent (bookmarks w) →
  folder (bookmarks w) (toFolderId options) = Some to_folder →
  (∀ n, INode n ∈ items options → Bookmarks.isFolder n = true →
        id n ≠ toFolderId options ∧
        ¬ Anc (bookmarks w) (id n) (toFolderId options)) →
  putItemsInFolder bookmarks_move bookmarks_create bookmarks_setSelected
    hideOrCloseStashedTabs is_selected options w
  = ('(moved_items, close_tab_ids) ←
       put_loop bookmarks_move bookmarks_create bookmarks_setSelected is_selected
         (items options) to_folder (allowDuplicates options)
         (default (length (children (bookmarks w) (id to_folder))) (toIndex options))
         (list_to_set
            (filterMap (items options)
               (λ i, match i with INode n => Some (id n) | _ => None end)))
         [] [];
     _ ← hideOrCloseStashedTabs close_tab_ids;
     mret moved_items) w.
Proof.
  intros [Hok _] Hto Hsafe.
  assert (by_id (bookmarks w) !! toFolderId options = Some to_folder) as Hstored.
  { unfold folder in Hto.
    destruct (by_id (bookmarks w) !! toFolderId options) as [n|]; [|done].
    destruct (Bookmarks.isFolder n); [done|discriminate]. }
  destruct (t_depth _ Hok _ (mk_is_Some _ _ Hstored)) as [d Hd].
  destruct (pathTo_spec _ _ _ _ Hok Hstored Hd) as (path & Hpath & _ & Hids).
  unfold putItemsInFolder. unfold mbind at 1 2, M_bind at 1 2, get_bookmarks.
  simpl. rewrite Hto. simpl. rewrite Hpath.
  unfold mbind at 1, M_bind at 1.
  rewrite check_cyclic_sources_passes; [done|].
  intros n Hn Hf [Hp|Hp%list_elem_of_singleton]%elem_of_app.
  - apply Hids in Hp. by destruct (Hsafe n Hn Hf).
  - rewrite (t_id _ Hok _ _ Hstored) in Hp. by destruct (Hsafe n Hn Hf).
Qed.

(** X2.  When no folder among the items is the destination or above it,
    [putItemsInFolder] returns one node per item, and its last command, the
    only one of its kind, closes the tabs among the items, in their order. *)
Theorem putItemsInFolder_closes_the_tabs_it_stashed
    (options : PutOptions) (w : World) (to_folder : Node) :
  consistent (bookmarks w) →
  folder (bookmarks w) (toFolderId options) = Some to_folder →
  (∀ n, INode n ∈ items options → Bookmarks.isFolder n = true →
        id n ≠ toFolderId options ∧
        ¬ Anc (bookmarks w) (id n) (toFolderId options)) →
  ∃ cs moved,
    recorded_putItemsInFolder options w
    = (issue (cs ++ [CmdCloseTabs (tab_ids (items options))]) w, Returned moved) ∧
    Forall (λ c, is_closeTabs c = false) cs ∧
    length moved = length (items options).
Proof.
  intros Hs Hto Hsafe. unfold recorded_putItemsInFolder.
  rewrite (putItemsInFolder_passes_the_guard _ _ _ _ _ _ _ to_folder);
    [|done..].
  destruct (emits_put_loop (bookmarks w) (items options) to_folder
              (allowDuplicates options)
              (default (length (children (bookmarks w) (id to_folder)))
                 (toIndex options))
              (list_to_set
                 (filterMap (items options)
                    (λ i, match i with INode n => Some (id n) | _ => None end)))
              [] [] w eq_refl)
    as (cs & [moved close] & Hrun & Hcs & Hlen & Hclose).
  simpl in Hlen, Hclose. subst close.
  exists cs, moved. split_and!; [|done..].
  unfold mbind, M_bind. rewrite Hrun. simpl.
  unfold recorded_closeTabs, record. by rewrite issue_issue.
Qed.

Lemma putItemsInFolder_closes_the_tabs_it_stashed_witness :
  let w := mkWorld Fixture.bms [] 0 [] in
  let its := [ITab (mkTab 7 (Some "Seven") "http://example.com/7");
              INew (NewTab None "http://example.com/new");
              ITab (mkTab 9 (Some "Nine") "http://example.com/9")] in
  ∃ cs moved,
    recorded_putItemsInFolder (mkPutOptions its "names" None false) w
    = (issue (cs ++ [CmdCloseTabs [7; 9]]) w, Returned moved) ∧
    Forall (λ c, is_closeTabs c = false) cs ∧
    length moved = 3.
Proof.
  intros w its.
  apply (putItemsInFolder_closes_the_tabs_it_stashed
           (mkPutOptions its "names" None false) w
           (mkNode "names" (Some "stash_root") 0 "Names" None Folder)).
  - apply load_consistent.
  - vm_compute. reflexivity.
  - intros n Hn. exfalso. simpl in Hn.
    repeat (apply elem_of_cons in Hn as [Hn|Hn]; [discriminate Hn|]).
    by apply elem_of_nil in Hn.
Defined.







Lemma folder_stored bm k f : folder bm k = Some f → by_id bm !! k = Some f.
Proof.
  unfold folder. destruct (by_id bm !! k) as [n|]; [|done].
  by destruct (Bookmarks.isFolder n).
Qed.





End put_extras.

Section reuse_extras.
Import Bookmarks Model ModelOps.

(** X5.  No duplicate is made of a bookmark that is already in the folder.
    For a tab or a new item whose URL and title a bookmark of the destination
    has, such a bookmark is moved to the insertion point; nothing is
    created. *)
Theorem putItemsInFolder_reuses_a_bookmark_already_there
    (item : StashItem) (u : string) (to : NodeID) (toIndex : option nat)
    (w : World) (to_folder c : Node) :
  consistent (bookmarks w) →
  folder (bookmarks w) to = Some to_folder →
  isNode item = false → item_url item = Some u →
  c ∈ childrenOf (bookmarks w) to_folder →
  payload c = Bookmark u →
  title_matches (item_title item) (title c) = true →
  ∃ c', c' ∈ childrenOf (bookmarks w) to_folder ∧
        payload c' = Bookmark u ∧
        recorded_putItemsInFolder (mkPutOptions [item] to toIndex false) w
        = (issue [CmdMove (id c') to
                    (default (length (children (bookmarks w) to)) toIndex);
                  CmdSetSelected [id c'] false;
                  CmdCloseTabs (tab_ids [item])] w,
           Returned [c']).
Proof.
  intros Hs Hto Hnode Hu Hc Hpl Htitle. pose proof Hs as [Hok _].
  pose proof (t_id _ Hok _ _ (folder_stored _ _ _ Hto)) as Hid.
  assert (model_node (bookmarks w) item = None) as Hmodel
    by (by destruct item).
  assert (c ∈ already_there (bookmarks w) to_folder false
                (list_to_set
                   (filterMap [item]
                      (λ i, match i with INode n => Some (id n) | _ => None end)))
                item) as Hthere.
  { unfold already_there. rewrite Hu. apply list_elem_of_filter.
    split; [|done]. split_and!; [|done..].
    destruct item; [|
                    |done]; simpl; set_solver. }
  destruct (already_there _ _ _ _ item) as [|c' rest] eqn:Hal;
    [by apply elem_of_nil in Hthere|].
  assert (c' ∈ already_there (bookmarks w) to_folder false
                 (list_to_set
                    (filterMap [item]
                       (λ i, match i with INode n => Some (id n) | _ => None end)))
                 item) as Hc' by (rewrite Hal; by left).
  unfold already_there in Hc'. rewrite Hu in Hc'.
  apply list_elem_of_filter in Hc' as [(_ & Hpl' & _) Hin'].
  exists c'. split_and!; [done..|].
  unfold recorded_putItemsInFolder.
  rewrite (putItemsInFolder_passes_the_guard _ _ _ _ _ _ _ to_folder); [|done..|].
  - cbn [items toFolderId Model.toIndex allowDuplicates put_loop].
    unfold mbind, M_bind, get_bookmarks. cbn beta iota.
    rewrite Hmodel, Hal.
    unfold recorded_move, recorded_setSelected, recorded_closeTabs, record,
      mret, M_ret. cbn beta iota.
    rewrite !issue_issue, Hid. simpl.
    assert (isModelItem item && false = false) as -> by (by destruct (isModelItem item)).
    do 3 f_equal. by destruct item.
  - cbn [items]. intros n Hn. apply list_elem_of_singleton in Hn. subst item.
    done.
Qed.

Lemma putItemsInFolder_reuses_a_bookmark_already_there_witness :
  let w := mkWorld Fixture.bms [] 0 [] in
  let outside := mkNode "outside" (Some "root") 2 "Outside" None Folder in
  let item := ITab (mkTab 8 (Some "Bob") (Fixture.B "bob")) in
  ∃ c', c' ∈ childrenOf (bookmarks w) outside ∧
        payload c' = Bookmark (Fixture.B "bob") ∧
        recorded_putItemsInFolder (mkPutOptions [item] "outside" (Some 0) false) w
        = (issue [CmdMove (id c') "outside"
                    (default (length (children (bookmarks w) "outside")) (Some 0));
                  CmdSetSelected [id c'] false;
                  CmdCloseTabs (tab_ids [item])] w,
           Returned [c']).
Proof.
  intros w outside item.
  apply (putItemsInFolder_reuses_a_bookmark_already_there item (Fixture.B "bob")
           "outside" (Some 0) w outside
           (mkNode "bob" (Some "outside") 2 "Bob" None (Bookmark (Fixture.B "bob")))).
  - apply load_consistent.
  - vm_compute. reflexivity.
  - reflexivity.
  - reflexivity.
  - apply list_elem_of_omap. exists "bob". split; vm_compute;
      [|reflexivity]. do 2 right. by left.
  - reflexivity.
  - vm_compute. reflexivity.
Defined.

End reuse_extras.

Section copying_extras.
Import Bookmarks Model ModelOps.

Lemma copying_upto_new_items fuel bm (r : list NewItem) :
  copying_upto (S fuel) bm (INew <$> r) = Some r.
Proof.
  induction r as [|i r IH]; [done|].
  rewrite fmap_cons. simpl in *. by rewrite IH.
Qed.

Lemma copying_returns bm items :
  consistent bm → ∃ r, copying bm items = Some r ∧ Copies bm items r.
Proof.
  intros [Hok _].
  apply (copying_upto_spec bm Hok (size (by_id bm) + 2) 0 items); [lia..|].
  intros n _. destruct (by_id bm !! id n) as [n'|] eqn:Hn.
  - destruct (t_depth _ Hok _ (mk_is_Some _ _ Hn)) as [dn Hdn].
    left. exists dn. split; [done|lia].
  - right. split; [|lia]. unfold childrenOf, children.
    destruct (by_parent bm !! id n) as [cs|] eqn:Hcs; [|done].
    destruct (proj1 (t_folder _ Hok (id n)) (mk_is_Some _ _ Hcs))
      as (? & ? & _). congruence.
Qed.

(** X6.  [copying] hands new items back as they are, so a copy of a copy is
    the copy. *)
Theorem copying_leaves_new_items_alone bm (r : list NewItem) :
  copying bm (INew <$> r) = Some r.
Proof.
  unfold copying. replace (size (by_id bm) + 2) with (S (size (by_id bm) + 1))
    by lia.
  apply copying_upto_new_items.
Qed.

Lemma Copies_top_level bm items r :
  Copies bm items r →
  length r = length (filter (λ i, is_separator i = false) items) ∧
  omap (λ i, item_url (INew i)) r = omap item_url items.
Proof.
  induction 1 as [|i items r _ [IH1 IH2]|t items r _ [IH1 IH2]
                  |n u items r Hpl _ [IH1 IH2]|n kids items r Hpl _ _ _ [IH1 IH2]
                  |n items r Hpl _ [IH1 IH2]].
  - done.
  - rewrite filter_cons_True by done. split; [simpl; by rewrite IH1|].
    cbn -[item_url]. by rewrite IH2.
  - rewrite filter_cons_True by done. split; [simpl; by rewrite IH1|].
    cbn -[item_url]. by rewrite IH2.
  - rewrite filter_cons_True by (simpl; unfold isSeparator; by rewrite Hpl).
    split; [simpl; by rewrite IH1|].
    cbn -[item_url]. rewrite IH2. simpl. by rewrite Hpl.
  - rewrite filter_cons_True by (simpl; unfold isSeparator; by rewrite Hpl).
    split; [simpl; by rewrite IH1|].
    cbn -[item_url]. rewrite IH2. simpl. by rewrite Hpl.
  - rewrite filter_cons_False
      by (simpl; unfold isSeparator; rewrite Hpl; discriminate).
    split; [done|].
    cbn -[item_url]. rewrite IH2. simpl. by rewrite Hpl.
Qed.

(** X7.  At the top level [copying] leaves out the separators and nothing
    else, and keeps the URLs in their order. *)
Theorem copying_leaves_out_separators_only bm items :
  consistent bm →
  ∃ r, copying bm items = Some r ∧
       length r = length (filter (λ i, is_separator i = false) items) ∧
       omap (λ i, item_url (INew i)) r = omap item_url items.
Proof.
  intros Hs. destruct (copying_returns bm items Hs) as (r & Hr & Hc).
  exists r. split; [done|]. by apply (Copies_top_level bm).
Qed.

Lemma copying_leaves_out_separators_only_witness :
  let its := INode <$> childrenOf Fixture.bms
                         (mkNode "outside" (Some "root") 2 "Outside" None Folder) in
  ∃ r, copying Fixture.bms its = Some r ∧
       length r = length (filter (λ i, is_separator i = false) its) ∧
       omap (λ i, item_url (INew i)) r = omap item_url its.
Proof.
  intros its. apply (copying_leaves_out_separators_only Fixture.bms its).
  apply load_consistent.
Defined.

End copying_extras.

Section stashable_extras.
Import Bookmarks Model ModelOps.
Variable isNewTabURL : string → bool.
Variable URL : Type.
Variable new_URL : string → Exn + URL.
Variable extension_base_url : string.
Variable Window : Type.
Variable tabs_window : nat → option Window.
Variable tabsIn : Window → list OpenTab.

Local Abbreviation stashable_url t :=
  (isURLStashable isNewTabURL URL new_URL extension_base_url
     (Some (tab_url (tab t)))).

Lemma isURLStashable_returns url_str :
  ∃ b, isURLStashable isNewTabURL URL new_URL extension_base_url url_str = inr b.
Proof.
  destruct url_str as [[|c u]|]; simpl; [by eexists| |by eexists].
  destruct (isNewTabURL (String c u)); [by eexists|].
  destruct (new_URL (String c u)); by eexists.
Qed.

Lemma filterE_spec {A} (p : A → Exn + bool) (l : list A) :
  (∀ x, ∃ b, p x = inr b) →
  ∃ r, filterE p l = inr r ∧ r `sublist_of` l ∧
       ∀ x, x ∈ r ↔ x ∈ l ∧ p x = inr true.
Proof.
  intros Hp. induction l as [|x l (r & Hr & Hsub & Hin)]; simpl.
  { exists []. split_and!; [done..|]. intros x. split; [by intros ?%elem_of_nil|].
    by intros [?%elem_of_nil _]. }
  destruct (Hp x) as [b Hb]. rewrite Hb, Hr. destruct b.
  - exists (x :: r). split_and!; [done|by apply sublist_skip|].
    intros y. rewrite !elem_of_cons, Hin. split.
    + intros [->|[? ?]]; split; auto.
    + intros [[->|?] ?]; auto.
  - exists r. split_and!; [done|by apply sublist_cons|].
    intros y. rewrite elem_of_cons, Hin. split.
    + intros [? ?]. auto.
    + intros [[->|?] ?]; [congruence|auto].
Qed.

Lemma stashableTabsInWindow_spec windowId win :
  tabs_window windowId = Some win →
  ∃ r, stashableTabsInWindow isNewTabURL URL new_URL extension_base_url
         Window tabs_window tabsIn windowId = inr r ∧
       r `sublist_of` tabsIn win ∧
       ∀ t, t ∈ r ↔
            t ∈ tabsIn win ∧ hidden t = false ∧ pinned t = false ∧
            if decide (2 ≤ length (filter (λ t, hidden t = false ∧
                                                highlighted t = true)
                                     (tabsIn win)))
            then highlighted t = true
            else stashable_url t = inr true.
Proof.
  intros Hwin. unfold stashableTabsInWindow. rewrite Hwin.
  set (tabs := filter (λ t, hidden t = false) (tabsIn win)).
  assert (filter (λ t, highlighted t = true) tabs
          = filter (λ t, hidden t = false ∧ highlighted t = true) (tabsIn win))
    as Hsel.
  { unfold tabs. rewrite list_filter_filter. apply list_filter_iff.
    intros t. tauto. }
  rewrite Hsel.
  set (n := length (filter (λ t, hidden t = false ∧ highlighted t = true)
                      (tabsIn win))).
  destruct (decide (n ≤ 1)) as [Hfew|Hmany].
  - destruct (filterE_spec (λ t, stashable_url t) tabs) as (r & Hr & Hsub & Hin).
    { intros t. apply isURLStashable_returns. }
    rewrite Hr. eexists. split; [done|]. split.
    + etrans; [apply sublist_filter|]. etrans; [exact Hsub|].
      apply sublist_filter.
    + intros t. rewrite list_elem_of_filter, Hin. unfold tabs.
      rewrite list_elem_of_filter. rewrite decide_False by lia. tauto.
  - eexists. split; [done|]. split.
    + etrans; [apply sublist_filter|]. apply sublist_filter.
    + intros t. rewrite !list_elem_of_filter. rewrite decide_True by lia. tauto.
Qed.

(** X8.  Hidden and pinned tabs are never among the tabs to stash, and the
    tabs to stash come in the order of the window. *)
Theorem stashableTabsInWindow_never_hidden_or_pinned windowId win :
  tabs_window windowId = Some win →
  ∃ r, stashableTabsInWindow isNewTabURL URL new_URL extension_base_url
         Window tabs_window tabsIn windowId = inr r ∧
       r `sublist_of` tabsIn win ∧
       Forall (λ t, hidden t = false ∧ pinned t = false) r.
Proof.
  intros Hwin. destruct (stashableTabsInWindow_spec _ _ Hwin) as (r & Hr & Hsub & Hin).
  exists r. split_and!; [done..|]. apply Forall_forall. intros t Ht.
  apply Hin in Ht. tauto.
Qed.

(** X9.  An explicit selection is respected.  With two or more visible tabs
    highlighted (pinned ones count), the tabs to stash are the highlighted
    ones, whatever their URLs; with fewer, they are the tabs with a
    stashable URL, highlighted or not. *)
Theorem stashableTabsInWindow_respects_the_selection windowId win :
  tabs_window windowId = Some win →
  ∃ r, stashableTabsInWindow isNewTabURL URL new_URL extension_base_url
         Window tabs_window tabsIn windowId = inr r ∧
       ∀ t, t ∈ r ↔
            t ∈ tabsIn win ∧ hidden t = false ∧ pinned t = false ∧
            if decide (2 ≤ length (filter (λ t, hidden t = false ∧
                                                highlighted t = true)
                                     (tabsIn win)))
            then highlighted t = true
            else stashable_url t = inr true.
Proof.
  intros Hwin. destruct (stashableTabsInWindow_spec _ _ Hwin) as (r & Hr & _ & Hin).
  by exists r.
Qed.






(** X11.  Stashing from a window the tab model does not know.  The error is
    logged and a reload started; nothing is issued and, the promise being
    dropped, nothing is thrown. *)
Theorem stash_from_an_unknown_window
    (bookmarks_move : NodeID → NodeID → nat → M unit)
    (bookmarks_create : string → option string → NodeID → nat → M Node)
    (bookmarks_setSelected : list Node → bool → M unit)
    (hideOrCloseStashedTabs : list nat → M unit)
    (is_selected : StashItem → bool)
    (this_folder : Node) (targetWindow : option nat) (altKey : bool)
    (win_id : nat) (w : World) :
  targetWindow = Some (S win_id) →
  tabs_window (S win_id) = None →
  FolderVue.stash this_folder targetWindow
    bookmarks_move bookmarks_create bookmarks_setSelected hideOrCloseStashedTabs
    is_selected isNewTabURL URL new_URL extension_base_url
    Window tabs_window tabsIn altKey w
  = (mkWorld (bookmarks w)
       (logged w ++ [JsError ("Trying to stash tabs to unknown window "
                              +:+ pretty (S win_id))])
       (S (reloads w)) (commands w),
     Returned tt).
Proof.
  intros -> Hwin.
  unfold FolderVue.stash, not_awaited, attempt, try_catch, FolderVue.stash_task.
  unfold mbind at 1, M_bind at 1. unfold stashableTabsInWindow. by rewrite Hwin.
Qed.

End stashable_extras.

Section stashable_witnesses.
Import Bookmarks Model ModelOps.

Lemma stashableTabsInWindow_never_hidden_or_pinned_witness :
  ∃ r, stashableTabsInWindow Sample.isNewTabURL string Sample.new_URL
         Sample.extension_base_url (list OpenTab) Sample.tabs_window
         Sample.tabsIn 1 = inr r ∧
       r `sublist_of` Sample.tabsIn Sample.window_1 ∧
       Forall (λ t, hidden t = false ∧ pinned t = false) r.
Proof.
  apply (stashableTabsInWindow_never_hidden_or_pinned Sample.isNewTabURL string
           Sample.new_URL Sample.extension_base_url (list OpenTab)
           Sample.tabs_window Sample.tabsIn 1 Sample.window_1).
  reflexivity.
Defined.

Lemma stashableTabsInWindow_respects_the_selection_witness :
  ∃ r, stashableTabsInWindow Sample.isNewTabURL string Sample.new_URL
         Sample.extension_base_url (list OpenTab) Sample.tabs_window
         Sample.tabsIn 1 = inr r ∧
       ∀ t, t ∈ r ↔
            t ∈ Sample.tabsIn Sample.window_1 ∧ hidden t = false ∧
            pinned t = false ∧
            if decide (2 ≤ length (filter (λ t, hidden t = false ∧
                                                highlighted t = true)
                                     (Sample.tabsIn Sample.window_1)))
            then highlighted t = true
            else isURLStashable Sample.isNewTabURL string Sample.new_URL
                   Sample.extension_base_url (Some (tab_url (tab t))) = inr true.
Proof.
  apply (stashableTabsInWindow_respects_the_selection Sample.isNewTabURL string
           Sample.new_URL Sample.extension_base_url (list OpenTab)
           Sample.tabs_window Sample.tabsIn 1 Sample.window_1).
  reflexivity.
Defined.

(** The pinned tab in focus and one tab highlighted beside it: that tab is
    stashed, and no other. *)
Example stashable_tabs_of_the_sample_window :
  stashableTabsInWindow Sample.isNewTabURL string Sample.new_URL
    Sample.extension_base_url (list OpenTab) Sample.tabs_window Sample.tabsIn 1
  = inr [Sample.a_tab 3 "http://example.com/#alice" false false true].
Proof. vm_compute. reflexivity. Qed.


Lemma stash_from_an_unknown_window_witness :
  let w := mkWorld (init (TSeparator "none")) [] 0 [] in
  let names := mkNode "names" (Some "stash_root") 0 "Names" None Folder in
  FolderVue.stash names (Some 2)
    recorded_move recorded_create recorded_setSelected recorded_closeTabs
    (λ _, false) Sample.isNewTabURL string Sample.new_URL
    Sample.extension_base_url (list OpenTab) Sample.tabs_window
    Sample.tabsIn true w
  = (mkWorld (bookmarks w)
       (logged w ++ [JsError ("Trying to stash tabs to unknown window "
                              +:+ pretty 2)])
       (S (reloads w)) (commands w),
     Returned tt).
Proof.
  intros w names.
  apply (stash_from_an_unknown_window Sample.isNewTabURL string
           Sample.new_URL Sample.extension_base_url (list OpenTab)
           Sample.tabs_window Sample.tabsIn
           recorded_move recorded_create recorded_setSelected recorded_closeTabs
           (λ _, false) names (Some 2) true 1 w).
  - reflexivity.
  - reflexivity.
Defined.

End stashable_witnesses.

Section selection_extras.
Import Bookmarks Model ModelOps.

(** X12.  Copying the selection into a folder.  Every command is a create or
    a selection update: nothing is moved, no tab is closed, and the
    selection flags of the originals are left alone. *)
Theorem putSelectedInFolder_copy_leaves_the_originals
    (selected_tabs : list Tab) (selected_bookmarks : list Node)
    (putItemsInWindow : list StashItem → M (list StashItem))
    (deselect : StashItem → M unit)
    (to : NodeID) (to_folder : Node) (w : World) :
  consistent (bookmarks w) →
  folder (bookmarks w) to = Some to_folder →
  ∃ cs,
    putSelectedInFolder recorded_move recorded_create recorded_setSelected
      recorded_closeTabs (λ _, false) selected_tabs selected_bookmarks
      putItemsInWindow deselect true to w
    = (issue (cs ++ [CmdCloseTabs []]) w, Returned tt) ∧
    Forall (λ c, is_move c = false ∧ is_closeTabs c = false) cs.
Proof.
  intros Hs Hto.
  destruct (copying_returns (bookmarks w)
              (selectedItems selected_tabs selected_bookmarks) Hs)
    as (r & Hr & _).
  destruct (emits_create_each (bookmarks w)
              (λ c, is_move c = false ∧ is_closeTabs c = false) r to_folder
              ltac:(done) ltac:(done)
              (default (length (children (bookmarks w) (id to_folder))) None) []
              w eq_refl)
    as (cs & moved & Hrun & Hcs & _).
  exists cs. split; [|done].
  unfold putSelectedInFolder, putSelectedIn.
  rewrite bool_decide_eq_true_2 by done.
  unfold mbind at 1, M_bind at 1, copyIf.
  unfold mbind at 1, M_bind at 1, get_bookmarks. rewrite Hr.
  unfold mbind at 1 2, M_bind at 1 2. unfold mret at 1, M_ret at 1.
  rewrite (putItemsInFolder_of_new_items _ _ _ _ _ _ _ to_folder); [|done..].
  unfold mbind, M_bind. rewrite Hrun. simpl.
  unfold recorded_closeTabs, record. by rewrite issue_issue.
Qed.

Lemma putSelectedInFolder_copy_leaves_the_originals_witness :
  let w := mkWorld Fixture.bms [] 0 [] in
  ∃ cs,
    putSelectedInFolder recorded_move recorded_create recorded_setSelected
      recorded_closeTabs (λ _, false)
      [mkTab 3 (Some "A tab") "http://example.com/#alice"]
      [mkNode "outside" (Some "root") 2 "Outside" None Folder]
      (λ _, throw (JsError "not used")) (λ _, throw (JsError "not used"))
      true "names" w
    = (issue (cs ++ [CmdCloseTabs []]) w, Returned tt) ∧
    Forall (λ c, is_move c = false ∧ is_closeTabs c = false) cs.
Proof.
  intros w.
  apply (putSelectedInFolder_copy_leaves_the_originals _ _ _ _ "names"
           (mkNode "names" (Some "stash_root") 0 "Names" None Folder) w).
  - apply load_consistent.
  - vm_compute. reflexivity.
Defined.

End selection_extras.

Section folder_tabs_extras.
Import Bookmarks Model ModelOps FolderVue.
Variable folder_children : list Node.
Variable targetWindow : option nat.
Variable tabsWithURL : string → list OpenTab.

Local Abbreviation listed :=
  (childrenWithTabs folder_children targetWindow tabsWithURL ≫= snd).

Lemma elem_of_listed t :
  t ∈ listed ↔
  ∃ c u, c ∈ folder_children ∧ payload c = Bookmark u ∧ u ≠ "" ∧
         t ∈ tabsWithURL u ∧ Some (windowId t) = targetWindow.
Proof.
  unfold childrenWithTabs. rewrite list_elem_of_bind. split.
  - intros ([c ts] & Ht & (c' & [= <- ->] & Hc)%list_elem_of_fmap). simpl in Ht.
    destruct (payload c) as [[|a u]| |] eqn:Hpl;
      try by apply elem_of_nil in Ht.
    apply list_elem_of_filter in Ht as [Hwin Ht].
    exists c, (String a u). done.
  - intros (c & u & Hc & Hpl & Hu & Ht & Hwin).
    eexists (c, _). split; [|apply list_elem_of_fmap; by exists c].
    simpl. rewrite Hpl. destruct u; [done|]. by apply list_elem_of_filter.
Qed.

Lemma foldl_count_tab (ts : list OpenTab) st :
  Forall (λ t, Some (windowId t) = targetWindow) ts →
  foldl (count_tab targetWindow) st ts
  = mkTabStats
      (n_open st + length (filter (λ t, hidden t = false ∧ discarded t = false) ts))
      (n_discarded st + length (filter (λ t, hidden t = false ∧ discarded t = true) ts))
      (n_hidden st + length (filter (λ t, hidden t = true) ts)).
Proof.
  revert st. induction ts as [|t ts IH]; intros st Hts.
  { destruct st. simpl. f_equal; lia. }
  apply Forall_cons in Hts as [Ht Hts]. simpl. rewrite IH by done.
  unfold count_tab. rewrite bool_decide_eq_true_2 by done. simpl.
  destruct (hidden t) eqn:Hh, (discarded t) eqn:Hd; simpl;
    repeat first
      [ rewrite filter_cons_True by (rewrite ?Hh, ?Hd; done)
      | rewrite filter_cons_False by (rewrite ?Hh, ?Hd; intros ?; intuition congruence) ];
    simpl; f_equal; lia.
Qed.

Lemma foldl_bind_snd {A B S} (f : S → B → S) (l : list (A * list B)) st :
  foldl (λ st x, foldl f st x.2) st l = foldl f st (l ≫= snd).
Proof.
  revert st. induction l as [|[a bs] l IH]; intros st; [done|].
  simpl. by rewrite IH, foldl_app.
Qed.

(** X13.  The tab statistics of a folder count every tab listed for its
    children once: as hidden when it is hidden, else as discarded when it is
    discarded, else as open; and the count of open tabs is the number of
    those that are not hidden. *)
Theorem childTabStats_counts_each_tab_once :
  let st := childTabStats folder_children targetWindow tabsWithURL in
  n_open st = length (filter (λ t, hidden t = false ∧ discarded t = false) listed) ∧
  n_discarded st = length (filter (λ t, hidden t = false ∧ discarded t = true) listed) ∧
  n_hidden st = length (filter (λ t, hidden t = true) listed) ∧
  n_open st + n_discarded st + n_hidden st = length listed ∧
  openTabsCount folder_children targetWindow tabsWithURL
  = length (filter (λ t, hidden t = false) listed).
Proof.
  intros st. unfold openTabsCount. fold st.
  unfold st, childTabStats. rewrite foldl_bind_snd, foldl_count_tab.
  - simpl. split_and!; [done..| |];
      induction listed as [|t ts IH]; try done;
      destruct (hidden t) eqn:Hh, (discarded t) eqn:Hd;
      repeat first
        [ rewrite filter_cons_True by (rewrite ?Hh, ?Hd; done)
        | rewrite filter_cons_False by (rewrite ?Hh, ?Hd; intros ?; intuition congruence) ];
      simpl; lia.
  - apply Forall_forall. intros t Ht. apply elem_of_listed in Ht.
    by destruct Ht as (? & ? & _ & _ & _ & _ & ?).
Qed.

(** The folder "names" of the tests, seen with the sample window: one of
    its bookmarks is open in a tab, one in a hidden tab. *)
Example childTabStats_of_names :
  childTabStats
    (childrenOf Fixture.bms
       (mkNode "names" (Some "stash_root") 0 "Names" None Folder))
    (Some 1) Sample.tabsWithURL
  = mkTabStats 1 0 1.
Proof. vm_compute. reflexivity. Qed.

(** X14.  The tabs the view closes are open, unpinned tabs of the target
    window that show a bookmark of the folder. *)
Theorem closeStashedTabs_closes_only_tabs_of_the_folder (w : World) :
  ∃ ids,
    closeStashedTabs folder_children targetWindow tabsWithURL recorded_closeTabs w
    = (issue [CmdCloseTabs ids] w, Returned tt) ∧
    Forall (λ i, ∃ t c u,
              tab_id (tab t) = i ∧ hidden t = false ∧ pinned t = false ∧
              Some (windowId t) = targetWindow ∧
              c ∈ folder_children ∧ payload c = Bookmark u ∧ t ∈ tabsWithURL u)
           ids.
Proof.
  eexists. split; [reflexivity|].
  apply Forall_fmap, Forall_forall. intros t [[Hh Hp] Ht]%list_elem_of_filter.
  apply elem_of_listed in Ht as (c & u & Hc & Hpl & _ & Ht & Hwin).
  simpl. by exists t, c, u.
Qed.

End folder_tabs_extras.

Section folder_moves_extras.
Import Bookmarks Model ModelOps FolderVue.
Variable this_folder : Node.
Variable selected : Node → bool.

Lemma canMoveIntoFolder_upto_spec bm k d :
  tree_ok bm → Depth bm k d →
  ∀ f fuel, by_id bm !! k = Some f → d + 2 ≤ fuel →
  ∃ b, canMoveIntoFolder_upto selected fuel bm (Some f) = Some b ∧
       (b = true ↔
        selected f = false ∧
        ∀ a n, Anc bm a k → by_id bm !! a = Some n → selected n = false).
Proof.
  intros Hok. induction 1 as [k Hk|k p d Hk Hd IH]; intros f fuel Hf Hfuel.
  - destruct fuel as [|[|fuel]]; [lia..|].
    unfold parent_of in Hk. rewrite Hf in Hk. simpl in Hk. injection Hk as Hk.
    simpl. rewrite Hk. simpl. destruct (selected f).
    + exists false. split; [done|]. split; [done|]. by intros [? _].
    + exists true. split; [done|]. split; [|done]. intros _. split; [done|].
      intros a n (q & Hq & _)%Anc_inv. unfold parent_of in Hq.
      rewrite Hf in Hq. simpl in Hq. congruence.
  - destruct fuel as [|fuel]; [lia|].
    unfold parent_of in Hk. rewrite Hf in Hk. simpl in Hk. injection Hk as Hk.
    destruct (parent_stored _ _ _ _ Hok Hf Hk) as (pn & Hpn & Hpl).
    destruct (IH pn fuel Hpn ltac:(lia)) as (b & Hb & Hiff).
    simpl. rewrite Hk. simpl. unfold folder at 1. rewrite Hpn.
    rewrite (proj2 (isFolder_true pn) Hpl).
    destruct (selected f) eqn:Hsel.
    + exists false. split; [done|]. split; [done|]. by intros [? _].
    + exists b. split; [done|]. rewrite Hiff. split.
      * intros [Hp Hanc]. split; [done|]. intros a n Ha Hn.
        apply Anc_inv in Ha as (q & Hq & Ha). unfold parent_of in Hq.
        rewrite Hf in Hq. simpl in Hq. assert (q = p) as -> by congruence.
        destruct Ha as [->|Ha]; [congruence|by apply (Hanc a)].
      * intros [_ Hanc]. split.
        -- apply (Hanc p); [|done]. apply Anc_parent.
           unfold parent_of. rewrite Hf. simpl. by rewrite Hk.
        -- intros a n Ha Hn. apply (Hanc a); [|done].
           eapply Anc_trans_parent; [|by right].
           unfold parent_of. rewrite Hf. simpl. by rewrite Hk.
Qed.

(** X15.  The view lets the selection be moved into its folder exactly when
    neither the folder nor any folder above it is selected. *)
Theorem canMoveIntoFolder_iff_no_ancestor_selected bm :
  consistent bm → by_id bm !! id this_folder = Some this_folder →
  ∃ b, canMoveIntoFolder this_folder selected bm = Some b ∧
       (b = true ↔
        selected this_folder = false ∧
        ∀ a n, Anc bm a (id this_folder) → by_id bm !! a = Some n →
               selected n = false).
Proof.
  intros [Hok _] Hf.
  destruct (t_depth _ Hok _ (mk_is_Some _ _ Hf)) as [d Hd].
  pose proof (Depth_lt_size _ _ _ Hd).
  apply (canMoveIntoFolder_upto_spec bm _ d); [done..|lia].
Qed.

(** X16.  What the view allows, the model accepts.  When [canMoveIntoFolder]
    holds and the items are selected nodes of the bookmark model,
    [putItemsInFolder] into the folder does not end in the error of a group
    moved into itself: it returns. *)
Theorem canMoveIntoFolder_passes_the_cycle_guard
    (items : list StashItem) (toIndex : option nat) (allowDuplicates : bool)
    (w : World) :
  consistent (bookmarks w) →
  folder (bookmarks w) (id this_folder) = Some this_folder →
  canMoveIntoFolder this_folder selected (bookmarks w) = Some true →
  (∀ n, INode n ∈ items →
        by_id (bookmarks w) !! id n = Some n ∧ selected n = true) →
  ∃ cs moved,
    recorded_putItemsInFolder
      (mkPutOptions items (id this_folder) toIndex allowDuplicates) w
    = (issue cs w, Returned moved) ∧ length moved = length items.
Proof.
  intros Hs Hto Hcan Hsel. pose proof (folder_stored _ _ _ Hto) as Hf.
  pose proof Hs as [Hok _].
  destruct (t_depth _ Hok _ (mk_is_Some _ _ Hf)) as [d Hd].
  pose proof (Depth_lt_size _ _ _ Hd).
  destruct (canMoveIntoFolder_upto_spec (bookmarks w) _ d Hok Hd this_folder
              (size (by_id (bookmarks w)) + 2) Hf ltac:(lia))
    as (b & Hb & Hiff).
  unfold canMoveIntoFolder in Hcan. rewrite Hcan in Hb. injection Hb as <-.
  destruct (proj1 Hiff eq_refl) as [Hself Hanc].
  unfold recorded_putItemsInFolder.
  rewrite (putItemsInFolder_passes_the_guard _ _ _ _ _ _ _ this_folder);
    [|done..|].
  - cbn [Model.items toFolderId Model.toIndex Model.allowDuplicates].
    destruct (emits_put_loop (bookmarks w) items this_folder allowDuplicates
                (default (length (children (bookmarks w) (id this_folder))) toIndex)
                (list_to_set
                   (filterMap items
                      (λ i, match i with INode n => Some (id n) | _ => None end)))
                [] [] w eq_refl)
      as (cs & [moved close] & Hrun & _ & Hlen & _).
    exists (cs ++ [CmdCloseTabs close]), moved. split; [|done].
    unfold mbind, M_bind. rewrite Hrun. simpl.
    unfold recorded_closeTabs, record. by rewrite issue_issue.
  - cbn [Model.items toFolderId]. intros n Hn _.
    destruct (Hsel n Hn) as [Hst Hn_sel]. split.
    + intros Heq. rewrite Heq, Hf in Hst. injection Hst as <-. congruence.
    + intros Ha. specialize (Hanc _ _ Ha Hst). congruence.
Qed.

End folder_moves_extras.

Section folder_view_witnesses.
Import Bookmarks Model ModelOps FolderVue.

Lemma canMoveIntoFolder_iff_no_ancestor_selected_witness :
  let names := mkNode "names" (Some "stash_root") 0 "Names" None Folder in
  let selected := λ n : Node, bool_decide (id n = "stash_root") in
  ∃ b, canMoveIntoFolder names selected Fixture.bms = Some b ∧
       (b = true ↔
        selected names = false ∧
        ∀ a n, Anc Fixture.bms a (id names) → by_id Fixture.bms !! a = Some n →
               selected n = false).
Proof.
  intros names selected.
  apply (canMoveIntoFolder_iff_no_ancestor_selected names selected Fixture.bms).
  - apply load_consistent.
  - vm_compute. reflexivity.
Defined.

Lemma canMoveIntoFolder_passes_the_cycle_guard_witness :
  let w := mkWorld Fixture.bms [] 0 [] in
  let names := mkNode "names" (Some "stash_root") 0 "Names" None Folder in
  let outside := mkNode "outside" (Some "root") 2 "Outside" None Folder in
  let selected := λ n : Node, bool_decide (id n = "outside") in
  ∃ cs moved,
    recorded_putItemsInFolder
      (mkPutOptions [INode outside] (id names) None false) w
    = (issue cs w, Returned moved) ∧ length moved = length [INode outside].
Proof.
  intros w names outside selected.
  apply (canMoveIntoFolder_passes_the_cycle_guard names selected
           [INode outside] None false w).
  - apply load_consistent.
  - vm_compute. reflexivity.
  - vm_compute. reflexivity.
  - intros n Hn. apply list_elem_of_singleton in Hn. injection Hn as ->.
    split; vm_compute; reflexivity.
Defined.

End folder_view_witnesses.

Section unnamed_folder_extras.
Import Bookmarks Model ModelOps.

(** X19.  The folder that takes a single stashed tab by default.  When
    [mostRecentUnnamedFolder] gives a folder, it is the first child of the
    stash root, it carries a default name, and it was not added before the
    cut-off. *)
Theorem mostRecentUnnamedFolder_is_the_first_child_of_the_stash_root
    (STASH_ROOT_NAME : string)
    (getDefaultFolderNameISODate : string → option string)
    (now new_folder_timeout_min : Z) (s : Store) (f : Node) :
  consistent s →
  mostRecentUnnamedFolder STASH_ROOT_NAME getDefaultFolderNameISODate now
    new_folder_timeout_min s = Some f →
  (∃ r, stash_root STASH_ROOT_NAME s = Some r ∧
        parentId f = Some (id r) ∧ index f = 0) ∧
  by_id s !! id f = Some f ∧
  payload f = Folder ∧
  truthy (getDefaultFolderNameISODate (title f)) = true ∧
  ∀ added, dateAdded f = Some added →
           (now - new_folder_timeout_min * 60 * 1000 ≤ added)%Z.
Proof.
  intros [Hok _]. unfold mostRecentUnnamedFolder.
  destruct (stash_root STASH_ROOT_NAME s) as [r|]; [|done].
  unfold children. destruct (by_parent s !! id r) as [cs|] eqn:Hcs; [|done].
  simpl. destruct (cs !! 0) as [k|] eqn:Hk; [|done]. simpl. unfold node.
  destruct (by_id s !! k) as [t|] eqn:Ht; [|done].
  destruct (Bookmarks.isFolder t) eqn:Hfolder; [|done]. simpl.
  destruct (truthy (getDefaultFolderNameISODate (title t))) eqn:Hname; [|done].
  simpl. intros Hres.
  assert (t = f ∧ ∀ added, dateAdded t = Some added →
                           (now - new_folder_timeout_min * 60 * 1000 ≤ added)%Z)
    as [-> Hage].
  { destruct (dateAdded t) as [added|].
    - destruct (added <? _)%Z eqn:Hlt; [done|]. injection Hres as <-.
      split; [done|]. intros ? [= <-]. by apply Z.ltb_ge.
    - injection Hres as <-. split; [done|]. by intros ?. }
  destruct (t_down _ Hok _ _ _ _ Hcs Hk) as (t' & Ht' & Hp & Hi).
  assert (t' = f) as -> by congruence.
  pose proof (t_id _ Hok _ _ Ht) as Hid.
  split_and!; [by exists r|by rewrite Hid|by apply isFolder_true|done..].
Qed.

Lemma mostRecentUnnamedFolder_is_the_first_child_of_the_stash_root_witness :
  let s := after Fixture.bms (Move "unnamed" "stash_root" 0) in
  let f := mkNode "unnamed" (Some "stash_root") 0
             "saved-1970-01-01T00:00:00.000Z" None Folder in
  let iso := λ t : string, if String.prefix "saved-" t then Some t else None in
  (∃ r, stash_root Fixture.STASH_ROOT_NAME s = Some r ∧
        parentId f = Some (id r) ∧ index f = 0) ∧
  by_id s !! id f = Some f ∧
  payload f = Folder ∧
  truthy (iso (title f)) = true ∧
  ∀ added, dateAdded f = Some added → (5000 - 1 * 60 * 1000 ≤ added)%Z.
Proof.
  intros s f iso.
  apply (mostRecentUnnamedFolder_is_the_first_child_of_the_stash_root
           Fixture.STASH_ROOT_NAME iso 5000 1 s f).
  - apply after_consistent, load_consistent.
  - vm_compute. reflexivity.
Defined.

End unnamed_folder_extras.

Section drop_extras.
Import Bookmarks Model ModelOps FolderVue.

Lemma putItemsInFolder_stops_at_the_guard
    (bookmarks_move : NodeID → NodeID → nat → M unit)
    (bookmarks_create : string → option string → NodeID → nat → M Node)
    (bookmarks_setSelected : list Node → bool → M unit)
    (hideOrCloseStashedTabs : list nat → M unit)
    (is_selected : StashItem → bool)
    (options : PutOptions) (w : World) (to_folder item : Node) :
  consistent (bookmarks w) →
  folder (bookmarks w) (toFolderId options) = Some to_folder →
  INode item ∈ items options → Bookmarks.isFolder item = true →
  id item = toFolderId options ∨ Anc (bookmarks w) (id item) (toFolderId options) →
  putItemsInFolder bookmarks_move bookmarks_create bookmarks_setSelected
    hideOrCloseStashedTabs is_selected options w
  = (w, Thrown (UserError "Cannot move a group into itself")).
Proof.
  intros [Hok _] Hto Hin Hf Hcyc.
  pose proof (folder_stored _ _ _ Hto) as Hstored.
  destruct (t_depth _ Hok _ (mk_is_Some _ _ Hstored)) as [d Hd].
  destruct (pathTo_spec _ _ _ _ Hok Hstored Hd) as (path & Hpath & _ & Hids).
  unfold putItemsInFolder, mbind, M_bind, get_bookmarks. rewrite Hto. simpl.
  rewrite Hpath.
  rewrite (check_cyclic_sources_throws _ _ item); [done..|].
  apply elem_of_app. destruct Hcyc as [Heq|Hanc].
  - right. apply list_elem_of_singleton.
    by rewrite (t_id _ Hok _ _ Hstored).
  - left. by apply Hids.
Qed.

(** X17.  A folder dropped onto itself or into a folder below it.  The drop
    is refused with the user error; the error is logged, a reload of the
    model is started, and no command is issued. *)
Theorem drop_of_a_folder_into_itself_is_refused
    (bookmarks_move : NodeID → NodeID → nat → M unit)
    (bookmarks_create : string → option string → NodeID → nat → M Node)
    (bookmarks_setSelected : list Node → bool → M unit)
    (hideOrCloseStashedTabs : list nat → M unit)
    (is_selected : StashItem → bool)
    (this_folder : Node) (items : list StashItem) (toIndex : option nat)
    (w : World) (to_folder item : Node) :
  consistent (bookmarks w) →
  folder (bookmarks w) (id this_folder) = Some to_folder →
  INode item ∈ items → Bookmarks.isFolder item = true →
  id item = id this_folder ∨ Anc (bookmarks w) (id item) (id this_folder) →
  drop this_folder bookmarks_move bookmarks_create bookmarks_setSelected
    hideOrCloseStashedTabs is_selected items toIndex w
  = (mkWorld (bookmarks w)
       (logged w ++ [UserError "Cannot move a group into itself"])
       (S (reloads w)) (commands w),
     Thrown (UserError "Cannot move a group into itself")).
Proof.
  intros Hs Hto Hin Hf Hcyc. unfold drop, attempt, try_catch.
  by rewrite (putItemsInFolder_stops_at_the_guard _ _ _ _ _ _ _ to_folder item).
Qed.

Lemma drop_of_a_folder_into_itself_is_refused_witness :
  let w := mkWorld Fixture.bms [] 0 [] in
  let names := mkNode "names" (Some "stash_root") 0 "Names" None Folder in
  let stash_root := mkNode "stash_root" (Some "root") 3
                      Fixture.STASH_ROOT_NAME None Folder in
  drop names recorded_move recorded_create recorded_setSelected
    recorded_closeTabs (λ _, false) [INode stash_root] (Some 0) w
  = (mkWorld (bookmarks w)
       (logged w ++ [UserError "Cannot move a group into itself"])
       (S (reloads w)) (commands w),
     Thrown (UserError "Cannot move a group into itself")).
Proof.
  intros w names stash_root.
  apply (drop_of_a_folder_into_itself_is_refused _ _ _ _ _ names
           [INode stash_root] (Some 0) w names stash_root).
  - apply load_consistent.
  - vm_compute. reflexivity.
  - by left.
  - reflexivity.
  - right. apply Anc_parent. vm_compute. reflexivity.
Defined.

End drop_extras.

Section top_level_extras.
Import Bookmarks Model ModelOps FolderVue.

Lemma path_up_positions s :
  tree_ok s →
  ∀ fuel n path,
    by_id s !! id n = Some n → path_up fuel s n = Some path →
    ∀ p, p ∈ path →
         by_id s !! id (parent p) = Some (parent p) ∧
         ∃ x, (x = n ∨ Anc s (id x) (id n)) ∧ by_id s !! id x = Some x ∧
              parentId x = Some (id (parent p)) ∧ pos_index p = index x.
Proof.
  intros Hok fuel. induction fuel as [|fuel IH]; intros n path Hn Hpath p Hp;
    [done|].
  simpl in Hpath. unfold positionOf in Hpath.
  destruct (parentId n) as [q|] eqn:Hq;
    [|injection Hpath as <-; by apply elem_of_nil in Hp].
  destruct (by_id s !! q) as [qn|] eqn:Hqn;
    [|injection Hpath as <-; by apply elem_of_nil in Hp].
  simpl in Hpath.
  destruct (path_up fuel s qn) as [rest|] eqn:Hrest; [|done].
  injection Hpath as <-.
  pose proof (t_id _ Hok _ _ Hqn) as Hid.
  assert (by_id s !! id qn = Some qn) as Hqn' by (by rewrite Hid).
  assert (parent_of s (id n) = Some (Some (id qn))) as Hpar.
  { apply parent_of_Some. exists n. by rewrite Hid. }
  apply elem_of_cons in Hp as [->|Hp].
  - simpl. split; [done|]. exists n. split_and!; [by left|done|by rewrite Hid|done].
  - destruct (IH qn rest Hqn' Hrest p Hp) as (Hpp & x & Hx & Hxs & Hxp & Hxi).
    split; [done|]. exists x. split_and!; [|done..]. right.
    destruct Hx as [->|Hx].
    + by apply Anc_parent.
    + eapply Anc_trans_parent; [exact Hpar|by right].
Qed.

(** X18.  "move to the top level" puts a folder of the stash where its
    top-level ancestor stands: the index of the move is the index, under the
    stash root, of the folder itself or of the folder above it that is a
    child of the stash root. *)
Theorem moveSelfToTopLevel_takes_the_place_of_the_top_level_ancestor
    (this_folder root : Node) (w : World) :
  consistent (bookmarks w) →
  by_id (bookmarks w) !! id this_folder = Some this_folder →
  by_id (bookmarks w) !! id root = Some root →
  Anc (bookmarks w) (id root) (id this_folder) →
  ∃ x, (x = this_folder ∨ Anc (bookmarks w) (id x) (id this_folder)) ∧
       by_id (bookmarks w) !! id x = Some x ∧
       parentId x = Some (id root) ∧
       moveSelfToTopLevel this_folder recorded_move root w
       = (issue [CmdMove (id this_folder) (id root) (index x)] w, Returned tt).
Proof.
  intros [Hok _] Hf Hr Hanc.
  destruct (t_depth _ Hok _ (mk_is_Some _ _ Hf)) as [d Hd].
  destruct (pathTo_spec _ _ _ _ Hok Hf Hd) as (path & Hpath & _ & Hids).
  assert (∀ p, p ∈ path →
            by_id (bookmarks w) !! id (parent p) = Some (parent p) ∧
            ∃ x, (x = this_folder ∨ Anc (bookmarks w) (id x) (id this_folder)) ∧
                 by_id (bookmarks w) !! id x = Some x ∧
                 parentId x = Some (id (parent p)) ∧ pos_index p = index x)
    as Hpos.
  { unfold pathTo in Hpath.
    destruct (path_up _ _ this_folder) as [up|] eqn:Hup; [|done].
    injection Hpath as <-. intros p Hp. rewrite elem_of_reverse in Hp.
    exact (path_up_positions _ Hok _ _ _ Hf Hup p Hp). }
  apply Hids in Hanc. unfold path_ids in Hanc.
  apply list_elem_of_fmap in Hanc as (p0 & Hp0 & Hin0).
  assert (parent p0 = root) as Hroot.
  { destruct (Hpos p0 Hin0) as [Hst _]. rewrite <-Hp0, Hr in Hst. congruence. }
  destruct (filter (λ p, parent p = root) path) as [|p rest] eqn:Hfilter.
  { assert (p0 ∈ filter (λ p, parent p = root) path) as Hin
      by (by apply list_elem_of_filter).
    rewrite Hfilter in Hin. by apply elem_of_nil in Hin. }
  assert (p ∈ filter (λ p, parent p = root) path) as Hp
    by (rewrite Hfilter; by left).
  apply list_elem_of_filter in Hp as [Hparent Hp].
  destruct (Hpos p Hp) as (_ & x & Hx & Hxs & Hxp & Hxi).
  exists x. split_and!; [done|done|by rewrite <-Hparent|].
  unfold moveSelfToTopLevel, not_awaited, attempt, try_catch.
  unfold mbind, M_bind, get_bookmarks. rewrite Hpath, Hfilter. simpl.
  by rewrite Hxi.
Qed.

Lemma moveSelfToTopLevel_takes_the_place_of_the_top_level_ancestor_witness :
  let w := mkWorld Fixture.bms [] 0 [] in
  let names := mkNode "names" (Some "stash_root") 0 "Names" None Folder in
  let root := mkNode "root" (Some "tree_root") 0 "Root" None Folder in
  ∃ x, (x = names ∨ Anc (bookmarks w) (id x) (id names)) ∧
       by_id (bookmarks w) !! id x = Some x ∧
       parentId x = Some (id root) ∧
       moveSelfToTopLevel names recorded_move root w
       = (issue [CmdMove (id names) (id root) (index x)] w, Returned tt).
Proof.
  intros w names root.
  apply (moveSelfToTopLevel_takes_the_place_of_the_top_level_ancestor
           names root w).
  - apply load_consistent.
  - vm_compute. reflexivity.
  - vm_compute. reflexivity.
  - eapply Anc_step; [vm_compute; reflexivity|].
    apply Anc_parent. vm_compute. reflexivity.
Defined.

(** With the folder "empty" of the tests moved into "unnamed", the second
    folder of the stash root: moved to the top level from there, it goes to
    index 1. *)
Example moveSelfToTopLevel_on_the_fixture :
  moveSelfToTopLevel
    (mkNode "empty" (Some "unnamed") 0 "Empty Folder" None Folder)
    recorded_move
    (mkNode "stash_root" (Some "root") 3 Fixture.STASH_ROOT_NAME None Folder)
    (mkWorld (after Fixture.bms (Move "empty" "unnamed" 0)) [] 0 [])
  = (mkWorld (after Fixture.bms (Move "empty" "unnamed" 0)) [] 0
       [CmdMove "empty" "stash_root" 1],
     Returned tt).
Proof. vm_compute. reflexivity. Qed.

End top_level_extras.

Section deleteBookmark_extras.
Import Bookmarks Model ModelOps Deleting.

(** X23.  A deleted bookmark is saved with the folder it was in.  The entry
    has the bookmark's title and URL and names the id and the title of the
    parent folder; the bookmark is removed after that. *)
Theorem deleteBookmark_records_the_folder
    (favicon_of : string → option string) (bm : Node) (u : string) (p : NodeID)
    (deleted_at : option Z) (w : Bin) :
  consistent (store w) →
  by_id (store w) !! id bm = Some bm →
  payload bm = Bookmark u → parentId bm = Some p →
  ∃ pn, by_id (store w) !! p = Some pn ∧
        deleteBookmark favicon_of
          (λ item from at', request (ActAdd item from at'))
          (λ k, request (ActRemove k)) bm deleted_at w
        = (mkBin (store w)
             (actions w ++
              [ActAdd (DeletedBookmark (title bm) u
                         (Some (or_undefined (favicon_of u))))
                 (Some (p, title pn)) deleted_at;
               ActRemove (id bm)]),
           Returned tt).
Proof.
  intros [Hok _] Hbm Hu Hp.
  destruct (parent_stored _ _ _ _ Hok Hbm Hp) as (pn & Hpn & Hpl).
  exists pn. split; [done|].
  unfold deleteBookmark, mbind, Act_bind, get_store, request. simpl.
  rewrite Hp, Hu. simpl. unfold folder. rewrite Hpn.
  rewrite (proj2 (isFolder_true pn) Hpl). simpl.
  by rewrite (t_id _ Hok _ _ Hpn), <-app_assoc.
Qed.

Lemma deleteBookmark_records_the_folder_witness :
  let w := mkBin Fixture.bms [] in
  let alice := mkNode "alice" (Some "outside") 0 "Alice" None
                 (Bookmark (Fixture.B "alice")) in
  ∃ pn, by_id (store w) !! "outside" = Some pn ∧
        deleteBookmark (λ _, Some "icon.png")
          (λ item from at', request (ActAdd item from at'))
          (λ k, request (ActRemove k)) alice None w
        = (mkBin (store w)
             (actions w ++
              [ActAdd (DeletedBookmark (title alice) (Fixture.B "alice")
                         (Some (or_undefined ((λ _, Some "icon.png")
                                                (Fixture.B "alice")))))
                 (Some ("outside", title pn)) None;
               ActRemove (id alice)]),
           Returned tt).
Proof.
  intros w alice.
  apply (deleteBookmark_records_the_folder (λ _, Some "icon.png") alice
           (Fixture.B "alice") "outside" None w).
  - apply load_consistent.
  - vm_compute. reflexivity.
  - reflexivity.
  - reflexivity.
Defined.

End deleteBookmark_extras.

Section deleting_extras.
Import Bookmarks Model ModelOps Deleting.
Variable favicon_of : string → option string.

(** X20.  Ids that are no longer in the bookmark model are passed over: the
    call comes down to the one request to remove the tabs. *)
Theorem deleteItems_skips_what_is_gone
    (deleted_items_add : DeletedItem → option (NodeID * string) → option Z → Act unit)
    (bookmarks_remove bookmarks_removeTree : NodeID → Act unit)
    (tabs_remove : list nat → Act unit)
    (now : Z) (ids : list (NodeID + nat)) (w : Bin) :
  (∀ k, inl k ∈ ids → by_id (store w) !! k = None) →
  deleteItems favicon_of deleted_items_add bookmarks_remove bookmarks_removeTree
    tabs_remove now ids w
  = tabs_remove (tab_ids_of ids) w.
Proof.
  intros Hgone. unfold deleteItems.
  assert (∀ tabs, delete_each favicon_of deleted_items_add bookmarks_remove
                    bookmarks_removeTree now ids tabs w
                  = (w, Returned (tabs ++ tab_ids_of ids))) as Hloop.
  { induction ids as [|[k|t] rest IH]; intros tabs.
    - simpl. by rewrite app_nil_r.
    - cbn [delete_each]. unfold mbind at 1, Act_bind at 1, get_store.
      unfold node. rewrite Hgone by (by left).
      apply IH. intros k' Hk'. apply Hgone. by right.
    - cbn [delete_each]. rewrite IH.
      + by rewrite <-app_assoc.
      + intros k' Hk'. apply Hgone. by right. }
  unfold mbind, Act_bind. by rewrite Hloop.
Qed.

Lemma Anc_trans s a b c : Anc s a b → Anc s b c → Anc s a c.
Proof.
  intros Hab. induction 1 as [k Hk|k p Hk _ IH].
  - eapply Anc_step; [exact Hk|exact Hab].
  - eapply Anc_step; [exact Hk|exact IH].
Qed.

Lemma child_depth s n c dn :
  tree_ok s → c ∈ childrenOf s n → Depth s (id n) dn →
  by_id s !! id c = Some c ∧ Depth s (id c) (S dn) ∧ Anc s (id n) (id c).
Proof.
  intros Hok Hc Hd. destruct (elem_of_childrenOf _ _ _ Hok Hc) as [Hst Hp].
  assert (parent_of s (id c) = Some (Some (id n))) as Hpar.
  { apply parent_of_Some. by exists c. }
  split_and!; [done|by eapply Depth_child|by apply Anc_parent].
Qed.

Lemma toDelItem_upto_returns s :
  tree_ok s →
  ∀ f n dn, Depth s (id n) dn → size (by_id s) ≤ f + dn →
            is_Some (toDelItem_upto favicon_of f s n).
Proof.
  intros Hok f. induction f as [|f IH]; intros n dn Hd Hf.
  { pose proof (Depth_lt_size _ _ _ Hd). lia. }
  simpl. destruct (payload n); [done| |done].
  change (filterMap (children s (id n)) (λ i, node s i)) with (childrenOf s n).
  destruct (mapM_is_Some_2 (toDelItem_upto favicon_of f s) (childrenOf s n))
    as [kids Hkids]; [|by rewrite Hkids].
  apply Forall_forall. intros c Hc.
  destruct (child_depth _ _ _ _ Hok Hc Hd) as (_ & Hdc & _).
  apply (IH c (S dn)); [done|lia].
Qed.

Lemma toDelItem_returns s n :
  tree_ok s → is_Some (by_id s !! id n) →
  is_Some (toDelItem favicon_of s n).
Proof.
  intros Hok Hn. destruct (t_depth _ Hok _ Hn) as [dn Hd].
  apply (toDelItem_upto_returns s Hok _ n dn); [done|lia].
Qed.

Lemma filterMapM_copies {T} (cs : list T) (g : T → option (option NewItem))
    (h : T → option DeletedItem) kids :
  mapM h cs = Some kids →
  (∀ c d, c ∈ cs → h c = Some d → g c = Some (Some (as_new_item d))) →
  filterMapM cs g = Some (as_new_item <$> kids).
Proof.
  revert kids. induction cs as [|c cs IH]; intros kids Hkids Hg.
  { simpl in Hkids. by injection Hkids as <-. }
  simpl in Hkids. destruct (h c) as [d|] eqn:Hd; [|done]. simpl in Hkids.
  destruct (mapM h cs) as [ds|] eqn:Hds; [|done]. injection Hkids as <-.
  simpl. rewrite (Hg c d); [|by left|done]. simpl.
  rewrite (IH ds); [done|done|].
  intros c' d' Hc' Hd'. apply Hg; [by right|done].
Qed.

Lemma toDelItem_upto_copy s :
  tree_ok s →
  ∀ f n dn d f2,
    Depth s (id n) dn →
    toDelItem_upto favicon_of f s n = Some d →
    payload n ≠ Separator →
    (∀ k m, Anc s (id n) k → by_id s !! k = Some m → payload m ≠ Separator) →
    size (by_id s) + 1 ≤ f2 + dn →
    copy_item (copying_upto f2 s) s (INode n) = Some (Some (as_new_item d)).
Proof.
  intros Hok f. induction f as [|f IH]; intros n dn d f2 Hd Hdel Hn Hbelow Hf2;
    [done|].
  pose proof (Depth_lt_size _ _ _ Hd) as Hlt.
  destruct f2 as [|f2]; [lia|].
  simpl in Hdel. cbn [copy_item]. destruct (payload n) as [u| |] eqn:Hpl.
  - by injection Hdel as <-.
  - change (filterMap (children s (id n)) (λ i, node s i))
      with (childrenOf s n) in Hdel.
    destruct (mapM _ (childrenOf s n)) as [kids|] eqn:Hkids; [|done].
    injection Hdel as <-. cbn [copying_upto as_new_item].
    assert (filterMapM (INode <$> childrenOf s n)
              (copy_item (copying_upto f2 s) s)
            = Some (as_new_item <$> kids)) as ->; [|done].
    apply (filterMapM_copies _ _
             (λ i, match i with
                   | INode c => toDelItem_upto favicon_of f s c
                   | _ => None
                   end)).
    + rewrite <-Hkids. clear. induction (childrenOf s n) as [|c cs IHc]; [done|].
      rewrite fmap_cons. simpl. by rewrite IHc.
    + intros i dc (c & -> & Hc)%list_elem_of_fmap Hdc.
      destruct (child_depth _ _ _ _ Hok Hc Hd) as (Hst & Hdepth & Hanc).
      apply (IH c (S dn)); [done..| | |lia].
      * by apply (Hbelow (id c)).
      * intros k m Hk. apply Hbelow. by eapply Anc_trans.
  - done.
Qed.

(** X24.  What deleting a folder saves is what copying it gives.  For a
    folder or bookmark with no separator below it, the entry made for the
    deleted items, read as a stash item, is its copy. *)
Theorem deleted_entry_is_the_copy s n :
  consistent s → by_id s !! id n = Some n →
  (∀ k m, k = id n ∨ Anc s (id n) k → by_id s !! k = Some m →
          payload m ≠ Separator) →
  ∃ d, toDelItem favicon_of s n = Some d ∧
       copying s [INode n] = Some [as_new_item d].
Proof.
  intros [Hok _] Hn Hnosep.
  destruct (toDelItem_returns s n Hok (mk_is_Some _ _ Hn)) as [d Hd].
  exists d. split; [done|].
  destruct (t_depth _ Hok _ (mk_is_Some _ _ Hn)) as [dn Hdn].
  unfold copying. replace (size (by_id s) + 2) with (S (size (by_id s) + 1))
    by lia.
  cbn [copying_upto filterMapM].
  rewrite (toDelItem_upto_copy s Hok _ n dn d (size (by_id s) + 1) Hdn Hd).
  - done.
  - by apply (Hnosep (id n)); [left|].
  - intros k m Hk. apply Hnosep. by right.
  - lia.
Qed.


(** ** What [deleteItems] asks for, in order *)

Local Abbreviation note_add :=
  (λ item from at', request (ActAdd item from at')).
Local Abbreviation note_remove := (λ k, request (ActRemove k)).
Local Abbreviation note_removeTree := (λ k, request (ActRemoveTree k)).
Local Abbreviation note_removeTabs := (λ ids, request (ActRemoveTabs ids)).

(** Every removal of a folder follows the request that saves the folder,
    and every removal of a node that is not a separator follows the request
    that saves the bookmark. *)
Local Abbreviation saved_first s now acts :=
  ((∀ i k, acts !! i = Some (ActRemoveTree k) →
      ∃ j item n, i = S j ∧ acts !! j = Some (ActAdd item None (Some now)) ∧
                  by_id s !! k = Some n ∧ toDelItem favicon_of s n = Some item) ∧
   (∀ i k, acts !! i = Some (ActRemove k) →
      ∃ n, by_id s !! k = Some n ∧
           (payload n = Separator ∨
            ∃ j u icon from,
              i = S j ∧ payload n = Bookmark u ∧
              acts !! j = Some (ActAdd (DeletedBookmark (title n) u icon) from
                                  (Some now))))).

Lemma saved_first_app s now (a b : list Action) :
  saved_first s now a → saved_first s now b → saved_first s now (a ++ b).
Proof.
  intros [Ha1 Ha2] [Hb1 Hb2]. split.
  - intros i k Hi. apply lookup_app_Some in Hi as [Hi|[Hlen Hi]].
    + destruct (Ha1 i k Hi) as (j & item & n & -> & Hj & Hn & Hd).
      exists j, item, n. split_and!; [done| |done..].
      by apply lookup_app_l_Some.
    + destruct (Hb1 _ k Hi) as (j & item & n & Hij & Hj & Hn & Hd).
      exists (length a + j), item, n. split_and!; [lia| |done..].
      rewrite lookup_app_r by lia. by replace (length a + j - length a) with j by lia.
  - intros i k Hi. apply lookup_app_Some in Hi as [Hi|[Hlen Hi]].
    + destruct (Ha2 i k Hi) as (n & Hn & [Hsep|(j & u & icon & from & -> & Hu & Hj)]);
        exists n; (split; [done|]); [by left|right].
      exists j, u, icon, from. split_and!; [done..|]. by apply lookup_app_l_Some.
    + destruct (Hb2 _ k Hi) as (n & Hn & [Hsep|(j & u & icon & from & Hij & Hu & Hj)]);
        exists n; (split; [done|]); [by left|right].
      exists (length a + j), u, icon, from. split_and!; [lia|done|].
      rewrite lookup_app_r by lia. by replace (length a + j - length a) with j by lia.
Qed.

Lemma noted_delete_each_spec s now :
  tree_ok s →
  ∀ ids tabs acts0, ∃ acts,
    delete_each favicon_of note_add note_remove note_removeTree now ids tabs
      (mkBin s acts0)
    = (mkBin s (acts0 ++ acts), Returned (tabs ++ tab_ids_of ids)) ∧
    Forall (λ a, is_removeTabs a = false) acts ∧
    Forall (λ a, ∀ d, added_at a = Some d → d = Some now) acts ∧
    saved_first s now acts.
Proof.
  intros Hok ids. induction ids as [|[k|t] rest IH]; intros tabs acts0.
  - exists []. simpl. rewrite !app_nil_r. split_and!; [done|constructor..| |];
      intros i k Hi; by rewrite lookup_nil in Hi.
  - cbn [delete_each]. unfold mbind at 1, Act_bind at 1, get_store.
    cbn [store]. unfold node at 1.
    destruct (by_id s !! k) as [n|] eqn:Hn; [|apply IH].
    assert (∃ block,
              (match payload n with
               | Folder =>
                   deleteBookmarkTree favicon_of note_add note_removeTree k (Some now)
               | Bookmark _ =>
                   deleteBookmark favicon_of note_add note_remove n (Some now)
               | Separator => note_remove k
               end) (mkBin s acts0)
              = (mkBin s (acts0 ++ block), Returned tt) ∧
              Forall (λ a, is_removeTabs a = false) block ∧
              Forall (λ a, ∀ d, added_at a = Some d → d = Some now) block ∧
              saved_first s now block) as (block & Hrun & Hb1 & Hb2 & Hb3).
    { pose proof (t_id _ Hok _ _ Hn) as Hid.
      destruct (payload n) as [u| |] eqn:Hpl.
      - eexists [_; _]. split_and!.
        + unfold deleteBookmark, mbind, Act_bind, get_store, request. simpl.
          rewrite Hpl, Hid. by rewrite <-app_assoc.
        + by repeat constructor.
        + repeat constructor; simpl; intros d; [by intros [= <-]|done].
        + intros [|[|i]] k' Hi; simplify_eq/=.
        + intros [|[|i]] k' Hi; simplify_eq/=.
          exists n. split; [done|]. right. by eexists 0, u, _, _.
      - destruct (toDelItem_returns s n Hok) as [item Hitem];
          [by rewrite Hid, Hn|].
        exists [ActAdd item None (Some now); ActRemoveTree k]. split_and!.
        + unfold deleteBookmarkTree, mbind, Act_bind, get_store, request. simpl.
          unfold node. rewrite Hn, Hitem. simpl. rewrite Hid.
          by rewrite <-app_assoc.
        + by repeat constructor.
        + repeat constructor; simpl; intros d; [by intros [= <-]|done].
        + intros [|[|i]] k' Hi; simplify_eq/=. by exists 0, item, n.
        + intros [|[|i]] k' Hi; simplify_eq/=.
      - exists [ActRemove k]. split_and!; [done|by repeat constructor| | |].
        + repeat constructor. simpl. by intros d.
        + intros [|i] k' Hi; simplify_eq/=.
        + intros [|i] k' Hi; simplify_eq/=. exists n. split; [done|by left]. }
    unfold mbind, Act_bind. rewrite Hrun.
    destruct (IH tabs (acts0 ++ block)) as (acts & Hrest & Ha1 & Ha2 & Ha3).
    exists (block ++ acts). rewrite Hrest, <-app_assoc.
    split; [done|]. split; [by apply Forall_app|].
    split; [by apply Forall_app|]. by apply saved_first_app.
  - cbn [delete_each].
    destruct (IH (tabs ++ [t]) acts0) as (acts & Hrest & Ha1 & Ha2 & Ha3).
    exists acts. rewrite Hrest, <-app_assoc. done.
Qed.

(** X21.  The tabs are removed in one request, the last one, with their ids
    in the order given; and all entries added to the deleted items carry
    the one time read when the call started. *)
Theorem deleteItems_removes_the_tabs_last (now : Z) (ids : list (NodeID + nat))
    (w : Bin) :
  consistent (store w) →
  ∃ acts,
    noted_deleteItems favicon_of now ids w
    = (mkBin (store w) (actions w ++ acts ++ [ActRemoveTabs (tab_ids_of ids)]),
       Returned tt) ∧
    Forall (λ a, is_removeTabs a = false) acts ∧
    Forall (λ a, ∀ d, added_at a = Some d → d = Some now) acts.
Proof.
  intros [Hok _]. destruct w as [s acts0].
  destruct (noted_delete_each_spec s now Hok ids [] acts0)
    as (acts & Hrun & H1 & H2 & _).
  exists acts. split_and!; [|done..].
  unfold noted_deleteItems, deleteItems, mbind, Act_bind. rewrite Hrun.
  simpl. unfold request. simpl. by rewrite <-app_assoc.
Qed.


End deleting_extras.

Section deleting_witnesses.
Import Bookmarks Model ModelOps Deleting.

Lemma deleteItems_skips_what_is_gone_witness :
  let w := mkBin Fixture.bms [] in
  let ids := [inl "gone"; inr 4; inl "also gone"; inr 2] in
  deleteItems (λ _, None)
    (λ item from at', request (ActAdd item from at'))
    (λ k, request (ActRemove k)) (λ k, request (ActRemoveTree k))
    (λ ids, request (ActRemoveTabs ids)) 0 ids w
  = request (ActRemoveTabs (tab_ids_of ids)) w.
Proof.
  intros w ids.
  apply (deleteItems_skips_what_is_gone (λ _, None)
           (λ item from at', request (ActAdd item from at'))
           (λ k, request (ActRemove k)) (λ k, request (ActRemoveTree k))
           (λ ids, request (ActRemoveTabs ids)) 0 ids w).
  intros k Hk. unfold ids in Hk.
  apply elem_of_cons in Hk as [Hk|Hk];
    [injection Hk as ->; vm_compute; reflexivity|].
  apply elem_of_cons in Hk as [Hk|Hk]; [discriminate Hk|].
  apply elem_of_cons in Hk as [Hk|Hk];
    [injection Hk as ->; vm_compute; reflexivity|].
  apply elem_of_cons in Hk as [Hk|Hk]; [discriminate Hk|].
  by apply elem_of_nil in Hk.
Defined.

Lemma deleteItems_removes_the_tabs_last_witness :
  let w := mkBin Fixture.bms [] in
  let ids := [inl "alice"; inr 4; inl "names"; inl "separator"; inr 2] in
  ∃ acts,
    noted_deleteItems (λ _, None) 1000 ids w
    = (mkBin (store w) (actions w ++ acts ++ [ActRemoveTabs (tab_ids_of ids)]),
       Returned tt) ∧
    Forall (λ a, is_removeTabs a = false) acts ∧
    Forall (λ a, ∀ d, added_at a = Some d → d = Some 1000%Z) acts.
Proof.
  intros w ids.
  apply (deleteItems_removes_the_tabs_last (λ _, None) 1000 ids w).
  apply load_consistent.
Defined.


(** What the deletions come to on the bookmarks of the tests. *)
Example deleteItems_on_the_fixture :
  (noted_deleteItems (λ _, None) 1000
     [inl "alice"; inr 4; inl "empty"; inl "separator"; inr 2]
     (mkBin Fixture.bms [])).1
  = mkBin Fixture.bms
      [ActAdd (DeletedBookmark "Alice" (Fixture.B "alice") (Some None))
         (Some ("outside", "Outside")) (Some 1000%Z);
       ActRemove "alice";
       ActAdd (DeletedFolder "Empty Folder" []) None (Some 1000%Z);
       ActRemoveTree "empty";
       ActRemove "separator";
       ActRemoveTabs [4; 2]].
Proof. vm_compute. reflexivity. Qed.

Lemma deleted_entry_is_the_copy_witness :
  let names := mkNode "names" (Some "stash_root") 0 "Names" None Folder in
  ∃ d, toDelItem (λ _, None) Fixture.bms names = Some d ∧
       copying Fixture.bms [INode names] = Some [as_new_item d].
Proof.
  intros names.
  apply (deleted_entry_is_the_copy (λ _, None) Fixture.bms names).
  - apply load_consistent.
  - vm_compute. reflexivity.
  - intros k m Hk Hm Hsep.
    assert (Forall (λ km : NodeID * Node,
                      payload km.2 = Separator → km.1 = "separator")
              (map_to_list (by_id Fixture.bms))) as Hall.
    { apply (bool_decide_unpack _). vm_compute. exact I. }
    rewrite Forall_forall in Hall.
    pose proof (Hall (k, m) (proj2 (elem_of_map_to_list _ _ _) Hm) Hsep) as Hk'.
    simpl in Hk'. subst k. destruct Hk as [Hk|Hk]; [discriminate Hk|].
    assert (Depth Fixture.bms "names" 3) as Hd1.
    { do 3 (eapply Depth_child; [vm_compute; reflexivity|]).
      apply Depth_top. vm_compute. reflexivity. }
    assert (Depth Fixture.bms "separator" 3) as Hd2.
    { do 3 (eapply Depth_child; [vm_compute; reflexivity|]).
      apply Depth_top. vm_compute. reflexivity. }
    destruct (Anc_depth _ _ _ _ Hk Hd2) as (d & Hd & Hlt).
    pose proof (Depth_functional _ _ _ _ Hd Hd1). lia.
Defined.

End deleting_witnesses.
